(** * YellowPay client core: a shallow embedding and its properties

    The development follows the TypeScript sources of the extension core:
    - [src/lib/websocket.ts]  (class WebSocketManager),
    - the authentication manager (class AuthManager),
    - the session key manager (class SessionKeyManager),
    - the balance manager (class BalanceManager).

    JavaScript values are an inductive type, strings are [string], BigInt
    values are [Z], IEEE doubles produced by [parseFloat] are dyadic
    rationals rounded to 53 bits, mutable singletons are fields of one
    [World] record threaded through every operation, and an [await] consumes
    a prefix of the list of browser events still to come. *)

From Stdlib Require Import ZArith NArith List Ascii String Lia Bool.
From stdpp Require Import base option gmap strings list.

Set Warnings "-register-all".
Local Open Scope string_scope.
Local Open Scope Z_scope.

(* ===================================================================== *)
(** * Part I: the model *)
(* ===================================================================== *)

(** ** JavaScript values, exceptions and property access *)

Module Js.

(** Values as [JSON.parse] produces them, plus [undefined], which property
    access yields. Numbers on this wire are request ids, timestamps and
    counters; they are integers. *)
Inductive jsval : Type :=
| JUndefined
| JNull
| JBool (b : bool)
| JNum (n : Z)
| JStr (s : string)
| JArr (items : list jsval)
| JObj (fields : list (string * jsval)).

(** What a [throw] carries: an [Error] instance with its message, or any
    other value. *)
Inductive Thrown : Type :=
| ErrorObj (message : string)
| NonError (v : jsval).

Inductive Outcome (A : Type) : Type :=
| Return (a : A)
| Throw (e : Thrown).
Arguments Return {A} a.
Arguments Throw {A} e.

Definition bind {A B} (m : Outcome A) (k : A -> Outcome B) : Outcome B :=
  match m with
  | Return a => k a
  | Throw e => Throw e
  end.

(** [error instanceof Error ? error.message : 'Unknown error'] *)
Definition message_of (e : Thrown) : string :=
  match e with
  | ErrorObj m => m
  | NonError _ => "Unknown error"
  end.

(** ToBoolean. *)
Definition truthy (v : jsval) : bool :=
  match v with
  | JUndefined | JNull => false
  | JBool b => b
  | JNum n => negb (n =? 0)
  | JStr s => negb (String.eqb s EmptyString)
  | JArr _ | JObj _ => true
  end.

(** [JSON.parse] keeps the last of several equal keys. *)
Fixpoint lookup_field (k : string) (fields : list (string * jsval)) : option jsval :=
  match fields with
  | [] => None
  | (k', v) :: rest =>
      match lookup_field k rest with
      | Some v' => Some v'
      | None => if String.eqb k k' then Some v else None
      end
  end.

(** [Array.isArray] *)
Definition isArray (v : jsval) : bool :=
  match v with JArr _ => true | _ => false end.

(** [a === b] where [b] is a number. *)
Definition strict_eq_num (a : jsval) (n : Z) : bool :=
  match a with JNum m => m =? n | _ => false end.

(** [a === b] where [b] is a string (the keys of a [Map] of handlers). *)
Definition strict_eq_str (a : jsval) (s : string) : bool :=
  match a with JStr t => String.eqb t s | _ => false end.

End Js.
Export Js.

Notation "'let?' x ':=' m 'in' k" := (Js.bind m (fun x => k))
  (at level 10, x name, m at level 100, k at level 200).

(** ** Text: decimal digits, padding, splitting; BigInt conversions *)

Module Text.

Definition chars (s : string) : list ascii := list_ascii_of_string s.
Definition text (cs : list ascii) : string := string_of_list_ascii cs.

Definition zero_char : ascii := "0"%char.

Definition digit_char (d : N) : ascii := ascii_of_N (48 + d).

Definition digit_val (c : ascii) : option N :=
  let n := N_of_ascii c in
  if ((48 <=? n) && (n <=? 57))%N then Some (n - 48)%N else None.

(** Most significant digit first, built from the least significant one. *)
Fixpoint digits_acc (fuel : nat) (n : N) (acc : list ascii) : list ascii :=
  match fuel with
  | O => acc
  | S fuel' =>
      let acc' := digit_char (n mod 10) :: acc in
      if (n <? 10)%N then acc' else digits_acc fuel' (n / 10) acc'
  end.

(** The decimal numeral of a natural number, without leading zeros. *)
Definition digits (n : N) : list ascii :=
  digits_acc (S (N.to_nat (N.log2 n))) n [].

(** [BigInt.prototype.toString()] *)
Definition toString (z : Z) : string :=
  if z <? 0 then text ("-"%char :: digits (Z.abs_N z))
  else text (digits (Z.abs_N z)).

(** Reads a run of digits in the given radix (2, 8, 10 or 16). *)
Definition radix_val (radix : N) (c : ascii) : option N :=
  let n := N_of_ascii c in
  let v :=
    if ((48 <=? n) && (n <=? 57))%N then Some (n - 48)%N
    else if ((97 <=? n) && (n <=? 102))%N then Some (n - 87)%N
    else if ((65 <=? n) && (n <=? 70))%N then Some (n - 55)%N
    else None in
  match v with
  | Some d => if (d <? radix)%N then Some d else None
  | None => None
  end.

Fixpoint parse_radix (radix : N) (acc : N) (cs : list ascii) : option N :=
  match cs with
  | [] => Some acc
  | c :: rest =>
      match radix_val radix c with
      | Some d => parse_radix radix (radix * acc + d) rest
      | None => None
      end
  end.

Definition parse_digits (cs : list ascii) : option N :=
  match cs with
  | [] => None
  | _ => parse_radix 10 0 cs
  end.

(** StrWhiteSpaceChar, for the code points below 128. *)
Definition is_space (c : ascii) : bool :=
  let n := N_of_ascii c in
  ((n =? 9) || (n =? 10) || (n =? 11) || (n =? 12) || (n =? 13) || (n =? 32))%N.

Fixpoint trimStart (cs : list ascii) : list ascii :=
  match cs with
  | c :: rest => if is_space c then trimStart rest else cs
  | [] => []
  end.

Definition trim (cs : list ascii) : list ascii :=
  rev (trimStart (rev (trimStart cs))).

(** [String.prototype.padStart(n, '0')], [padEnd(n, '0')]. *)
Definition padStart (n : Z) (fill : ascii) (cs : list ascii) : list ascii :=
  replicate (Z.to_nat n - length cs) fill ++ cs.

Definition padEnd (n : Z) (fill : ascii) (cs : list ascii) : list ascii :=
  cs ++ replicate (Z.to_nat n - length cs) fill.

(** [s.slice(0, n)] for [n >= 0]. *)
Definition slice0 (n : Z) (cs : list ascii) : list ascii :=
  take (Z.to_nat n) cs.

(** [s.replace(/0+$/, '')] *)
Fixpoint trimEndZeros (cs : list ascii) : list ascii :=
  match cs with
  | [] => []
  | c :: rest =>
      match trimEndZeros rest with
      | [] => if Ascii.eqb c zero_char then [] else [c]
      | kept => c :: kept
      end
  end.

(** [s.split(sep)] for a one-character separator. *)
Fixpoint split (sep : ascii) (cs : list ascii) : list (list ascii) :=
  match cs with
  | [] => [[]]
  | c :: rest =>
      if Ascii.eqb c sep then [] :: split sep rest
      else match split sep rest with
           | piece :: pieces => (c :: piece) :: pieces
           | [] => [[c]]
           end
  end.

Definition syntax_error (s : string) : Thrown :=
  ErrorObj ("Cannot convert " ++ s ++ " to a BigInt").

(** [BigInt(s)] for a string argument (StringToBigInt): white space is
    trimmed, the empty string is 0n, a decimal numeral may carry a sign,
    a numeral with a radix prefix may not. *)
Definition BigInt (s : string) : Outcome Z :=
  let fail := Throw (syntax_error s) in
  let of_opt (sign : Z) (o : option N) :=
    match o with Some n => Return (sign * Z.of_N n) | None => fail end in
  match trim (chars s) with
  | [] => Return 0
  | "-"%char :: rest => of_opt (-1) (parse_digits rest)
  | "+"%char :: rest => of_opt 1 (parse_digits rest)
  | "0"%char :: p :: rest =>
      let n := N_of_ascii p in
      if ((n =? 120) || (n =? 88))%N then
        match rest with [] => fail | _ => of_opt 1 (parse_radix 16 0 rest) end
      else if ((n =? 111) || (n =? 79))%N then
        match rest with [] => fail | _ => of_opt 1 (parse_radix 8 0 rest) end
      else if ((n =? 98) || (n =? 66))%N then
        match rest with [] => fail | _ => of_opt 1 (parse_radix 2 0 rest) end
      else of_opt 1 (parse_digits ("0"%char :: p :: rest))
  | cs => of_opt 1 (parse_digits cs)
  end.

End Text.

(** ** Property access *)

Module Property.

Definition type_error (base : string) (k : string) : Thrown :=
  ErrorObj ("Cannot read properties of " ++ base ++ " (reading '" ++ k ++ "')").

(** [v.k] for a property name that is not an array index. Primitives
    other than null and undefined have no such own property. *)
Definition get (v : jsval) (k : string) : Outcome jsval :=
  match v with
  | JUndefined => Throw (type_error "undefined" k)
  | JNull => Throw (type_error "null" k)
  | JObj fields => Return (default JUndefined (lookup_field k fields))
  | _ => Return JUndefined
  end.

(** The property name of an array index. *)
Definition index_name (i : nat) : string := Text.toString (Z.of_nat i).

(** [v[i]] for a literal index. *)
Definition at_index (v : jsval) (i : nat) : Outcome jsval :=
  match v with
  | JUndefined => Throw (type_error "undefined" (index_name i))
  | JNull => Throw (type_error "null" (index_name i))
  | JArr items => Return (default JUndefined (items !! i))
  | JObj fields => Return (default JUndefined (lookup_field (index_name i) fields))
  | JStr s =>
      Return (match list_ascii_of_string s !! i with
              | Some c => JStr (String c EmptyString)
              | None => JUndefined
              end)
  | _ => Return JUndefined
  end.

End Property.
Export Property.

(** ** Doubles, as far as [parseFloat] and [>=] need them *)

Module Float64.

(** A binary64 value: not-a-number, an infinity, or the finite value
    [(-1)^neg * m * 2^e]. Zero is any [Fin _ 0 _]. *)
Inductive t : Type :=
| NaN
| Inf (neg : bool)
| Fin (neg : bool) (m : N) (e : Z).

(** The integer nearest to [a / b] (for [b > 0]), ties to even. *)
Definition round_half_even (a b : Z) : Z :=
  let q := a / b in
  let r := a mod b in
  if 2 * r <? b then q
  else if b <? 2 * r then q + 1
  else if Z.even q then q else q + 1.

(** [floor (log2 (a / b))] for positive [a] and [b]. *)
Definition floor_log2_ratio (a b : Z) : Z :=
  let g := Z.log2 a - Z.log2 b in
  let reaches := if 0 <=? g then b * 2 ^ g <=? a else b <=? a * 2 ^ (- g) in
  if reaches then g else g - 1.

(** The Number value for the rational [a / b] ([a >= 0], [b > 0]):
    round to nearest with a 53-bit significand, ties to even, gradual
    underflow below [2^-1022], overflow to an infinity. *)
Definition of_ratio (neg : bool) (a b : Z) : t :=
  if a =? 0 then Fin neg 0 0
  else
    let e := Z.max (floor_log2_ratio a b - 52) (-1074) in
    let m := if 0 <=? e then round_half_even a (b * 2 ^ e)
             else round_half_even (a * 2 ^ (- e)) b in
    if (971 <? e) || ((e =? 971) && (2 ^ 53 <=? m)) then Inf neg
    else Fin neg (Z.to_N m) e.

Definition signed (neg : bool) (m : N) : Z :=
  if neg then - Z.of_N m else Z.of_N m.

(** [x >= y] on Numbers: false as soon as one side is NaN. *)
Definition ge (x y : t) : bool :=
  match x, y with
  | NaN, _ | _, NaN => false
  | Inf false, _ => true
  | Inf true, Inf true => true
  | Inf true, _ => false
  | Fin _ _ _, Inf neg => neg
  | Fin n1 m1 e1, Fin n2 m2 e2 =>
      let k := Z.min e1 e2 in
      signed n2 m2 * 2 ^ (e2 - k) <=? signed n1 m1 * 2 ^ (e1 - k)
  end.

(** A scanned StrDecimalLiteral: sign, then either [Infinity] or the
    digits of the significand and a decimal exponent. *)
Inductive literal : Type :=
| LitInfinity (neg : bool)
| LitDecimal (neg : bool) (significand : N) (exponent : Z).

Fixpoint take_digits (cs : list ascii) : list ascii * list ascii :=
  match cs with
  | c :: rest =>
      match Text.digit_val c with
      | Some _ => let '(ds, tl) := take_digits rest in (c :: ds, tl)
      | None => ([], cs)
      end
  | [] => ([], [])
  end.

Definition value_of_digits (ds : list ascii) : N :=
  default 0%N (Text.parse_radix 10 0 ds).

Definition is_prefix (p cs : list ascii) : bool :=
  bool_decide (take (length p) cs = p).

(** ExponentPart, when one follows: [e] or [E], an optional sign and at
    least one digit; otherwise the exponent is 0. *)
Definition scan_exponent (cs : list ascii) : Z :=
  match cs with
  | c :: rest =>
      if (Ascii.eqb c "e" || Ascii.eqb c "E")%char then
        let '(neg, rest') :=
          match rest with
          | "-"%char :: r => (true, r)
          | "+"%char :: r => (false, r)
          | _ => (false, rest)
          end in
        match fst (take_digits rest') with
        | [] => 0
        | ds => if neg then - Z.of_N (value_of_digits ds)
                else Z.of_N (value_of_digits ds)
        end
      else 0
  | [] => 0
  end.

(** The longest prefix that is a StrDecimalLiteral, if there is one. *)
Definition scan (cs : list ascii) : option literal :=
  let '(neg, body) :=
    match cs with
    | "-"%char :: r => (true, r)
    | "+"%char :: r => (false, r)
    | _ => (false, cs)
    end in
  if is_prefix (Text.chars "Infinity") body then Some (LitInfinity neg)
  else
    let '(int_ds, after_int) := take_digits body in
    let '(frac_ds, after_frac) :=
      match after_int with
      | "."%char :: r => take_digits r
      | _ => ([], after_int)
      end in
    match (int_ds ++ frac_ds)%list with
    | [] => None
    | ds =>
        Some (LitDecimal neg (value_of_digits ds)
                (scan_exponent after_frac - Z.of_nat (length frac_ds)))
    end.

(** The mathematical value of a literal, rounded to a Number. *)
Definition of_literal (l : literal) : t :=
  match l with
  | LitInfinity neg => Inf neg
  | LitDecimal neg m k =>
      if 0 <=? k then of_ratio neg (Z.of_N m * 10 ^ k) 1
      else of_ratio neg (Z.of_N m) (10 ^ (- k))
  end.

(** [parseFloat(s)] *)
Definition parseFloat (s : string) : t :=
  match scan (Text.trimStart (Text.chars s)) with
  | Some l => of_literal l
  | None => NaN
  end.

End Float64.

(** ** JSON.stringify *)

Module JSON.

Definition hex_digit (n : N) : ascii :=
  if (n <? 10)%N then ascii_of_N (48 + n) else ascii_of_N (87 + n).

Definition dquote : ascii := ascii_of_N 34.
Definition backslash : ascii := ascii_of_N 92.

(** QuoteJSONString, one code unit at a time. *)
Definition escape (c : ascii) : list ascii :=
  let n := N_of_ascii c in
  if (n =? 34)%N then [backslash; dquote]
  else if (n =? 92)%N then [backslash; backslash]
  else if (n =? 8)%N then [backslash; "b"%char]
  else if (n =? 9)%N then [backslash; "t"%char]
  else if (n =? 10)%N then [backslash; "n"%char]
  else if (n =? 12)%N then [backslash; "f"%char]
  else if (n =? 13)%N then [backslash; "r"%char]
  else if (n <? 32)%N then
    [backslash; "u"%char; "0"%char; "0"%char; hex_digit (n / 16); hex_digit (n mod 16)]
  else [c].

Definition quote (s : string) : string :=
  Text.text ((dquote :: concat (map escape (Text.chars s))) ++ [dquote])%list.

Definition join (sep : string) (parts : list string) : string :=
  match parts with
  | [] => EmptyString
  | p :: ps => fold_left (fun acc q => acc ++ sep ++ q) ps p
  end.

Definition is_undefined (v : jsval) : bool :=
  match v with JUndefined => true | _ => false end.

(** [JSON.stringify(v)]: an undefined array element prints as [null], an
    undefined property is left out. Numbers are integers and print in
    plain decimal. *)
Fixpoint stringify (v : jsval) : string :=
  match v with
  | JUndefined => "undefined"
  | JNull => "null"
  | JBool true => "true"
  | JBool false => "false"
  | JNum n => Text.toString n
  | JStr s => quote s
  | JArr items =>
      let fix elements (l : list jsval) : list string :=
        match l with
        | [] => []
        | x :: rest =>
            (if is_undefined x then "null" else stringify x) :: elements rest
        end in
      "[" ++ join "," (elements items) ++ "]"
  | JObj fields =>
      let fix members (l : list (string * jsval)) : list string :=
        match l with
        | [] => []
        | (k, x) :: rest =>
            if is_undefined x then members rest
            else (quote k ++ ":" ++ stringify x) :: members rest
        end in
      "{" ++ join "," (members fields) ++ "}"
  end.

End JSON.

(** ** The shared world: browser objects and the fields of the singletons *)

Inductive ReadyState : Type := CONNECTING | OPEN | CLOSING | CLOSED.

#[global] Instance ReadyState_eq_dec : EqDecision ReadyState.
Proof. solve_decision. Defined.

(** A WebSocket object. [script] is the environment's part: the ready
    state the socket is found in after each successive [send] (it keeps its
    state once the script is used up). *)
Record Socket : Type := {
  readyState : ReadyState;
  script : list ReadyState;
}.

(** The closures the managers register with [WebSocketManager.on], by the
    place that creates them and the variables they capture. *)
Inductive Handler : Type :=
| OneShot (messageType : string) (promise : nat)
| BalanceResponse (requestId : Z) (promise : nat)
| BalanceUpdate (callback : nat).

#[global] Instance Handler_eq_dec : EqDecision Handler.
Proof. solve_decision. Defined.

Record BalanceEntry : Type := {
  amount : jsval;
  timestamp : Z;
}.

Record World : Type := {
  clock : Z;  (* [Date.now()] *)
  sockets : list Socket;  (* every WebSocket created so far; its position is its identity *)
  upcoming : list (option (list ReadyState));  (* what the next calls of [new WebSocket] yield: a script, or [None] when the constructor throws *)
  wire : list string;  (* frames handed to [ws.send], oldest first *)
  timers : gmap nat Z;  (* pending [setTimeout] timers of the transport, with their delays *)
  storage : gmap string jsval;  (* [chrome.storage.local] *)
  entropy : list string;  (* results of [generatePrivateKey] still to come *)
  settled : gmap nat jsval;  (* promises resolved so far, with their values *)
  nextId : nat;  (* the identity of the next closure, promise or timer *)
  ws : option nat;  (* WebSocketManager: [this.ws] *)
  reconnectAttempts : Z;  (* WebSocketManager *)
  messageQueue : list string;  (* WebSocketManager *)
  messageHandlers : gmap string (list Handler);  (* WebSocketManager: [Map<string, Set<Function>>], sets in insertion order *)
  reconnectTimeout : option nat;  (* WebSocketManager: the timer id *)
  authInProgress : bool;  (* AuthManager *)
  authPromise : option nat;  (* AuthManager *)
  balanceCache : gmap string BalanceEntry;  (* BalanceManager *)
}.

Definition set_clock (v : Z) (w : World) : World :=
  {| clock := v; sockets := sockets w; upcoming := upcoming w; wire := wire w;
     timers := timers w; storage := storage w; entropy := entropy w;
     settled := settled w; nextId := nextId w; ws := ws w;
     reconnectAttempts := reconnectAttempts w; messageQueue := messageQueue w;
     messageHandlers := messageHandlers w;
     reconnectTimeout := reconnectTimeout w;
     authInProgress := authInProgress w; authPromise := authPromise w;
     balanceCache := balanceCache w |}.

Definition set_sockets (v : list Socket) (w : World) : World :=
  {| clock := clock w; sockets := v; upcoming := upcoming w; wire := wire w;
     timers := timers w; storage := storage w; entropy := entropy w;
     settled := settled w; nextId := nextId w; ws := ws w;
     reconnectAttempts := reconnectAttempts w; messageQueue := messageQueue w;
     messageHandlers := messageHandlers w;
     reconnectTimeout := reconnectTimeout w;
     authInProgress := authInProgress w; authPromise := authPromise w;
     balanceCache := balanceCache w |}.

Definition set_upcoming (v : list (option (list ReadyState))) (w : World) : World :=
  {| clock := clock w; sockets := sockets w; upcoming := v; wire := wire w;
     timers := timers w; storage := storage w; entropy := entropy w;
     settled := settled w; nextId := nextId w; ws := ws w;
     reconnectAttempts := reconnectAttempts w; messageQueue := messageQueue w;
     messageHandlers := messageHandlers w;
     reconnectTimeout := reconnectTimeout w;
     authInProgress := authInProgress w; authPromise := authPromise w;
     balanceCache := balanceCache w |}.

Definition set_wire (v : list string) (w : World) : World :=
  {| clock := clock w; sockets := sockets w; upcoming := upcoming w;
     wire := v; timers := timers w; storage := storage w;
     entropy := entropy w; settled := settled w; nextId := nextId w;
     ws := ws w; reconnectAttempts := reconnectAttempts w;
     messageQueue := messageQueue w; messageHandlers := messageHandlers w;
     reconnectTimeout := reconnectTimeout w;
     authInProgress := authInProgress w; authPromise := authPromise w;
     balanceCache := balanceCache w |}.

Definition set_timers (v : gmap nat Z) (w : World) : World :=
  {| clock := clock w; sockets := sockets w; upcoming := upcoming w;
     wire := wire w; timers := v; storage := storage w; entropy := entropy w;
     settled := settled w; nextId := nextId w; ws := ws w;
     reconnectAttempts := reconnectAttempts w; messageQueue := messageQueue w;
     messageHandlers := messageHandlers w;
     reconnectTimeout := reconnectTimeout w;
     authInProgress := authInProgress w; authPromise := authPromise w;
     balanceCache := balanceCache w |}.

Definition set_storage (v : gmap string jsval) (w : World) : World :=
  {| clock := clock w; sockets := sockets w; upcoming := upcoming w;
     wire := wire w; timers := timers w; storage := v; entropy := entropy w;
     settled := settled w; nextId := nextId w; ws := ws w;
     reconnectAttempts := reconnectAttempts w; messageQueue := messageQueue w;
     messageHandlers := messageHandlers w;
     reconnectTimeout := reconnectTimeout w;
     authInProgress := authInProgress w; authPromise := authPromise w;
     balanceCache := balanceCache w |}.

Definition set_entropy (v : list string) (w : World) : World :=
  {| clock := clock w; sockets := sockets w; upcoming := upcoming w;
     wire := wire w; timers := timers w; storage := storage w; entropy := v;
     settled := settled w; nextId := nextId w; ws := ws w;
     reconnectAttempts := reconnectAttempts w; messageQueue := messageQueue w;
     messageHandlers := messageHandlers w;
     reconnectTimeout := reconnectTimeout w;
     authInProgress := authInProgress w; authPromise := authPromise w;
     balanceCache := balanceCache w |}.

Definition set_settled (v : gmap nat jsval) (w : World) : World :=
  {| clock := clock w; sockets := sockets w; upcoming := upcoming w;
     wire := wire w; timers := timers w; storage := storage w;
     entropy := entropy w; settled := v; nextId := nextId w; ws := ws w;
     reconnectAttempts := reconnectAttempts w; messageQueue := messageQueue w;
     messageHandlers := messageHandlers w;
     reconnectTimeout := reconnectTimeout w;
     authInProgress := authInProgress w; authPromise := authPromise w;
     balanceCache := balanceCache w |}.

Definition set_nextId (v : nat) (w : World) : World :=
  {| clock := clock w; sockets := sockets w; upcoming := upcoming w;
     wire := wire w; timers := timers w; storage := storage w;
     entropy := entropy w; settled := settled w; nextId := v; ws := ws w;
     reconnectAttempts := reconnectAttempts w; messageQueue := messageQueue w;
     messageHandlers := messageHandlers w;
     reconnectTimeout := reconnectTimeout w;
     authInProgress := authInProgress w; authPromise := authPromise w;
     balanceCache := balanceCache w |}.

Definition set_ws (v : option nat) (w : World) : World :=
  {| clock := clock w; sockets := sockets w; upcoming := upcoming w;
     wire := wire w; timers := timers w; storage := storage w;
     entropy := entropy w; settled := settled w; nextId := nextId w; ws := v;
     reconnectAttempts := reconnectAttempts w; messageQueue := messageQueue w;
     messageHandlers := messageHandlers w;
     reconnectTimeout := reconnectTimeout w;
     authInProgress := authInProgress w; authPromise := authPromise w;
     balanceCache := balanceCache w |}.

Definition set_reconnectAttempts (v : Z) (w : World) : World :=
  {| clock := clock w; sockets := sockets w; upcoming := upcoming w;
     wire := wire w; timers := timers w; storage := storage w;
     entropy := entropy w; settled := settled w; nextId := nextId w;
     ws := ws w; reconnectAttempts := v; messageQueue := messageQueue w;
     messageHandlers := messageHandlers w;
     reconnectTimeout := reconnectTimeout w;
     authInProgress := authInProgress w; authPromise := authPromise w;
     balanceCache := balanceCache w |}.

Definition set_messageQueue (v : list string) (w : World) : World :=
  {| clock := clock w; sockets := sockets w; upcoming := upcoming w;
     wire := wire w; timers := timers w; storage := storage w;
     entropy := entropy w; settled := settled w; nextId := nextId w;
     ws := ws w; reconnectAttempts := reconnectAttempts w; messageQueue := v;
     messageHandlers := messageHandlers w;
     reconnectTimeout := reconnectTimeout w;
     authInProgress := authInProgress w; authPromise := authPromise w;
     balanceCache := balanceCache w |}.

Definition set_messageHandlers (v : gmap string (list Handler)) (w : World) : World :=
  {| clock := clock w; sockets := sockets w; upcoming := upcoming w;
     wire := wire w; timers := timers w; storage := storage w;
     entropy := entropy w; settled := settled w; nextId := nextId w;
     ws := ws w; reconnectAttempts := reconnectAttempts w;
     messageQueue := messageQueue w; messageHandlers := v;
     reconnectTimeout := reconnectTimeout w;
     authInProgress := authInProgress w; authPromise := authPromise w;
     balanceCache := balanceCache w |}.

Definition set_reconnectTimeout (v : option nat) (w : World) : World :=
  {| clock := clock w; sockets := sockets w; upcoming := upcoming w;
     wire := wire w; timers := timers w; storage := storage w;
     entropy := entropy w; settled := settled w; nextId := nextId w;
     ws := ws w; reconnectAttempts := reconnectAttempts w;
     messageQueue := messageQueue w; messageHandlers := messageHandlers w;
     reconnectTimeout := v; authInProgress := authInProgress w;
     authPromise := authPromise w; balanceCache := balanceCache w |}.

Definition set_authInProgress (v : bool) (w : World) : World :=
  {| clock := clock w; sockets := sockets w; upcoming := upcoming w;
     wire := wire w; timers := timers w; storage := storage w;
     entropy := entropy w; settled := settled w; nextId := nextId w;
     ws := ws w; reconnectAttempts := reconnectAttempts w;
     messageQueue := messageQueue w; messageHandlers := messageHandlers w;
     reconnectTimeout := reconnectTimeout w; authInProgress := v;
     authPromise := authPromise w; balanceCache := balanceCache w |}.

Definition set_authPromise (v : option nat) (w : World) : World :=
  {| clock := clock w; sockets := sockets w; upcoming := upcoming w;
     wire := wire w; timers := timers w; storage := storage w;
     entropy := entropy w; settled := settled w; nextId := nextId w;
     ws := ws w; reconnectAttempts := reconnectAttempts w;
     messageQueue := messageQueue w; messageHandlers := messageHandlers w;
     reconnectTimeout := reconnectTimeout w;
     authInProgress := authInProgress w; authPromise := v;
     balanceCache := balanceCache w |}.

Definition set_balanceCache (v : gmap string BalanceEntry) (w : World) : World :=
  {| clock := clock w; sockets := sockets w; upcoming := upcoming w;
     wire := wire w; timers := timers w; storage := storage w;
     entropy := entropy w; settled := settled w; nextId := nextId w;
     ws := ws w; reconnectAttempts := reconnectAttempts w;
     messageQueue := messageQueue w; messageHandlers := messageHandlers w;
     reconnectTimeout := reconnectTimeout w;
     authInProgress := authInProgress w; authPromise := authPromise w;
     balanceCache := v |}.

(** ** src/lib/websocket.ts: class WebSocketManager *)

Module WebSocketManager.

Definition maxReconnectAttempts : Z := 10.

(** The object [this.ws] refers to, if any. *)
Definition socket (w : World) : option Socket :=
  match ws w with
  | Some i => sockets w !! i
  | None => None
  end.

Definition readyState_is (st : ReadyState) (w : World) : bool :=
  match socket w with
  | Some s => bool_decide (readyState s = st)
  | None => false
  end.

(** [isConnected()]: [this.ws !== null && this.ws.readyState === WebSocket.OPEN] *)
Definition isConnected (w : World) : bool := readyState_is OPEN w.

(** [Math.min(1000 * Math.pow(2, attempt), 30000)] *)
Definition backoff (attempt : Z) : Z := Z.min (1000 * 2 ^ attempt) 30000.

(** [scheduleReconnect()] *)
Definition scheduleReconnect (w : World) : World :=
  if maxReconnectAttempts <=? reconnectAttempts w then w
  else
    let w := set_reconnectAttempts (reconnectAttempts w + 1) w in
    let delay := backoff (reconnectAttempts w) in
    let w :=
      match reconnectTimeout w with
      | Some old => set_timers (delete old (timers w)) w
      | None => w
      end in
    let id := nextId w in
    set_reconnectTimeout (Some id)
      (set_timers (<[id := delay]> (timers w)) (set_nextId (S id) w)).

(** [connect()]. The callbacks of the new socket are bound to this manager,
    see [EventLoop.deliver]; when the constructor throws, the [catch] block
    schedules a reconnection. *)
Definition connect (w : World) : World :=
  if isConnected w then w
  else
    match upcoming w with
    | None :: rest => scheduleReconnect (set_upcoming rest w)
    | Some sc :: rest =>
        set_ws (Some (length (sockets w)))
          (set_sockets (sockets w ++ [{| readyState := CONNECTING; script := sc |}])
             (set_upcoming rest w))
    | [] =>
        set_ws (Some (length (sockets w)))
          (set_sockets (sockets w ++ [{| readyState := CONNECTING; script := [] |}]) w)
    end.

(** [socket.send(frame)] on an open socket: the frame goes out and the
    socket moves on in its script. *)
Definition transmit (i : nat) (frame : string) (w : World) : World :=
  match sockets w !! i with
  | Some s =>
      let s' := match script s with
                | st :: more => {| readyState := st; script := more |}
                | [] => s
                end in
      set_wire (wire w ++ [frame]) (set_sockets (<[i := s']> (sockets w)) w)
  | None => w
  end.

(** [this.ws.send(message)] *)
Definition ws_send (frame : string) (w : World) : World :=
  match ws w with
  | Some i => transmit i frame w
  | None => w
  end.

(** The body of the [while] loop of [flushMessageQueue]: the head of the
    queue is shifted out, and sent if the socket is open. *)
Definition flush_turn (message : string) (rest : list string) (w : World) : World :=
  let w := set_messageQueue rest w in
  if isConnected w then ws_send message w else w.

(** [flushMessageQueue()]: one turn of the loop per unit of fuel, and the
    queue is one message shorter after each, so its length is fuel enough. *)
Fixpoint flush_loop (fuel : nat) (w : World) : World :=
  match fuel with
  | O => w
  | S fuel' =>
      match messageQueue w with
      | [] => w
      | message :: rest => flush_loop fuel' (flush_turn message rest w)
      end
  end.

Definition flushMessageQueue (w : World) : World :=
  flush_loop (length (messageQueue w)) w.

(** [handleOpen()] *)
Definition handleOpen (w : World) : World :=
  flushMessageQueue (set_reconnectAttempts 0 w).

(** [handleClose(event)] *)
Definition handleClose (w : World) : World :=
  scheduleReconnect (set_ws None w).

(** [typeof message === 'string' ? message : JSON.stringify(message)] *)
Definition frame (message : jsval) : string :=
  match message with
  | JStr s => s
  | _ => JSON.stringify message
  end.

(** [send(message)] *)
Definition send (message : jsval) (w : World) : World :=
  let messageStr := frame message in
  if isConnected w then ws_send messageStr w
  else
    let w := set_messageQueue (messageQueue w ++ [messageStr]) w in
    if match socket w with None => true | Some _ => false end
       || readyState_is CLOSED w
    then connect w else w.

(** [on(event, handler)] *)
Definition on (event : string) (handler : Handler) (w : World) : World :=
  let handlers := default [] (messageHandlers w !! event) in
  let handlers' := if bool_decide (handler ∈ handlers) then handlers
                   else (handlers ++ [handler])%list in
  set_messageHandlers (<[event := handlers']> (messageHandlers w)) w.

(** [off(event, handler)] *)
Definition off (event : string) (handler : Handler) (w : World) : World :=
  match messageHandlers w !! event with
  | Some handlers =>
      set_messageHandlers
        (<[event := filter (fun h => h <> handler) handlers]> (messageHandlers w)) w
  | None => w
  end.

(** [disconnect()] *)
Definition disconnect (w : World) : World :=
  let w :=
    match reconnectTimeout w with
    | Some id => set_reconnectTimeout None (set_timers (delete id (timers w)) w)
    | None => w
    end in
  let w :=
    match ws w with
    | Some i =>
        match sockets w !! i with
        | Some s =>
            let st := match readyState s with CLOSED => CLOSED | _ => CLOSING end in
            set_ws None
              (set_sockets (<[i := {| readyState := st; script := script s |}]> (sockets w)) w)
        | None => set_ws None w
        end
    | None => w
    end in
  set_messageQueue [] (set_reconnectAttempts 0 w).

(** [getMessageType(message)] *)
Definition getMessageType (message : jsval) : Outcome jsval :=
  let? res := get message "res" in
  let? method := (if truthy res && isArray res then at_index res 1
                  else Return JUndefined) in
  if truthy res && isArray res && truthy method then Return method
  else
    let? type := get message "type" in
    if truthy type then Return type else Return (JStr "unknown").

(** [this.messageHandlers.get(key)] for a key of any type: only a string
    can equal a registered key. *)
Definition handlers_for (key : jsval) (w : World) : list Handler :=
  match key with
  | JStr k => default [] (messageHandlers w !! k)
  | _ => []
  end.

(** [handlers.forEach(handler => { try { handler(message) } catch ... })]
    over the set found under [key]: a handler that was deleted from the set
    before its turn is skipped. [invoke] runs a closure; what it throws is
    caught and logged here, so it only returns the world it leaves. *)
Fixpoint forEach (invoke : Handler -> jsval -> World -> World)
    (key : jsval) (handlers : list Handler) (message : jsval) (w : World) : World :=
  match handlers with
  | [] => w
  | handler :: rest =>
      let w := if bool_decide (handler ∈ handlers_for key w)
               then invoke handler message w else w in
      forEach invoke key rest message w
  end.

(** [handleMessage(event)]; [data] is [JSON.parse(event.data)], or [None]
    when it throws. *)
Definition handleMessage (invoke : Handler -> jsval -> World -> World)
    (data : option jsval) (w : World) : World :=
  match data with
  | None => w
  | Some message =>
      match getMessageType message with
      | Throw _ => w
      | Return messageType =>
          let w := forEach invoke messageType (handlers_for messageType w) message w in
          forEach invoke (JStr "message") (handlers_for (JStr "message") w) message w
      end
  end.

(** [getState()]. A ready state is one of the four constants, so the
    [default] branch of the [switch] is never taken. *)
Definition getState (w : World) : string :=
  match socket w with
  | None => "DISCONNECTED"
  | Some s =>
      match readyState s with
      | CONNECTING => "CONNECTING"
      | OPEN => "CONNECTED"
      | CLOSING => "CLOSING"
      | CLOSED => "DISCONNECTED"
      end
  end.

End WebSocketManager.

(** ** The closures registered as message handlers *)

Module Closures.

(** [resolve(value)]: settles the promise unless it is settled already. *)
Definition resolve (p : nat) (value : jsval) (w : World) : World :=
  match settled w !! p with
  | Some _ => w
  | None => set_settled (<[p := value]> (settled w)) w
  end.

(** [message.res && message.res[0] === requestId] *)
Definition answers (requestId : Z) (message : jsval) : Outcome bool :=
  let? res := get message "res" in
  if truthy res then
    let? id := at_index res 0 in Return (strict_eq_num id requestId)
  else Return false.

(** [data = message.res?.[2]], then [data && data.asset && data.balance]:
    the asset and the balance of a well-formed push. *)
Definition pushed_balance (message : jsval) : Outcome (option (jsval * jsval)) :=
  let? res := get message "res" in
  let? data := match res with
               | JUndefined | JNull => Return JUndefined
               | _ => at_index res 2
               end in
  if truthy data then
    let? asset := get data "asset" in
    if truthy asset then
      let? balance := get data "balance" in
      if truthy balance then Return (Some (asset, balance)) else Return None
    else Return None
  else Return None.

(** [handler(message)] for each kind of closure:
    - the handler of [AuthManager.waitForMessage] clears its timer,
      unregisters itself and resolves;
    - the handler of [BalanceManager.waitForBalanceResponse] does so when
      the message answers its request, inside its own [try];
    - the listener of [BalanceManager.subscribeToBalanceUpdates] stores the
      pushed balance and calls back (the callbacks only log). A [Map] key
      that is not a string is never found by a lookup with an asset name,
      so such an entry is left out. *)
Definition invoke (handler : Handler) (message : jsval) (w : World) : World :=
  match handler with
  | OneShot messageType p =>
      resolve p message (WebSocketManager.off messageType handler w)
  | BalanceResponse requestId p =>
      match answers requestId message with
      | Return true => resolve p message (WebSocketManager.off "message" handler w)
      | _ => w
      end
  | BalanceUpdate _ =>
      match pushed_balance message with
      | Return (Some (JStr asset, balance)) =>
          set_balanceCache
            (<[asset := {| amount := balance; timestamp := clock w |}]> (balanceCache w)) w
      | _ => w
      end
  end.

End Closures.

(** ** The browser's event loop *)

Module EventLoop.

Inductive Occurrence : Type :=
| SocketOpened (sock : nat)
| SocketClosed (sock : nat)
| SocketError (sock : nat)
| SocketMessage (sock : nat) (data : option jsval)
| TimerFired (id : nat).

(** A task with the time at which it runs. *)
Record Event : Type := {
  at_ms : Z;
  what : Occurrence;
}.

Definition set_readyState (i : nat) (st : ReadyState) (w : World) : World :=
  match sockets w !! i with
  | Some s => set_sockets (<[i := {| readyState := st; script := script s |}]> (sockets w)) w
  | None => w
  end.

Definition state_of (i : nat) (w : World) : option ReadyState :=
  readyState <$> sockets w !! i.

(** One task. Every socket the manager created carries the manager's
    callbacks, whether or not [this.ws] still refers to it. *)
Definition deliver (ev : Event) (w : World) : World :=
  let w := set_clock (Z.max (clock w) (at_ms ev)) w in
  match what ev with
  | SocketOpened i =>
      match state_of i w with
      | Some CONNECTING => WebSocketManager.handleOpen (set_readyState i OPEN w)
      | _ => w
      end
  | SocketClosed i =>
      match state_of i w with
      | Some CLOSED | None => w
      | Some _ => WebSocketManager.handleClose (set_readyState i CLOSED w)
      end
  | SocketError _ => w
  | SocketMessage i data =>
      match state_of i w with
      | Some OPEN => WebSocketManager.handleMessage Closures.invoke data w
      | _ => w
      end
  | TimerFired id =>
      match timers w !! id with
      | Some _ => WebSocketManager.connect (set_timers (delete id (timers w)) w)
      | None => w
      end
  end.

(** An asynchronous operation: it runs against the tasks still to come,
    consumes those that run while it is suspended, and returns or throws. *)
Definition Async (A : Type) : Type :=
  list Event -> World -> Outcome A * list Event * World.

Definition ret {A} (a : A) : Async A := fun evs w => (Return a, evs, w).

Definition throw {A} (e : Thrown) : Async A := fun evs w => (Throw e, evs, w).

Definition bind {A B} (m : Async A) (k : A -> Async B) : Async B :=
  fun evs w =>
    match m evs w with
    | (Return a, evs', w') => k a evs' w'
    | (Throw e, evs', w') => (Throw e, evs', w')
    end.

Definition lift {A} (o : Outcome A) : Async A := fun evs w => (o, evs, w).

Definition act (f : World -> World) : Async unit := fun evs w => (Return tt, evs, f w).

Definition read {A} (f : World -> A) : Async A := fun evs w => (Return (f w), evs, w).

(** Runs the tasks stamped before [t]. *)
Fixpoint deliver_until (t : Z) (evs : list Event) (w : World) : list Event * World :=
  match evs with
  | [] => ([], w)
  | ev :: rest =>
      if at_ms ev <? t then deliver_until t rest (deliver ev w) else (evs, w)
  end.

(** Suspends until promise [p] is resolved or the timer set for [deadline]
    fires, whichever comes first; the timer runs before any task stamped at
    or after the deadline, and at the latest when no task is left. *)
Fixpoint until_settled (p : nat) (deadline : Z) (evs : list Event) (w : World)
  : option jsval * list Event * World :=
  match evs with
  | [] => (None, [], set_clock (Z.max (clock w) deadline) w)
  | ev :: rest =>
      if deadline <=? at_ms ev
      then (None, evs, set_clock (Z.max (clock w) deadline) w)
      else
        let w := deliver ev w in
        match settled w !! p with
        | Some value => (Some value, rest, w)
        | None => until_settled p deadline rest w
        end
  end.

End EventLoop.
Export EventLoop.

Notation "'let*' x ':=' m 'in' k" := (EventLoop.bind m (fun x => k))
  (at level 10, x name, m at level 100, k at level 200).

(** ** src/types/index.ts *)

Module Types.

Record Allowance : Type := {
  asset : string;
  amount : string;
}.

Record SessionKey : Type := {
  privateKey : string;
  publicKey : string;
  expiresAt : Z;
  allowances : list Allowance;
}.

Definition allowance_json (a : Allowance) : jsval :=
  JObj [("asset", JStr (asset a)); ("amount", JStr (amount a))].

(** The object [JSON.stringify(sessionKey)] prints. *)
Definition to_json (k : SessionKey) : jsval :=
  JObj [("privateKey", JStr (privateKey k)); ("publicKey", JStr (publicKey k));
        ("expiresAt", JNum (expiresAt k));
        ("allowances", JArr (map allowance_json (allowances k)))].

End Types.

Abbreviation Allowance := Types.Allowance.
Abbreviation SessionKey := Types.SessionKey.
Abbreviation privateKey := Types.privateKey.
Abbreviation publicKey := Types.publicKey.
Abbreviation expiresAt := Types.expiresAt.
Abbreviation allowances := Types.allowances.

(** ** The authentication manager: class AuthManager *)

Module AuthManager.

Record AuthParams : Type := {
  address : string;
  application : string;
  session_key : string;
  params_allowances : list Allowance;
  expires_at : Z;
  scope : string;
}.

(** The functions imported from [@erc7824/nitrolite]. They are not part of
    this repository; a handshake is run against any implementation. The
    builders stamp their messages, so they are given the time. Their
    promises settle before the next task of the event loop runs. *)
Class Nitrolite : Type := {
  Wallet : Type;
  MessageSigner : Type;
  createAuthRequestMessage : AuthParams -> Z -> Outcome string;
  createEIP712AuthMessageSigner : Wallet -> AuthParams -> string -> MessageSigner;
  createAuthVerifyMessageFromChallenge : MessageSigner -> jsval -> Z -> Outcome string;
}.

Record AuthResult : Type := {
  success : bool;
  balance : option jsval;
  error : option string;
}.

(** What a caller of [authenticate] is handed: the result of the handshake
    it ran, or the promise of the handshake already in flight. *)
Inductive Reply : Type :=
| Own (result : AuthResult)
| InFlight (promise : option nat).

(** [checkConnection] of [waitForConnection], rescheduled every 100 ms. With
    the polls [waitForConnection] grants, the time is up before they are:
    the branch for no poll left is there for the recursion only. *)
Fixpoint checkConnection (polls : nat) (startTime timeout : Z) : Async unit :=
  fun evs w =>
    if WebSocketManager.isConnected w then (Return tt, evs, w)
    else if timeout <? clock w - startTime
    then (Throw (ErrorObj "WebSocket connection timeout"), evs, w)
    else
      match polls with
      | O => (Throw (ErrorObj "WebSocket connection timeout"), evs, w)
      | S polls' =>
          let t := clock w + 100 in
          let '(evs, w) := deliver_until t evs w in
          checkConnection polls' startTime timeout evs (set_clock (Z.max (clock w) t) w)
      end.

(** [waitForConnection(timeout)]; the number of polls covers the time out. *)
Definition waitForConnection (timeout : Z) : Async unit :=
  fun evs w => checkConnection (Z.to_nat (timeout / 100) + 2) (clock w) timeout evs w.

(** [waitForMessage(messageType, timeout)] *)
Definition waitForMessage (messageType : string) (timeout : Z) : Async jsval :=
  fun evs w =>
    let p := nextId w in
    let handler := OneShot messageType p in
    let w := WebSocketManager.on messageType handler (set_nextId (S p) w) in
    match until_settled p (clock w + timeout) evs w with
    | (Some message, evs, w) => (Return message, evs, w)
    | (None, evs, w) =>
        (Throw (ErrorObj ("Timeout waiting for " ++ messageType)), evs,
         WebSocketManager.off messageType handler w)
    end.

(** [!response || !response.res || !response.res[2]] *)
Definition lacks_payload (response : jsval) : Outcome bool :=
  if negb (truthy response) then Return true
  else
    let? res := get response "res" in
    if negb (truthy res) then Return true
    else let? payload := at_index res 2 in Return (negb (truthy payload)).

(** [!response || !response.res] *)
Definition lacks_res (response : jsval) : Outcome bool :=
  if negb (truthy response) then Return true
  else let? res := get response "res" in Return (negb (truthy res)).

(** [this.authInProgress = true; this.authPromise = ...] *)
Definition take_guard (w : World) : World :=
  set_authPromise (Some (nextId w)) (set_authInProgress true (set_nextId (S (nextId w)) w)).

(** [this.authInProgress = false; this.authPromise = null] *)
Definition release_guard (w : World) : World :=
  set_authPromise None (set_authInProgress false w).

Section Handshake.

Context `{sdk : Nitrolite}.

Definition authParams_of (sessionKey : SessionKey) (userAddress : string) : AuthParams :=
  {| address := userAddress;
     application := "YellowPay Extension";
     session_key := publicKey sessionKey;
     params_allowances := allowances sessionKey;
     expires_at := expiresAt sessionKey / 1000;
     scope := "content.payments" |}.

(** Up to and including step 1: make sure the socket is connected, build
    the auth request and send it. *)
Definition sendAuthRequest (authParams : AuthParams) : Async unit :=
  let* connected := read WebSocketManager.isConnected in
  let* _ := (if connected then ret tt
             else let* _ := act WebSocketManager.connect in waitForConnection 5000) in
  let* now := read clock in
  let* authRequestMsg := lift (createAuthRequestMessage authParams now) in
  act (WebSocketManager.send (JStr authRequestMsg)).

(** [challengeResponse.res[2].challenge_message] *)
Definition challenge_message_of (challengeResponse : jsval) : Outcome jsval :=
  let? res := get challengeResponse "res" in
  let? payload := at_index res 2 in
  get payload "challenge_message".

(** Step 2: wait for the challenge and take the challenge message out. *)
Definition receiveChallenge : Async jsval :=
  let* challengeResponse := waitForMessage "auth_challenge" 10000 in
  let* invalid := lift (lacks_payload challengeResponse) in
  if invalid : bool then throw (ErrorObj "Invalid auth_challenge response")
  else lift (challenge_message_of challengeResponse).

(** Step 3: sign the challenge with the main wallet and send the result. *)
Definition sendAuthVerify (walletClient : Wallet) (authParams : AuthParams)
    (challengeMessage : jsval) : Async unit :=
  let signer := createEIP712AuthMessageSigner walletClient authParams "YellowPay Extension" in
  let* now := read clock in
  let* verifyMsg := lift (createAuthVerifyMessageFromChallenge signer challengeMessage now) in
  act (WebSocketManager.send (JStr verifyMsg)).

(** Step 4: wait for the confirmation and read the session data. *)
Definition receiveSuccess : Async AuthResult :=
  let* successResponse := waitForMessage "auth_success" 10000 in
  let* invalid := lift (lacks_res successResponse) in
  if invalid : bool then throw (ErrorObj "Invalid auth_success response")
  else
    lift (let? res := get successResponse "res" in
          let? responseData := at_index res 2 in
          let? _ := get responseData "session_id" in
          let? responseBalance := get responseData "balance" in
          Return {| success := true; balance := Some responseBalance; error := None |}).

(** The body of the [try] block of [_performAuthentication]. *)
Definition handshake (sessionKey : SessionKey) (walletClient : Wallet)
    (userAddress : string) : Async AuthResult :=
  let authParams := authParams_of sessionKey userAddress in
  let* _ := sendAuthRequest authParams in
  let* challengeMessage := receiveChallenge in
  let* _ := sendAuthVerify walletClient authParams challengeMessage in
  receiveSuccess.

(** The [catch] block of [_performAuthentication]. *)
Definition failure (e : Thrown) : AuthResult :=
  {| success := false; balance := None; error := Some (message_of e) |}.

Definition settle (o : Outcome AuthResult) : AuthResult :=
  match o with
  | Return result => result
  | Throw e => failure e
  end.

(** [_performAuthentication]: whatever the body throws becomes a failure
    result. *)
Definition _performAuthentication (sessionKey : SessionKey) (walletClient : Wallet)
    (userAddress : string) (evs : list Event) (w : World)
  : AuthResult * list Event * World :=
  let '(o, evs, w) := handshake sessionKey walletClient userAddress evs w in
  (settle o, evs, w).

(** [authenticate], past its guard: the flag is raised and the promise of
    the handshake recorded, the handshake runs, and the [finally] block
    clears both. *)
Definition runHandshake (sessionKey : SessionKey) (walletClient : Wallet)
    (userAddress : string) (evs : list Event) (w : World)
  : Reply * list Event * World :=
  let '(result, evs, w) :=
    _performAuthentication sessionKey walletClient userAddress evs (take_guard w) in
  (Own result, evs, release_guard w).

(** [authenticate(sessionKey, walletClient, userAddress)] *)
Definition authenticate (sessionKey : SessionKey) (walletClient : Wallet)
    (userAddress : string) (evs : list Event) (w : World)
  : Reply * list Event * World :=
  if authInProgress w then (InFlight (authPromise w), evs, w)
  else runHandshake sessionKey walletClient userAddress evs w.

End Handshake.

(** [isAuthenticated()] *)
Definition isAuthenticated (w : World) : bool :=
  WebSocketManager.isConnected w && negb (authInProgress w).

(** [logout()] *)
Definition logout (w : World) : World :=
  set_authPromise None (set_authInProgress false (WebSocketManager.disconnect w)).

End AuthManager.

(** ** src/config.ts *)

Definition SESSION_KEY_DURATION : Z := 3600000.

(** ** The session key manager: class SessionKeyManager *)

Module SessionKeyManager.

(** The imported functions the manager relies on: [privateKeyToAccount]
    of viem (its [address]), AES of crypto-js under a password, where
    [AES_decrypt] stands for [decrypt(...).toString(CryptoJS.enc.Utf8)],
    and [JSON.parse] read at type [SessionKey] as the source annotates it
    (a text that is not the JSON of a session key is where it throws). *)
Class Vault : Type := {
  address_of : string -> string;
  AES_encrypt : string -> string -> string;
  AES_decrypt : string -> string -> Outcome string;
  JSON_parse : string -> Outcome SessionKey;
}.

Definition default_allowances : list Allowance :=
  [{| Types.asset := "ytest.usd"; Types.amount := "100" |}].

(** [isExpired(sessionKey)]: [Date.now() > sessionKey.expiresAt] *)
Definition isExpired (sessionKey : SessionKey) (w : World) : bool :=
  expiresAt sessionKey <? clock w.

(** [sessionKey.allowances.find(a => a.asset === asset)] *)
Definition find_allowance (asset_name : string) (l : list Allowance) : option Allowance :=
  List.find (fun a => String.eqb (Types.asset a) asset_name) l.

(** [needsRotation(sessionKey, spentAmount, asset)] *)
Definition needsRotation (sessionKey : SessionKey) (spentAmount : string)
    (asset_name : string) (w : World) : bool :=
  if isExpired sessionKey w then true
  else
    match find_allowance asset_name (allowances sessionKey) with
    | Some allowance =>
        let spent := Float64.parseFloat spentAmount in
        let limit := Float64.parseFloat (Types.amount allowance) in
        if Float64.ge spent limit then true else false
    | None => false
    end.

(** [clearFromStorage()] *)
Definition clearFromStorage (w : World) : World :=
  set_storage (delete "sessionKeyExpiry" (delete "encryptedSessionKey" (storage w))) w.

Section WithVault.

Context `{vault : Vault}.

(** [generatePrivateKey()]: the next value of the random source. *)
Definition generatePrivateKey (w : World) : string * World :=
  match entropy w with
  | k :: rest => (k, set_entropy rest w)
  | [] => ("0x", w)
  end.

(** [generateSessionKey(allowances)] *)
Definition generateSessionKey (allowances : list Allowance) (w : World)
  : SessionKey * World :=
  let '(sessionPrivateKey, w) := generatePrivateKey w in
  ({| Types.privateKey := sessionPrivateKey;
      Types.publicKey := address_of sessionPrivateKey;
      Types.expiresAt := clock w + SESSION_KEY_DURATION;
      Types.allowances := allowances |}, w).

(** [saveToStorage(sessionKey, password)]. Encrypting and
    [chrome.storage.local.set] are total here, so the branch that logs and
    rethrows is never taken. *)
Definition saveToStorage (sessionKey : SessionKey) (password : string) (w : World) : World :=
  let encrypted := AES_encrypt (JSON.stringify (Types.to_json sessionKey)) password in
  set_storage
    (<["sessionKeyExpiry" := JNum (expiresAt sessionKey)]>
       (<["encryptedSessionKey" := JStr encrypted]> (storage w))) w.

(** [decrypt(encrypted, password)] followed by [JSON.parse]; a stored value
    that is not a string is nothing the cipher can read. *)
Definition decrypt_key (stored : jsval) (password : string) : Outcome SessionKey :=
  match stored with
  | JStr encrypted =>
      let? decrypted := AES_decrypt encrypted password in JSON_parse decrypted
  | _ => Throw (ErrorObj "Malformed ciphertext")
  end.

(** [loadFromStorage(password)]: [None] is the [null] of the source. *)
Definition loadFromStorage (password : string) (w : World) : option SessionKey * World :=
  let encryptedSessionKey := default JUndefined (storage w !! "encryptedSessionKey") in
  if negb (truthy encryptedSessionKey) then (None, w)
  else
    match decrypt_key encryptedSessionKey password with
    | Return sessionKey =>
        if isExpired sessionKey w then (None, clearFromStorage w)
        else (Some sessionKey, w)
    | Throw _ => (None, w)
    end.

(** [rotateIfNeeded(sessionKey, spentAmount, asset, password)] *)
Definition rotateIfNeeded (sessionKey : option SessionKey) (spentAmount : string)
    (asset_name : string) (password : string) (w : World) : SessionKey * World :=
  let rotate (allowances : list Allowance) :=
    let '(newSessionKey, w) := generateSessionKey allowances w in
    (newSessionKey, saveToStorage newSessionKey password w) in
  match sessionKey with
  | None => rotate default_allowances
  | Some key =>
      if needsRotation key spentAmount asset_name w then rotate (allowances key)
      else (key, w)
  end.

End WithVault.

(** What [validatePassword] returns: [{ valid, message? }]. *)
Record Verdict : Type := {
  valid : bool;
  message : option string;
}.

(** [/[lo-hi]/.test(s)]: some code unit of the string lies in the range. *)
Definition has_in_range (lo hi : ascii) (s : string) : bool :=
  existsb (fun c => (N_of_ascii lo <=? N_of_ascii c)%N && (N_of_ascii c <=? N_of_ascii hi)%N)
    (Text.chars s).

(** [validatePassword(password)] *)
Definition validatePassword (password : string) : Verdict :=
  if (String.length password <? 8)%nat
  then {| valid := false; message := Some "Password must be at least 8 characters" |}
  else
    let hasUpperCase := has_in_range "A" "Z" password in
    let hasLowerCase := has_in_range "a" "z" password in
    let hasNumber := has_in_range "0" "9" password in
    if negb hasUpperCase || negb hasLowerCase || negb hasNumber
    then {| valid := false;
            message := Some "Password must contain uppercase, lowercase, and numbers" |}
    else {| valid := true; message := None |}.

Definition charset : string :=
  "abcdefghijklmnopqrstuvwxyzABCDEFGHIJKLMNOPQRSTUVWXYZ0123456789!@#$%^&*".

(** [charset[k]], as the text [password += charset[k]] appends. *)
Definition charset_at (k : N) : string :=
  match Text.chars charset !! N.to_nat k with
  | Some c => String c EmptyString
  | None => "undefined"
  end.

(** [generatePassword()]. [random] is what [crypto.getRandomValues] writes
    into the 16 elements of the [Uint8Array], which start out as zeros and
    hold bytes. *)
Definition generatePassword (random : list N) : string :=
  let length := 16%nat in
  let array := fun i => (default 0 (random !! i) mod 256)%N in
  fold_left (fun password i =>
               password ++ charset_at (array i mod N.of_nat (String.length charset)))
    (seq 0 length) EmptyString.

(** [getRemainingTime(sessionKey)] *)
Definition getRemainingTime (sessionKey : SessionKey) (w : World) : Z :=
  Z.max 0 (expiresAt sessionKey - clock w).

(** [formatRemainingTime(sessionKey)]. The remaining time is a whole,
    non-negative number of milliseconds, so [Math.floor] of the quotients is
    integer division and [%] is the remainder of it. *)
Definition formatRemainingTime (sessionKey : SessionKey) (w : World) : string :=
  let remaining := getRemainingTime sessionKey w in
  let minutes := remaining / 60000 in
  let seconds := (remaining mod 60000) / 1000 in
  if 0 <? minutes
  then Text.toString minutes ++ "m " ++ Text.toString seconds ++ "s"
  else Text.toString seconds ++ "s".

End SessionKeyManager.

(** ** The balance manager: class BalanceManager *)

Module BalanceManager.

Definition cacheDuration : Z := 30000.

(** [BigInt(10 ** decimals)]. The power is a Number: an integer that is
    exact up to [10 ** 22] and the nearest double beyond, a fraction for a
    negative exponent, which [BigInt] rejects. *)
Definition BigInt_of_number (x : Float64.t) : Outcome Z :=
  let fail := Throw (ErrorObj "The number cannot be converted to a BigInt because it is not an integer") in
  match x with
  | Float64.Fin neg m e =>
      if 0 <=? e then Return (Float64.signed neg m * 2 ^ e)
      else if Z.of_N m mod 2 ^ (- e) =? 0
           then Return (Float64.signed neg m / 2 ^ (- e))
           else fail
  | _ => fail
  end.

Definition pow10 (decimals : Z) : Float64.t :=
  if 0 <=? decimals then Float64.of_ratio false (10 ^ decimals) 1
  else Float64.of_ratio false 1 (10 ^ (- decimals)).

(** BigInt [/] and [%]: truncated division; a zero divisor throws. *)
Definition bigint_div (a b : Z) : Outcome Z :=
  if b =? 0 then Throw (ErrorObj "Division by zero") else Return (Z.quot a b).

Definition bigint_rem (a b : Z) : Outcome Z :=
  if b =? 0 then Throw (ErrorObj "Division by zero") else Return (Z.rem a b).

(** The [try] block of [formatBalance]. *)
Definition format_body (amount : string) (decimals : Z) : Outcome string :=
  let? numAmount := Text.BigInt amount in
  let? divisor := BigInt_of_number (pow10 decimals) in
  let? whole := bigint_div numAmount divisor in
  let? remainder := bigint_rem numAmount divisor in
  let remainderStr := Text.padStart decimals "0" (Text.chars (Text.toString remainder)) in
  let trimmed := Text.trimEndZeros remainderStr in
  match trimmed with
  | [] => Return (Text.toString whole)
  | _ => Return (Text.toString whole ++ "." ++ Text.text trimmed)
  end.

(** [formatBalance(amount, decimals)] *)
Definition formatBalance (amount : string) (decimals : Z) : string :=
  match format_body amount decimals with
  | Return s => s
  | Throw _ => "0"
  end.

(** The [try] block of [parseBalance]. *)
Definition parse_body (formatted : string) (decimals : Z) : Outcome string :=
  let pieces := Text.split "." (Text.chars formatted) in
  let whole := default [] (pieces !! 0%nat) in
  let fraction := default [] (pieces !! 1%nat) in
  let paddedFraction := Text.slice0 decimals (Text.padEnd decimals "0" fraction) in
  let? wholeInt := Text.BigInt (Text.text whole) in
  let? scale := BigInt_of_number (pow10 decimals) in
  let? fractionInt := Text.BigInt (Text.text paddedFraction) in
  Return (Text.toString (wholeInt * scale + fractionInt)).

(** [parseBalance(formatted, decimals)] *)
Definition parseBalance (formatted : string) (decimals : Z) : string :=
  match parse_body formatted decimals with
  | Return s => s
  | Throw _ => "0"
  end.

(** [waitForBalanceResponse(requestId, timeout)] *)
Definition waitForBalanceResponse (requestId : Z) (timeout : Z) : Async jsval :=
  fun evs w =>
    let p := nextId w in
    let handler := BalanceResponse requestId p in
    let w := WebSocketManager.on "message" handler (set_nextId (S p) w) in
    match until_settled p (clock w + timeout) evs w with
    | (Some message, evs, w) => (Return message, evs, w)
    | (None, evs, w) =>
        (Throw (ErrorObj "Timeout waiting for balance response"), evs,
         WebSocketManager.off "message" handler w)
    end.

(** [cached && Date.now() - cached.timestamp < this.cacheDuration] *)
Definition fresh_entry (asset : string) (w : World) : option BalanceEntry :=
  match balanceCache w !! asset with
  | Some cached => if clock w - timestamp cached <? cacheDuration then Some cached else None
  | None => None
  end.

(** [{ req: [requestId, 'get_balance', { asset }, Date.now()] }], both
    times read in the same task. *)
Definition balance_request (asset : string) (now : Z) : jsval :=
  JObj [("req", JArr [JNum now; JStr "get_balance"; JObj [("asset", JStr asset)]; JNum now])].

(** The [try] block of [getUnifiedBalance]: the pull path. *)
Definition pull (asset : string) : Async jsval :=
  let* requestId := read clock in
  let request := balance_request asset requestId in
  let* _ := act (WebSocketManager.send request) in
  let* response := waitForBalanceResponse requestId 10000 in
  let* invalid := lift (AuthManager.lacks_payload response) in
  if invalid : bool then throw (ErrorObj "Invalid balance response")
  else
    let* reported := lift (let? res := get response "res" in
                           let? payload := at_index res 2 in
                           get payload "balance") in
    let balance := if truthy reported then reported else JStr "0" in
    let* now := read clock in
    let* _ := act (fun w => set_balanceCache
                              (<[asset := {| amount := balance; timestamp := now |}]>
                                 (balanceCache w)) w) in
    ret balance.

(** The [catch] block: the cached value if there is one, otherwise '0'. *)
Definition fallback (asset : string) (w : World) : jsval :=
  match balanceCache w !! asset with
  | Some cached => amount cached
  | None => JStr "0"
  end.

(** [getUnifiedBalance(asset, forceRefresh)] *)
Definition getUnifiedBalance (asset : string) (forceRefresh : bool)
    (evs : list Event) (w : World) : jsval * list Event * World :=
  match (if forceRefresh then None else fresh_entry asset w) with
  | Some cached => (amount cached, evs, w)
  | None =>
      match pull asset evs w with
      | (Return balance, evs, w) => (balance, evs, w)
      | (Throw _, evs, w) => (fallback asset w, evs, w)
      end
  end.

(** [subscribeToBalanceUpdates(callback)] *)
Definition subscribeToBalanceUpdates (w : World) : World :=
  let id := nextId w in
  WebSocketManager.on "balance_update" (BalanceUpdate id) (set_nextId (S id) w).

(** [{ req: [requestId, 'get_channel_balance', { channel_id }, Date.now()] }] *)
Definition channel_request (channelId : string) (now : Z) : jsval :=
  JObj [("req", JArr [JNum now; JStr "get_channel_balance";
                      JObj [("channel_id", JStr channelId)]; JNum now])].

(** The [try] block of [getChannelBalance]. *)
Definition pull_channel (channelId : string) : Async jsval :=
  let* requestId := read clock in
  let request := channel_request channelId requestId in
  let* _ := act (WebSocketManager.send request) in
  let* response := waitForBalanceResponse requestId 10000 in
  let* invalid := lift (AuthManager.lacks_payload response) in
  if invalid : bool then throw (ErrorObj "Invalid channel balance response")
  else
    let* reported := lift (let? res := get response "res" in
                           let? payload := at_index res 2 in
                           get payload "balance") in
    ret (if truthy reported then reported else JStr "0").

(** [getChannelBalance(channelId)] *)
Definition getChannelBalance (channelId : string)
    (evs : list Event) (w : World) : jsval * list Event * World :=
  match pull_channel channelId evs w with
  | (Return balance, evs, w) => (balance, evs, w)
  | (Throw _, evs, w) => (JStr "0", evs, w)
  end.

(** [clearCache()] *)
Definition clearCache (w : World) : World := set_balanceCache ∅ w.

(** [getCachedBalance(asset)]: [None] is the [null] of the source. *)
Definition getCachedBalance (asset : string) (w : World) : option jsval :=
  match fresh_entry asset w with
  | Some cached => Some (amount cached)
  | None => None
  end.

End BalanceManager.

(** ** The singletons as they are once constructed *)

(** Nothing connected, nothing queued, no handshake in flight, an empty
    cache, and the one listener the constructor of the balance manager
    registers through [setupBalanceUpdateListener]. *)
Definition startup (now : Z) (plan : list (option (list ReadyState)))
    (random : list string) (stored : gmap string jsval) : World :=
  BalanceManager.subscribeToBalanceUpdates
    {| clock := now; sockets := []; upcoming := plan; wire := []; timers := ∅;
       storage := stored; entropy := random; settled := ∅; nextId := 0;
       ws := None; reconnectAttempts := 0; messageQueue := [];
       messageHandlers := ∅; reconnectTimeout := None;
       authInProgress := false; authPromise := None; balanceCache := ∅ |}.

(** ** The popup: relative times *)

Module Popup.

(** [formatRelativeTime(timestamp)]. Timestamps are whole milliseconds as
    [Date.now()] gives them, so [Math.floor] of each quotient is integer
    division rounding down, also when the difference is negative. *)
Definition formatRelativeTime (timestamp : Z) (w : World) : string :=
  let now := clock w in
  let diff := now - timestamp in
  let seconds := diff / 1000 in
  let minutes := seconds / 60 in
  let hours := minutes / 60 in
  let days := hours / 24 in
  if 0 <? days then Text.toString days ++ "d ago"
  else if 0 <? hours then Text.toString hours ++ "h ago"
  else if 0 <? minutes then Text.toString minutes ++ "m ago"
  else "Just now".

End Popup.

(** ** The content script: metadata of a paywalled element *)

Module Content.

(** An element, as far as [getAttribute] sees it: its attributes. *)
Definition Element : Type := gmap string string.

(** [element.getAttribute(name)]: [None] is the [null] of an absent attribute. *)
Definition getAttribute (element : Element) (name : string) : option string :=
  element !! name.

Record Metadata : Type := {
  contentId : string;
  creatorAddress : string;
  price : Float64.t;
  asset : string;
  title : string;
  domain : string;
}.

(** [!a] for [a: string | null]. *)
Definition falsy (a : option string) : bool :=
  match a with
  | Some s => String.eqb s EmptyString
  | None => true
  end.

(** [a || fallback] for [a: string | null]. *)
Definition or_else (a : option string) (fallback : string) : string :=
  match a with
  | Some s => if String.eqb s EmptyString then fallback else s
  | None => fallback
  end.

(** The class [[a-fA-F0-9]]. *)
Definition is_hex (c : ascii) : bool :=
  let n := N_of_ascii c in
  (((97 <=? n) && (n <=? 102)) || ((65 <=? n) && (n <=? 70)) ||
   ((48 <=? n) && (n <=? 57)))%N.

(** [/^0x[a-fA-F0-9]{40}$/.test(s)] *)
Definition address_format (s : string) : bool :=
  match Text.chars s with
  | "0"%char :: "x"%char :: rest => (length rest =? 40)%nat && forallb is_hex rest
  | _ => false
  end.

(** [isNaN(x)] *)
Definition isNaN (x : Float64.t) : bool :=
  match x with Float64.NaN => true | _ => false end.

(** [x <= 0] *)
Definition le_zero (x : Float64.t) : bool := Float64.ge (Float64.Fin false 0 0) x.

(** [extractMetadata(element)]; [hostname] is [window.location.hostname]. *)
Definition extractMetadata (element : Element) (hostname : string) : option Metadata :=
  let creatorAddress := getAttribute element "data-yellowpay-creator" in
  let priceStr := getAttribute element "data-yellowpay-price" in
  let asset := or_else (getAttribute element "data-yellowpay-asset") "ytest.usd" in
  let contentId := getAttribute element "data-yellowpay-content-id" in
  if falsy creatorAddress || falsy priceStr || falsy contentId then None
  else
    let creatorAddress := default EmptyString creatorAddress in
    let priceStr := default EmptyString priceStr in
    let contentId := default EmptyString contentId in
    if negb (address_format creatorAddress) then None
    else
      let price := Float64.parseFloat priceStr in
      if isNaN price || le_zero price then None
      else
        Some {| contentId := contentId;
                creatorAddress := creatorAddress;
                price := price;
                asset := asset;
                title := or_else (getAttribute element "data-yellowpay-title")
                           "Premium Content";
                domain := hostname |}.

End Content.

(** ** The SDK client holder: class YellowClient *)

Module YellowClient.

(** What the class takes from viem and the Nitrolite SDK. Each constructor
    may throw; the chain, the contract addresses, the chain id and the
    challenge duration are constants of the source and are left out. *)
Class Sdk : Type := {
  Account : Type;
  PublicClient : Type;
  WalletClient : Type;
  StateSigner : Type;
  NitroliteClient : Type;
  privateKeyToAccount : string -> Outcome Account;
  createPublicClient : string -> Outcome PublicClient;
  createWalletClient : string -> Account -> Outcome WalletClient;
  newWalletStateSigner : WalletClient -> Outcome StateSigner;
  newNitroliteClient : PublicClient -> WalletClient -> StateSigner -> Outcome NitroliteClient;
}.

Section WithSdk.

Context `{sdk : Sdk}.

(** The fields of the singleton; [None] is [null] or [undefined]. *)
Record State : Type := {
  nitroliteClient : option NitroliteClient;
  publicClient : option PublicClient;
  walletClient : option WalletClient;
}.

(** The instance [getInstance()] constructs. *)
Definition fresh : State :=
  {| nitroliteClient := None; publicClient := None; walletClient := None |}.

(** [initialize(privateKey, rpcUrl)]: the fields are assigned one after the
    other, and the [catch] rethrows. *)
Definition initialize (privateKey rpcUrl : string) (st : State) : Outcome unit * State :=
  match privateKeyToAccount privateKey with
  | Throw e => (Throw e, st)
  | Return account =>
      match createPublicClient rpcUrl with
      | Throw e => (Throw e, st)
      | Return pc =>
          let st1 := {| nitroliteClient := nitroliteClient st;
                        publicClient := Some pc;
                        walletClient := walletClient st |} in
          match createWalletClient rpcUrl account with
          | Throw e => (Throw e, st1)
          | Return wc =>
              let st2 := {| nitroliteClient := nitroliteClient st1;
                            publicClient := publicClient st1;
                            walletClient := Some wc |} in
              match newWalletStateSigner wc with
              | Throw e => (Throw e, st2)
              | Return signer =>
                  match newNitroliteClient pc wc signer with
                  | Throw e => (Throw e, st2)
                  | Return client =>
                      (Return tt,
                       {| nitroliteClient := Some client;
                          publicClient := publicClient st2;
                          walletClient := walletClient st2 |})
                  end
              end
          end
      end
  end.

Definition not_initialized {A} : Outcome A :=
  Throw (ErrorObj "YellowClient not initialized. Call initialize() first.").

(** [getClient()] *)
Definition getClient (st : State) : Outcome NitroliteClient :=
  match nitroliteClient st with
  | Some client => Return client
  | None => not_initialized
  end.

(** [getPublicClient()] *)
Definition getPublicClient (st : State) : Outcome PublicClient :=
  match publicClient st with
  | Some pc => Return pc
  | None => not_initialized
  end.

(** [getWalletClient()] *)
Definition getWalletClient (st : State) : Outcome WalletClient :=
  match walletClient st with
  | Some wc => Return wc
  | None => not_initialized
  end.

(** [isInitialized()] *)
Definition isInitialized (st : State) : bool :=
  match nitroliteClient st with
  | Some _ => true
  | None => false
  end.

(** The state after a series of [initialize] calls, whatever each one
    answered. *)
Definition after_calls (calls : list (string * string)) (st : State) : State :=
  fold_left (fun st call => (initialize call.1 call.2 st).2) calls st.

End WithSdk.

End YellowClient.

(** ** Vocabulary of the statements, and sample worlds *)

(** A decimal digit character. *)
Definition is_digit (c : ascii) : Prop :=
  exists d, (d < 10)%N /\ c = Text.digit_char d.


(** The task in which socket [i] opens. *)
Definition opened (i : nat) : Event := {| at_ms := 5; what := SocketOpened i |}.



(** Following the words of the specification: two amounts "compared as
    decimal magnitudes", that is exactly, as the rationals their numerals
    denote; [None] when one of them is no decimal numeral. *)
Definition decimal_ge (s t : string) : option bool :=
  match Float64.scan (Text.chars s), Float64.scan (Text.chars t) with
  | Some (Float64.LitDecimal n1 m1 k1), Some (Float64.LitDecimal n2 m2 k2) =>
      let k := Z.min k1 k2 in
      Some (Float64.signed n2 m2 * 10 ^ (k2 - k) <=? Float64.signed n1 m1 * 10 ^ (k1 - k))
  | _, _ => None
  end.

(** A key that allows spending 9007199254740993 units of ytest.usd. *)
Definition large_allowance_key : SessionKey :=
  {| Types.privateKey := "0x01"; Types.publicKey := "0xA1";
     Types.expiresAt := 3600000;
     Types.allowances :=
       [{| Types.asset := "ytest.usd"; Types.amount := "9007199254740993" |}] |}.

(** A key with the default allowance. *)
Definition sample_key : SessionKey :=
  {| Types.privateKey := "0x01"; Types.publicKey := "0xA1";
     Types.expiresAt := 3600000;
     Types.allowances := SessionKeyManager.default_allowances |}.

Definition strip_prefix (p s : string) : option string :=
  let n := String.length p in
  if String.eqb (String.substring 0 n s) p
  then Some (String.substring n (String.length s - n) s) else None.

(** A stand-in for the imported functions, for running examples: the
    cipher text is the password, a bar and the data, deciphering under
    another password fails the way crypto-js fails on bytes that are not
    UTF-8, and the only text [JSON.parse] is asked to read is the JSON of
    [sample_key]. *)
Definition sample_vault : SessionKeyManager.Vault :=
  {| SessionKeyManager.address_of := fun k => "0xA1";
     SessionKeyManager.AES_encrypt := fun data password => password ++ "|" ++ data;
     SessionKeyManager.AES_decrypt := fun encrypted password =>
       match strip_prefix (password ++ "|") encrypted with
       | Some data => Return data
       | None => Throw (ErrorObj "Malformed UTF-8 data")
       end;
     SessionKeyManager.JSON_parse := fun text =>
       if String.eqb text (JSON.stringify (Types.to_json sample_key))
       then Return sample_key
       else Throw (ErrorObj "Unexpected token in JSON") |}.

(** The world after [sample_key] was saved under a password. *)
Definition stored_key_world : World :=
  SessionKeyManager.saveToStorage (vault := sample_vault) sample_key "Passw0rd"
    (startup 0 [] [] ∅).

(** The singletons after two connections in a row were lost. *)
Definition twice_closed_world : World :=
  Nat.iter 2 WebSocketManager.handleClose (startup 0 [] [] ∅).

(** The singletons once the first socket is open; [authenticate] was never
    called. *)
Definition connected_world : World :=
  deliver (opened 0) (WebSocketManager.connect (startup 0 [] [] ∅)).

(** The promise a waiting handler resolves, the callback a listener calls:
    the identity a closure was given when it was created. *)
Definition id_of (h : Handler) : nat :=
  match h with
  | OneShot _ p => p
  | BalanceResponse _ p => p
  | BalanceUpdate c => c
  end.

(** Identities are handed out in increasing order: every registered closure
    and every settled promise was created before the next identity. *)
Definition well_formed (w : World) : Prop :=
  map_Forall (fun _ hs => Forall (fun h => (id_of h < nextId w)%nat) hs) (messageHandlers w) /\
  map_Forall (fun p _ => (p < nextId w)%nat) (settled w).

(** No message of the given type is among the tasks that run before the
    deadline. *)
Definition none_of_type (messageType : string) (deadline : Z) (evs : list Event) : Prop :=
  forall ev i m,
    ev ∈ evs -> at_ms ev < deadline ->
    what ev = SocketMessage i (Some m) ->
    WebSocketManager.getMessageType m <> Return (JStr messageType).

(** No message answering the request is among the tasks that run before
    the deadline. *)
Definition none_answers (requestId : Z) (deadline : Z) (evs : list Event) : Prop :=
  forall ev i m,
    ev ∈ evs -> at_ms ev < deadline ->
    what ev = SocketMessage i (Some m) ->
    Closures.answers requestId m <> Return true.

(** Stand-ins for the SDK, for running examples. The first signs whatever
    challenge it is given. The second refuses a challenge that is not a
    string. *)
Definition signing_sdk : AuthManager.Nitrolite :=
  {| AuthManager.Wallet := unit;
     AuthManager.MessageSigner := unit;
     AuthManager.createAuthRequestMessage := fun params now =>
       Return ("auth_request " ++ AuthManager.address params);
     AuthManager.createEIP712AuthMessageSigner := fun _ _ _ => tt;
     AuthManager.createAuthVerifyMessageFromChallenge := fun _ challenge now =>
       Return ("auth_verify " ++ JSON.stringify challenge) |}.


(** A message on socket 0 at the given time. *)
Definition message_at (t : Z) (m : jsval) : Event :=
  {| at_ms := t; what := SocketMessage 0 (Some m) |}.

(** An [auth_challenge] whose payload is an object without a
    [challenge_message], and the [auth_success] that may follow. *)
Definition empty_challenge : jsval :=
  JObj [("res", JArr [JNum 1; JStr "auth_challenge"; JObj []])].

Definition success_message : jsval :=
  JObj [("res", JArr [JNum 2; JStr "auth_success";
                      JObj [("session_id", JStr "s1"); ("balance", JStr "250")]])].

(** An [auth_challenge] without any payload. *)
Definition bare_challenge : jsval :=
  JObj [("res", JArr [JNum 1; JStr "auth_challenge"])].

(** A balance push, which is no [auth_challenge]. *)
Definition balance_push : jsval :=
  JObj [("res", JArr [JNum 0; JStr "balance_update";
                      JObj [("asset", JStr "usd"); ("balance", JStr "7")]])].

(** What the transport does to the registry of handlers, to the settled
    promises and to the supply of identities: nothing, except that the
    supply moves on. *)
Definition same_registry (w w' : World) : Prop :=
  messageHandlers w' = messageHandlers w /\ settled w' = settled w /\
  (nextId w <= nextId w')%nat.

(** A waiter and the world it waits in: its promise [p] is pending, and the
    only registered closure that carries [p] is the waiter's own handler
    [h0], under the key [key0]. *)
Definition waiting (p : nat) (h0 : Handler) (key0 : string) (w : World) : Prop :=
  settled w !! p = None /\
  forall k hs h, messageHandlers w !! k = Some hs -> h ∈ hs -> id_of h = p ->
                 h = h0 /\ k = key0.

(** A handler that cannot settle [p] on this message: it belongs to
    another waiter, or it is the handler of a request the message does not
    answer. *)
Definition inert (p : nat) (message : jsval) (h : Handler) : Prop :=
  match h with
  | OneShot _ q => q <> p
  | BalanceResponse requestId q =>
      q <> p \/ Closures.answers requestId message <> Return true
  | BalanceUpdate _ => True
  end.

(** A task that cannot settle the waiter's promise: if it is a message, the
    waiter's handler is not among those it is routed to, or is inert on it. *)
Definition quiet (p : nat) (h0 : Handler) (key0 : string) (ev : Event) : Prop :=
  forall i m, what ev = SocketMessage i (Some m) ->
    (WebSocketManager.getMessageType m = Return (JStr key0) -> inert p m h0) /\
    (key0 = "message" -> inert p m h0).

(** A world in which [new WebSocket] throws. *)
Definition unreachable_world : World := startup 0 [None] [] ∅.

(** The answer to request 5 without a payload, and a balance for usd
    cached at time 0. *)
Definition bare_answer : jsval := JObj [("res", JArr [JNum 5; JStr "get_balance"])].

Definition cached_world : World :=
  set_balanceCache {[ "usd" := {| amount := JStr "42"; timestamp := 0 |} ]}
    (set_clock 5 connected_world).

(** An asynchronous operation that keeps the world well formed. *)
Definition keeps_well_formed {A} (m : Async A) : Prop :=
  forall evs w o evs' w', well_formed w -> m evs w = (o, evs', w') -> well_formed w'.

(** ** Vocabulary of the further properties *)

(** The sets of handlers hold no handler twice. *)
Definition no_duplicates (w : World) : Prop :=
  map_Forall (fun _ hs => NoDup hs) (messageHandlers w).

(** A socket that is still open after each of its next [n] sends. *)
Definition steady (n : nat) (s : Socket) : Prop :=
  Forall (fun st => st = OPEN) (take n (script s)).

(** Some registered handler carries identity [p]. *)
Definition carries (p : nat) (w : World) : Prop :=
  exists k h, h ∈ WebSocketManager.handlers_for (JStr k) w /\ id_of h = p.

(** The key a waiting handler registers itself under, and unregisters
    itself from. *)
Definition own_key (h : Handler) : option string :=
  match h with
  | OneShot messageType _ => Some messageType
  | BalanceResponse _ _ => Some "message"
  | BalanceUpdate _ => None
  end.

(** The messages a waiting handler resolves its promise on. *)
Definition accepts (h : Handler) (message : jsval) : Prop :=
  match h with
  | OneShot _ _ => True
  | BalanceResponse requestId _ => Closures.answers requestId message = Return true
  | BalanceUpdate _ => False
  end.

(** The only registered closure that carries [p] is [h0], under [key0]. *)
Definition owned (p : nat) (h0 : Handler) (key0 : string) (w : World) : Prop :=
  forall k hs h, messageHandlers w !! k = Some hs -> h ∈ hs -> id_of h = p ->
                 h = h0 /\ k = key0.

(** The promise of a waiter is pending, or its handler is unregistered. *)
Definition pending_or_gone (p : nat) (h0 : Handler) (key0 : string) (w : World) : Prop :=
  owned p h0 key0 w /\
  (settled w !! p = None \/ h0 ∉ WebSocketManager.handlers_for (JStr key0) w).

(** The promise of a waiter is pending and its handler registered, or the
    promise is resolved with [m]. *)
Definition pending_or_done (p : nat) (h0 : Handler) (key0 : string) (m : jsval)
    (w : World) : Prop :=
  owned p h0 key0 w /\
  ((settled w !! p = None /\ h0 ∈ WebSocketManager.handlers_for (JStr key0) w) \/
   settled w !! p = Some m).

(** What the delivery of a message leaves alone: everything but the clock,
    the registry, the settled promises and the cache. *)
Definition same_transport (w w' : World) : Prop :=
  sockets w' = sockets w /\ upcoming w' = upcoming w /\
  wire w' = wire w /\ timers w' = timers w /\ storage w' = storage w /\
  entropy w' = entropy w /\ nextId w' = nextId w /\ ws w' = ws w /\
  reconnectAttempts w' = reconnectAttempts w /\ messageQueue w' = messageQueue w /\
  reconnectTimeout w' = reconnectTimeout w /\ authInProgress w' = authInProgress w /\
  authPromise w' = authPromise w.

(** A task that is the arrival of a message, or a socket error. *)
Definition is_message (ev : Event) : Prop :=
  match what ev with
  | SocketMessage _ _ | SocketError _ => True
  | _ => False
  end.

(** No handler is registered in [w'] that was not registered in [w]. *)
Definition shrinks (w w' : World) : Prop :=
  forall k h, h ∈ WebSocketManager.handlers_for (JStr k) w' -> h ∈ WebSocketManager.handlers_for (JStr k) w.


(** Two messages sent before the socket is open, on a socket that stays
    open. *)
Definition queued_world : World :=
  WebSocketManager.send (JStr "m2")
    (WebSocketManager.send (JStr "m1") (startup 0 [] [] ∅)).

(** A waiter whose promise is pending and whose handler is registered. *)
Definition listening (p : nat) (h0 : Handler) (key0 : string) (w : World) : Prop :=
  waiting p h0 key0 w /\ h0 ∈ WebSocketManager.handlers_for (JStr key0) w.


(** A balance push with numeric zero as its balance. *)
Definition zero_push : jsval :=
  JObj [("res", JArr [JNum 0; JStr "balance_update";
                      JObj [("asset", JStr "usd"); ("balance", JNum 0)]])].


(** The answer to request 5 with a balance. *)
Definition balance_answer : jsval :=
  JObj [("res", JArr [JNum 5; JStr "get_balance"; JObj [("balance", JStr "42")]])].

(** An [auth_challenge] with its challenge. *)
Definition full_challenge : jsval :=
  JObj [("res", JArr [JNum 1; JStr "auth_challenge";
                      JObj [("challenge_message", JStr "c-1")]])].

(** [res[2]], then its [session_id] and [balance]: the result of a
    confirmed handshake. *)
Definition session_of (res : jsval) : Outcome AuthManager.AuthResult :=
  let? responseData := at_index res 2 in
  let? _ := get responseData "session_id" in
  let? responseBalance := get responseData "balance" in
  Return {| AuthManager.success := true; AuthManager.balance := Some responseBalance;
            AuthManager.error := None |}.


(** An [auth_success] without a payload. *)
Definition bare_success : jsval :=
  JObj [("res", JArr [JNum 2; JStr "auth_success"])].

(** The position in the charset that the [i]-th random byte selects. *)
Definition picked (random : list N) (i : nat) : N :=
  ((default 0 (random !! i) mod 256) mod 70)%N.

(** The character the [i]-th random byte selects. *)
Definition pick_char (random : list N) (i : nat) : ascii :=
  default "a"%char (Text.chars SessionKeyManager.charset !! N.to_nat (picked random i)).

(** The classes of the charset, by position and by character: lower case,
    upper case, digit, other. *)
Definition class_of (k : N) : N :=
  if (k <? 26)%N then 0 else if (k <? 52)%N then 1 else if (k <? 62)%N then 2 else 3.

Definition char_class (c : ascii) : N :=
  let n := N_of_ascii c in
  if ((97 <=? n) && (n <=? 122))%N then 0
  else if ((65 <=? n) && (n <=? 90))%N then 1
  else if ((48 <=? n) && (n <=? 57))%N then 2 else 3.


Definition in_range (lo hi c : ascii) : bool :=
  ((N_of_ascii lo <=? N_of_ascii c)%N && (N_of_ascii c <=? N_of_ascii hi)%N).


(** Whether random byte [b] makes [generatePassword] start with the
    character at position [k] of the charset. *)
Definition selects (b : N) (k : nat) : bool :=
  String.eqb (String.substring 0 1 (SessionKeyManager.generatePassword [b]))
             (SessionKeyManager.charset_at (N.of_nat k)).


(** The transport is in order: the attempt counter is within its bounds;
    at most one reconnection timer is pending, the one [reconnectTimeout]
    names, and its delay is between 2 and 30 seconds; [this.ws] refers to a
    socket that exists; and nothing is queued while the socket is open. *)
Definition transport_ok (w : World) : Prop :=
  0 <= reconnectAttempts w <= WebSocketManager.maxReconnectAttempts /\
  (forall id delay, timers w !! id = Some delay ->
     reconnectTimeout w = Some id /\ 2000 <= delay <= 30000) /\
  (forall i, ws w = Some i -> (i < length (sockets w))%nat) /\
  (WebSocketManager.isConnected w = true -> messageQueue w = []).


(** An operation that keeps an invariant of the world, whatever tasks run
    while it is suspended. *)
Definition keeps (P : World -> Prop) {A} (m : Async A) : Prop :=
  forall evs w, P w -> P (m evs w).2.

(** The invariant of the worlds the extension reaches. *)
Definition in_order (w : World) : Prop :=
  well_formed w /\ no_duplicates w /\ transport_ok w.

Section Steps.
Context `{sdk : AuthManager.Nitrolite} `{vault : SessionKeyManager.Vault}.

(** One step of the extension: a task of the browser, the passing of time,
    or a call of a public method of one of the managers, run to its end
    with the tasks that occur meanwhile. Calls run one after the other. *)
Inductive step : World -> World -> Prop :=
| step_task ev w : step w (deliver ev w)
| step_time t w : clock w <= t -> step w (set_clock t w)
| step_connect w : step w (WebSocketManager.connect w)
| step_send message w : step w (WebSocketManager.send message w)
| step_disconnect w : step w (WebSocketManager.disconnect w)
| step_authenticate sessionKey walletClient userAddress evs w :
    step w (AuthManager.authenticate sessionKey walletClient userAddress evs w).2
| step_logout w : step w (AuthManager.logout w)
| step_getUnifiedBalance asset forceRefresh evs w :
    step w (BalanceManager.getUnifiedBalance asset forceRefresh evs w).2
| step_getChannelBalance channelId evs w :
    step w (BalanceManager.getChannelBalance channelId evs w).2
| step_subscribeToBalanceUpdates w : step w (BalanceManager.subscribeToBalanceUpdates w)
| step_clearCache w : step w (BalanceManager.clearCache w)
| step_generateSessionKey allowances w :
    step w (SessionKeyManager.generateSessionKey allowances w).2
| step_saveToStorage sessionKey password w :
    step w (SessionKeyManager.saveToStorage sessionKey password w)
| step_loadFromStorage password w : step w (SessionKeyManager.loadFromStorage password w).2
| step_rotateIfNeeded sessionKey spentAmount asset password w :
    step w (SessionKeyManager.rotateIfNeeded sessionKey spentAmount asset password w).2
| step_clearFromStorage w : step w (SessionKeyManager.clearFromStorage w).

(** The worlds reached from the start of the extension. *)
Definition reachable (w : World) : Prop :=
  exists now plan random stored, rtc step (startup now plan random stored) w.

End Steps.

(** A Number above zero: a positive finite double or plus infinity. *)
Definition above_zero (x : Float64.t) : Prop :=
  x = Float64.Inf false \/ exists m e, x = Float64.Fin false m e /\ (0 < m)%N.

(** An element with a creator and a content id, whose price attribute is [p]. *)
Definition priced (p : string) : Content.Element :=
  {[ "data-yellowpay-creator" := "0x019B65A265EB3363822f2752141b3dF16131b262";
     "data-yellowpay-price" := p;
     "data-yellowpay-content-id" := "post-1" ]}.

(** A stand-in for viem and the SDK: keys must start with [0x], and no
    Nitrolite client can be built on the endpoint [http://down]. *)
Definition flaky_sdk : YellowClient.Sdk :=
  {| YellowClient.Account := string;
     YellowClient.PublicClient := string;
     YellowClient.WalletClient := string * string;
     YellowClient.StateSigner := unit;
     YellowClient.NitroliteClient := string * string;
     YellowClient.privateKeyToAccount key :=
       if String.prefix "0x" key then Return key
       else Throw (ErrorObj "invalid private key");
     YellowClient.createPublicClient url := Return url;
     YellowClient.createWalletClient url account := Return (url, account);
     YellowClient.newWalletStateSigner _ := Return tt;
     YellowClient.newNitroliteClient pc wc _ :=
       if String.eqb pc "http://down" then Throw (ErrorObj "no transport")
       else Return wc |}.

(** The fields a client holder has together: with a Nitrolite client there
    is a public client and a wallet client. *)
Definition consistent `{sdk : YellowClient.Sdk} (st : YellowClient.State) : Prop :=
  YellowClient.nitroliteClient st <> None ->
  YellowClient.publicClient st <> None /\ YellowClient.walletClient st <> None.

(** An initialized holder after a second [initialize] that failed on the
    endpoint [http://down]. *)
Definition stale_holder : YellowClient.State (sdk := flaky_sdk) :=
  (YellowClient.initialize (sdk := flaky_sdk) "0xb2" "http://down"
     (YellowClient.after_calls (sdk := flaky_sdk) [("0xa1", "http://rpc")]
        YellowClient.fresh)).2.

(** The time after the tasks [evs] have run, starting at [t]. *)
Definition latest (t : Z) (evs : list Event) : Z :=
  foldl (fun t e => Z.max t (at_ms e)) t evs.






(* ===================================================================== *)
(** * Part II: properties *)
(* ===================================================================== *)

(** ** Decimal numerals and string surgery *)

Section TextFacts.
Import Text.

Lemma chars_text cs : chars (text cs) = cs.
Proof. apply list_ascii_of_string_of_list_ascii. Qed.

Lemma text_chars s : text (chars s) = s.
Proof. apply string_of_list_ascii_of_string. Qed.

Lemma chars_app s t : chars (s ++ t) = (chars s ++ chars t)%list.
Proof. induction s as [|c s IH]; simpl; [reflexivity | now rewrite <- IH]. Qed.

Lemma radix_val_digit d : (d < 10)%N -> radix_val 10 (digit_char d) = Some d.
Proof.
  intros H.
  assert (d = 0 \/ d = 1 \/ d = 2 \/ d = 3 \/ d = 4 \/ d = 5 \/ d = 6 \/ d = 7
          \/ d = 8 \/ d = 9)%N as Hd by lia.
  repeat (destruct Hd as [-> | Hd]; [reflexivity |]). now subst.
Qed.

Lemma parse_radix_app r a xs ys :
  parse_radix r a (xs ++ ys) =
  match parse_radix r a xs with Some b => parse_radix r b ys | None => None end.
Proof.
  revert a. induction xs as [|x xs IH]; intros a; simpl; [reflexivity |].
  destruct (radix_val r x); [apply IH | reflexivity].
Qed.

Lemma digits_acc_spec fuel : forall n acc,
  (n < 2 ^ N.of_nat (S fuel))%N ->
  exists ds, digits_acc (S fuel) n acc = (ds ++ acc)%list /\ ds <> [] /\
    Forall is_digit ds /\
    (forall a, parse_radix 10 a ds = Some (a * 10 ^ N.of_nat (length ds) + n)%N) /\
    (forall k, (0 < k)%nat -> (n < 10 ^ N.of_nat k)%N -> (length ds <= k)%nat).
Proof.
  induction fuel as [|fuel IH]; intros n acc Hn;
    cbn [digits_acc];
    assert (Hmod : (n mod 10 < 10)%N) by (apply N.mod_lt; lia);
    (destruct (N.ltb_spec n 10) as [Hlt|Hge];
     [ exists [digit_char (n mod 10)]; repeat split;
       [ discriminate
       | constructor; [|constructor]; exists (n mod 10)%N; auto
       | intros a; cbn [parse_radix]; rewrite radix_val_digit by assumption;
         rewrite N.mod_small by assumption; simpl length; f_equal; lia
       | intros k Hk _; simpl; lia ]
     | ]).
  - simpl in Hn. lia.
  - assert (Hq : (n / 10 < 2 ^ N.of_nat (S fuel))%N).
    { apply N.Div0.div_lt_upper_bound.
      replace (N.of_nat (S (S fuel))) with (N.succ (N.of_nat (S fuel))) in Hn by lia.
      rewrite N.pow_succ_r' in Hn. lia. }
    destruct (IH (n / 10)%N (digit_char (n mod 10) :: acc) Hq)
      as (ds & Heq & Hne & Hall & Hparse & Hlen).
    exists (ds ++ [digit_char (n mod 10)])%list. repeat split.
    + cbn [digits_acc] in Heq. rewrite Heq. now rewrite <- app_assoc.
    + destruct ds; discriminate.
    + apply Forall_app. split; [assumption |].
      constructor; [|constructor]. exists (n mod 10)%N. auto.
    + intros a. rewrite parse_radix_app, Hparse. cbn [parse_radix].
      rewrite radix_val_digit by assumption. f_equal.
      rewrite length_app. simpl length.
      replace (N.of_nat (length ds + 1)) with (N.succ (N.of_nat (length ds))) by lia.
      rewrite N.pow_succ_r'.
      pose proof (N.div_mod n 10). lia.
    + intros k Hk Hnk. rewrite length_app. simpl length.
      destruct k as [|k]; [lia |].
      destruct k as [|k].
      { simpl in Hnk. lia. }
      assert (length ds <= S k)%nat; [| lia].
      apply Hlen; [lia |].
      apply N.Div0.div_lt_upper_bound.
      replace (N.of_nat (S (S k))) with (N.succ (N.of_nat (S k))) in Hnk by lia.
      now rewrite N.pow_succ_r' in Hnk.
Qed.

Lemma digits_spec n :
  digits n <> [] /\ Forall is_digit (digits n) /\
  (forall a, parse_radix 10 a (digits n) = Some (a * 10 ^ N.of_nat (length (digits n)) + n)%N) /\
  (forall k, (0 < k)%nat -> (n < 10 ^ N.of_nat k)%N -> (length (digits n) <= k)%nat).
Proof.
  unfold digits.
  destruct (digits_acc_spec (N.to_nat (N.log2 n)) n []) as (ds & Heq & H).
  - destruct (N.eq_dec n 0%N) as [->|Hz]; [simpl; lia |].
    replace (N.of_nat (S (N.to_nat (N.log2 n)))) with (N.succ (N.log2 n)) by lia.
    apply N.log2_spec. lia.
  - rewrite Heq, app_nil_r. exact H.
Qed.

Lemma is_digit_cases c :
  is_digit c ->
  c = "0"%char \/ c = "1"%char \/ c = "2"%char \/ c = "3"%char \/ c = "4"%char \/
  c = "5"%char \/ c = "6"%char \/ c = "7"%char \/ c = "8"%char \/ c = "9"%char.
Proof.
  intros (d & Hd & ->).
  assert (d = 0 \/ d = 1 \/ d = 2 \/ d = 3 \/ d = 4 \/ d = 5 \/ d = 6 \/ d = 7
          \/ d = 8 \/ d = 9)%N as H by lia.
  repeat (destruct H as [-> | H]; [tauto |]). subst; tauto.
Qed.

Ltac digit_cases H :=
  apply is_digit_cases in H;
  repeat (destruct H as [-> | H]); [..| subst].

Lemma digit_not_space c : is_digit c -> is_space c = false.
Proof. intros H. digit_cases H; reflexivity. Qed.

Lemma digit_not_dot c : is_digit c -> Ascii.eqb c "."%char = false.
Proof. intros H. digit_cases H; reflexivity. Qed.

Lemma trimStart_digits ds : Forall is_digit ds -> trimStart ds = ds.
Proof.
  destruct 1 as [|c ds Hc _]; [reflexivity |].
  simpl. now rewrite digit_not_space.
Qed.

Lemma trim_digits ds : Forall is_digit ds -> trim ds = ds.
Proof.
  intros H. unfold trim. rewrite (trimStart_digits ds H).
  rewrite trimStart_digits; [apply rev_involutive |].
  apply Forall_rev. exact H.
Qed.

Lemma BigInt_digits ds v :
  ds <> [] -> Forall is_digit ds -> parse_radix 10 0 ds = Some v ->
  BigInt (text ds) = Return (Z.of_N v).
Proof.
  intros Hne Hall Hv. unfold BigInt.
  rewrite chars_text, (trim_digits ds Hall).
  destruct ds as [|c tl]; [congruence |].
  assert (Hpd : parse_digits (c :: tl) = Some v) by exact Hv.
  inversion Hall as [|? ? Hc Htl]; subst.
  digit_cases Hc;
    try (rewrite Hpd; f_equal; lia).
  destruct tl as [|p rest]; [rewrite Hpd; f_equal; lia |].
  inversion Htl as [|? ? Hp _]; subst.
  digit_cases Hp; cbv beta iota zeta; simpl N_of_ascii; simpl orb;
    cbv iota; rewrite Hpd; f_equal; lia.
Qed.

Lemma BigInt_toString x : 0 <= x -> BigInt (toString x) = Return x.
Proof.
  intros Hx. unfold toString.
  destruct (Z.ltb_spec x 0) as [|_]; [lia |].
  destruct (digits_spec (Z.abs_N x)) as (Hne & Hall & Hparse & _).
  rewrite (BigInt_digits _ _ Hne Hall (Hparse 0%N)). f_equal. lia.
Qed.

Lemma zero_is_digit : is_digit zero_char.
Proof. exists 0%N. split; [lia | reflexivity]. Qed.

Lemma trimEndZeros_zeros k : trimEndZeros (replicate k zero_char) = [].
Proof. induction k as [|k IH]; simpl; [reflexivity | now rewrite IH]. Qed.

Lemma trimEndZeros_pad cs :
  (trimEndZeros cs ++ replicate (length cs - length (trimEndZeros cs)) zero_char)%list = cs.
Proof.
  induction cs as [|c cs IH]; [reflexivity |].
  cbn [trimEndZeros].
  destruct (trimEndZeros cs) as [|k kept] eqn:E.
  - cbn [length app] in IH. rewrite Nat.sub_0_r in IH.
    destruct (Ascii.eqb_spec c zero_char) as [->|Hc]; cbn [length app Nat.sub].
    + cbn [replicate]. now rewrite IH.
    + rewrite Nat.sub_0_r. now rewrite IH.
  - cbn [length app] in *. cbn [Nat.sub]. f_equal. exact IH.
Qed.

Lemma trimEndZeros_length cs : (length (trimEndZeros cs) <= length cs)%nat.
Proof.
  rewrite <- (trimEndZeros_pad cs) at 2. rewrite length_app. lia.
Qed.

Lemma trimEndZeros_digits cs : Forall is_digit cs -> Forall is_digit (trimEndZeros cs).
Proof.
  intros H. rewrite <- (trimEndZeros_pad cs) in H.
  apply Forall_app in H. tauto.
Qed.

Lemma parse_zeros k a : parse_radix 10 a (replicate k zero_char) = Some (a * 10 ^ N.of_nat k)%N.
Proof.
  revert a. induction k as [|k IH]; intros a.
  - simpl. f_equal. lia.
  - change (parse_radix 10 a (replicate (S k) zero_char))
      with (parse_radix 10 (10 * a + 0) (replicate k zero_char)).
    rewrite IH. f_equal.
    replace (N.of_nat (S k)) with (N.succ (N.of_nat k)) by lia.
    rewrite N.pow_succ_r'. lia.
Qed.

Lemma split_digits ds : Forall is_digit ds -> split "." ds = [ds].
Proof.
  induction 1 as [|c ds Hc _ IH]; [reflexivity |].
  simpl. rewrite (digit_not_dot c Hc), IH. reflexivity.
Qed.

Lemma split_digits_dot ds rest :
  Forall is_digit ds -> split "." (ds ++ "."%char :: rest) = ds :: split "." rest.
Proof.
  induction 1 as [|c ds Hc _ IH]; [reflexivity |].
  simpl. rewrite (digit_not_dot c Hc), IH. reflexivity.
Qed.

End TextFacts.

(** ** formatBalance and parseBalance *)

Section BalanceFormatFacts.
Import Text BalanceManager.

Lemma pow10_exact d : 0 <= d <= 22 -> BigInt_of_number (pow10 d) = Return (10 ^ d).
Proof.
  intros H.
  assert (d = 0 \/ d = 1 \/ d = 2 \/ d = 3 \/ d = 4 \/ d = 5 \/ d = 6 \/ d = 7 \/
          d = 8 \/ d = 9 \/ d = 10 \/ d = 11 \/ d = 12 \/ d = 13 \/ d = 14 \/
          d = 15 \/ d = 16 \/ d = 17 \/ d = 18 \/ d = 19 \/ d = 20 \/ d = 21 \/
          d = 22) as Hd by lia.
  repeat (destruct Hd as [-> | Hd]; [vm_compute; reflexivity |]).
  subst. vm_compute. reflexivity.
Qed.

(** The padded remainder of a division by [10 ^ d]: exactly [d] digits that
    read back as the remainder. *)
Lemma remainder_digits d r :
  0 <= d -> 0 <= r < 10 ^ d ->
  let cs := padStart d zero_char (chars (toString r)) in
  Forall is_digit cs /\
  (0 < d -> length cs = Z.to_nat d) /\
  parse_radix 10 0 cs = Some (Z.to_N r) /\
  (r = 0 -> trimEndZeros cs = []) /\
  (0 < r -> 0 < d /\ trimEndZeros cs <> []).
Proof.
  intros Hd Hr cs. subst cs. unfold toString, padStart.
  destruct (Z.ltb_spec r 0) as [|_]; [lia |].
  rewrite chars_text.
  destruct (digits_spec (Z.abs_N r)) as (Hne & Hall & Hparse & Hlen).
  set (ds := digits (Z.abs_N r)) in *.
  set (k := (Z.to_nat d - length ds)%nat).
  assert (Hzeros : Forall is_digit (replicate k zero_char)).
  { apply Forall_replicate. apply zero_is_digit. }
  assert (Hval : parse_radix 10 0 (replicate k zero_char ++ ds) = Some (Z.to_N r)).
  { rewrite parse_radix_app, parse_zeros, Hparse. f_equal. lia. }
  assert (Hbound : 0 < d -> (length ds <= Z.to_nat d)%nat).
  { intros Hpos. apply Hlen; [lia |].
    apply N2Z.inj_lt. rewrite N2Z.inj_pow. simpl Z.of_N.
    rewrite N2Z.inj_abs_N, Z.abs_eq by lia.
    rewrite nat_N_Z, Z2Nat.id by lia. lia. }
  split; [| split; [| split; [| split]]].
  - apply Forall_app. split; assumption.
  - intros Hpos. rewrite length_app, length_replicate. subst k.
    specialize (Hbound Hpos). lia.
  - exact Hval.
  - intros ->. change ds with [zero_char].
    change (replicate k zero_char ++ [zero_char])%list
      with (replicate k zero_char ++ replicate 1 zero_char)%list.
    rewrite <- replicate_add. apply trimEndZeros_zeros.
  - intros Hpos. split.
    + destruct (Z.eq_dec d 0) as [->|]; [simpl in Hr; lia | lia].
    + intros Hnil.
      pose proof (trimEndZeros_pad (replicate k zero_char ++ ds)) as Hpad.
      rewrite Hnil in Hpad. simpl in Hpad. rewrite <- Hpad in Hval.
      rewrite parse_zeros in Hval. injection Hval as Hval. lia.
Qed.

(** C5. For a non-negative integer [x], printed as its decimal numeral, and
    a number of decimals [d] from 0 to 18, parsing what [formatBalance]
    prints gives the numeral of [x] back; all the arithmetic is on integers. *)
Theorem format_parse_roundtrip x d :
  0 <= x -> 0 <= d <= 18 ->
  parseBalance (formatBalance (toString x) d) d = toString x.
Proof.
  intros Hx Hd.
  assert (Hpow : 0 < 10 ^ d) by (apply Z.pow_pos_nonneg; lia).
  pose proof (Z.div_mod x (10 ^ d) ltac:(lia)) as Hdm.
  pose proof (Z.mod_pos_bound x (10 ^ d) Hpow) as Hrb.
  assert (Hqnn : 0 <= x / 10 ^ d) by (apply Z.div_pos; lia).
  set (q := x / 10 ^ d) in *. set (r := x mod 10 ^ d) in *.
  destruct (remainder_digits d r ltac:(lia) Hrb)
    as (Hall & Hlen & Hval & Hzero & Hpos).
  destruct (digits_spec (Z.abs_N q)) as (Hqne & Hqall & _ & _).
  assert (Hq : toString q = text (digits (Z.abs_N q))).
  { unfold toString. destruct (Z.ltb_spec q 0); [lia | reflexivity]. }
  assert (Hfmt : format_body (toString x) d =
                 match trimEndZeros (padStart d zero_char (chars (toString r))) with
                 | [] => Return (toString q)
                 | _ :: _ =>
                     Return (toString q ++ "." ++
                             text (trimEndZeros (padStart d zero_char (chars (toString r)))))
                 end).
  { unfold format_body. rewrite (BigInt_toString x Hx). cbn [Js.bind].
    rewrite pow10_exact by lia. cbn [Js.bind].
    unfold bigint_div, bigint_rem.
    destruct (Z.eqb_spec (10 ^ d) 0) as [|_]; [lia |]. cbn [Js.bind].
    rewrite Z.quot_div_nonneg, Z.rem_mod_nonneg by lia. reflexivity. }
  unfold formatBalance, parseBalance. rewrite Hfmt.
  set (cs := padStart d zero_char (chars (toString r))) in *.
  destruct (trimEndZeros cs) as [|t0 ts] eqn:Htrim.
  - (* no fractional part *)
    assert (r = 0) as Hr0.
    { destruct (Z.eq_dec r 0) as [|Hne]; [assumption |].
      destruct Hpos as [_ Hpos]; [lia | congruence]. }
    unfold parse_body. rewrite Hq, chars_text, (split_digits _ Hqall).
    cbn [lookup list_lookup default from_option id].
    rewrite <- Hq, (BigInt_toString q Hqnn). cbn [Js.bind].
    rewrite pow10_exact by lia. cbn [Js.bind].
    unfold padEnd, slice0. simpl length. rewrite Nat.sub_0_r. simpl app.
    change "0"%char with zero_char.
    rewrite firstn_all2 by (rewrite length_replicate; lia).
    destruct (Z.to_nat d) as [|n] eqn:Hn.
    + simpl. f_equal. lia.
    + rewrite (BigInt_digits (replicate (S n) zero_char) 0%N).
      * cbn [Js.bind]. f_equal. lia.
      * discriminate.
      * apply Forall_replicate, zero_is_digit.
      * rewrite parse_zeros. reflexivity.
  - (* a fractional part *)
    destruct Hpos as [Hdpos _].
    { destruct (Z.eq_dec r 0) as [Hr0|]; [| lia].
      specialize (Hzero Hr0). congruence. }
    pose proof (trimEndZeros_pad cs) as Hpad. rewrite Htrim in Hpad.
    pose proof (trimEndZeros_digits cs Hall) as Htd. rewrite Htrim in Htd.
    unfold parse_body.
    rewrite Hq, !chars_app, !chars_text. simpl (chars ".").
    change (["."%char] ++ t0 :: ts)%list with ("."%char :: t0 :: ts).
    rewrite (split_digits_dot _ _ Hqall), (split_digits _ Htd).
    cbn [lookup list_lookup default from_option id].
    rewrite <- Hq, (BigInt_toString q Hqnn). cbn [Js.bind].
    rewrite pow10_exact by lia. cbn [Js.bind].
    assert (Hrestore : slice0 d (padEnd d zero_char (t0 :: ts)) = cs).
    { unfold slice0, padEnd. rewrite <- (Hlen Hdpos), Hpad.
      apply firstn_all. }
    change "0"%char with zero_char. rewrite Hrestore.
    rewrite (BigInt_digits cs (Z.to_N r)); [| | exact Hall | exact Hval].
    + cbn [Js.bind]. f_equal. lia.
    + intros Hnil. rewrite Hnil in Htrim. discriminate.
Qed.
End BalanceFormatFacts.

(** A run of C5. *)
Lemma format_parse_roundtrip_witness :
  0 <= 1234567890123456789 /\ 0 <= 18 <= 18 /\
  BalanceManager.parseBalance
    (BalanceManager.formatBalance (Text.toString 1234567890123456789) 18) 18
  = Text.toString 1234567890123456789.
Proof.
  assert (H1 : 0 <= 1234567890123456789) by lia.
  assert (H2 : 0 <= 18 <= 18) by lia.
  split; [exact H1 | split; [exact H2 |]].
  exact (format_parse_roundtrip 1234567890123456789 18 H1 H2).
Defined.
(** ** The transport: backoff, queueing and flushing *)

Section TransportFacts.
Import WebSocketManager.

Lemma backoff_monotone n m : 0 <= n <= m -> backoff n <= backoff m.
Proof.
  intros H. unfold backoff.
  assert (2 ^ n <= 2 ^ m) by (apply Z.pow_le_mono_r; lia). lia.
Qed.

Lemma backoff_capped n : backoff n <= 30000.
Proof. unfold backoff. lia. Qed.

Lemma scheduleReconnect_armed w :
  reconnectAttempts w < maxReconnectAttempts ->
  reconnectAttempts (scheduleReconnect w) = reconnectAttempts w + 1 /\
  reconnectTimeout (scheduleReconnect w) = Some (nextId w) /\
  timers (scheduleReconnect w) !! nextId w = Some (backoff (reconnectAttempts w + 1)).
Proof.
  intros H. unfold scheduleReconnect.
  destruct (Z.leb_spec maxReconnectAttempts (reconnectAttempts w)) as [|_]; [lia |].
  destruct (reconnectTimeout w) eqn:E; cbn; rewrite E; cbn;
    (split; [reflexivity | split; [reflexivity | apply lookup_insert_eq]]).
Qed.

Lemma scheduleReconnect_exhausted w :
  maxReconnectAttempts <= reconnectAttempts w -> scheduleReconnect w = w.
Proof.
  intros H. unfold scheduleReconnect.
  destruct (Z.leb_spec maxReconnectAttempts (reconnectAttempts w)); [reflexivity | lia].
Qed.

(** The delays of the ten attempts. *)
Example backoff_sequence :
  map backoff [1; 2; 3; 4; 5; 6; 7; 8; 9; 10]
  = [2000; 4000; 8000; 16000; 30000; 30000; 30000; 30000; 30000; 30000].
Proof. reflexivity. Qed.

(** C4. At reconnection attempt [n], from 1 to 10, [scheduleReconnect] arms
    a timer whose delay is [min (1000 * 2^n) 30000] ms; the delays never
    decrease from one attempt to the next and never exceed 30000 ms; and
    once the tenth attempt is scheduled a further call schedules nothing:
    there is no eleventh automatic attempt. *)
Theorem reconnect_backoff (w : World) (n : Z) :
  1 <= n <= 10 ->
  reconnectAttempts w = n - 1 ->
  (exists id,
      reconnectAttempts (scheduleReconnect w) = n /\
      reconnectTimeout (scheduleReconnect w) = Some id /\
      timers (scheduleReconnect w) !! id = Some (Z.min (1000 * 2 ^ n) 30000)) /\
  (forall m, n <= m <= 10 ->
      Z.min (1000 * 2 ^ n) 30000 <= Z.min (1000 * 2 ^ m) 30000 <= 30000) /\
  (n = 10 -> scheduleReconnect (scheduleReconnect w) = scheduleReconnect w).
Proof.
  intros Hn Hw.
  destruct (scheduleReconnect_armed w) as (Ha & Ht & Hd).
  { unfold maxReconnectAttempts. lia. }
  split; [| split].
  - exists (nextId w). rewrite Ha, Ht, Hd, Hw. unfold backoff.
    replace (n - 1 + 1) with n by lia. auto.
  - intros m Hm. split; [apply (backoff_monotone n m); lia | apply backoff_capped].
  - intros ->. apply scheduleReconnect_exhausted. rewrite Ha, Hw.
    unfold maxReconnectAttempts. lia.
Qed.

(** Fields the transmission of a frame leaves alone. *)
Lemma ws_send_queue message w : messageQueue (ws_send message w) = messageQueue w.
Proof.
  unfold ws_send, transmit. destruct (ws w) as [i|]; [| reflexivity].
  destruct (sockets w !! i); reflexivity.
Qed.

Lemma ws_send_wire message w :
  isConnected w = true -> wire (ws_send message w) = (wire w ++ [message])%list.
Proof.
  unfold isConnected, readyState_is, socket, ws_send, transmit.
  destruct (ws w) as [i|]; [| discriminate].
  destruct (sockets w !! i); [reflexivity | discriminate].
Qed.

Lemma flush_turn_queue message rest w : messageQueue (flush_turn message rest w) = rest.
Proof.
  unfold flush_turn. destruct (isConnected _); [| reflexivity].
  now rewrite ws_send_queue.
Qed.


Lemma flush_loop_queue j : forall w,
  (j <= length (messageQueue w))%nat ->
  messageQueue (flush_loop j w) = drop j (messageQueue w).
Proof.
  induction j as [|j IH]; intros w Hj; [reflexivity |].
  cbn [flush_loop]. destruct (messageQueue w) as [|m rest] eqn:E; [simpl in Hj; lia |].
  rewrite IH; rewrite flush_turn_queue; [reflexivity | simpl in Hj; lia].
Qed.




(** Scheduling a reconnection and opening a socket leave the queue and the
    wire alone, and never yield an open socket. *)
Lemma scheduleReconnect_untouched w :
  messageQueue (scheduleReconnect w) = messageQueue w /\
  wire (scheduleReconnect w) = wire w /\
  ws (scheduleReconnect w) = ws w /\
  sockets (scheduleReconnect w) = sockets w.
Proof.
  unfold scheduleReconnect. destruct (_ <=? _); [tauto |].
  destruct (reconnectTimeout w) eqn:E; cbn; rewrite E; cbn; tauto.
Qed.





(** A run of C4: the third attempt in a row waits 8000 ms. *)
Lemma reconnect_backoff_witness :
  (1 <= 3 <= 10) /\ reconnectAttempts twice_closed_world = 3 - 1 /\
  exists id, reconnectAttempts (scheduleReconnect twice_closed_world) = 3 /\
             reconnectTimeout (scheduleReconnect twice_closed_world) = Some id /\
             timers (scheduleReconnect twice_closed_world) !! id = Some 8000.
Proof.
  assert (H1 : 1 <= 3 <= 10) by lia.
  assert (H2 : reconnectAttempts twice_closed_world = 3 - 1) by reflexivity.
  split; [exact H1 | split; [exact H2 |]].
  exact (proj1 (reconnect_backoff twice_closed_world 3 H1 H2)).
Defined.



End TransportFacts.

(** ** Doubles that are exact *)

Section FloatFacts.
Import Float64.

Lemma round_half_even_1 a : round_half_even a 1 = a.
Proof.
  unfold round_half_even. rewrite Z.mod_1_r, Z.div_1_r. reflexivity.
Qed.

(** An integer below [2^53] is a double. *)
Lemma of_ratio_exact x :
  0 <= x < 2 ^ 53 ->
  exists e, e <= 0 /\ of_ratio false x 1 = Fin false (Z.to_N (x * 2 ^ (- e))) e.
Proof.
  intros Hx. unfold of_ratio.
  destruct (Z.eqb_spec x 0) as [->|Hnz].
  - exists 0. split; [lia | reflexivity].
  - assert (Hpos : 0 < x) by lia.
    pose proof (Z.log2_spec x Hpos) as Hlog.
    pose proof (Z.log2_nonneg x) as Hnn.
    assert (Hlt : Z.log2 x < 53) by (apply Z.log2_lt_pow2; lia).
    assert (Hfl : floor_log2_ratio x 1 = Z.log2 x).
    { unfold floor_log2_ratio. change (Z.log2 1) with 0. rewrite Z.sub_0_r.
      destruct (Z.leb_spec 0 (Z.log2 x)); [| lia].
      rewrite Z.mul_1_l.
      destruct (Z.leb_spec (2 ^ Z.log2 x) x); [reflexivity | lia]. }
    rewrite Hfl.
    set (e := Z.max (Z.log2 x - 52) (-1074)).
    assert (He : e = Z.log2 x - 52) by (subst e; lia).
    exists e. split; [lia |].
    assert (Hm : (if 0 <=? e then round_half_even x (1 * 2 ^ e)
                  else round_half_even (x * 2 ^ (- e)) 1) = x * 2 ^ (- e)).
    { destruct (Z.leb_spec 0 e).
      - assert (e = 0) as -> by lia. cbn [Z.opp]. rewrite Z.pow_0_r, Z.mul_1_l, Z.mul_1_r.
        apply round_half_even_1.
      - apply round_half_even_1. }
    rewrite Hm.
    destruct (Z.ltb_spec 971 e); [lia |].
    destruct (Z.eqb_spec e 971); [lia |]. reflexivity.
Qed.

Lemma ge_exact x y ex ey :
  0 <= x -> 0 <= y -> ex <= 0 -> ey <= 0 ->
  ge (Fin false (Z.to_N (x * 2 ^ (- ex))) ex) (Fin false (Z.to_N (y * 2 ^ (- ey))) ey)
  = (y <=? x).
Proof.
  intros Hx Hy Hex Hey. unfold ge, signed.
  assert (Hpx : 0 < 2 ^ (- ex)) by (apply Z.pow_pos_nonneg; lia).
  assert (Hpy : 0 < 2 ^ (- ey)) by (apply Z.pow_pos_nonneg; lia).
  rewrite !Z2N.id by nia.
  set (k := Z.min ex ey).
  assert (Hk : 0 < 2 ^ (- k)) by (apply Z.pow_pos_nonneg; lia).
  assert (Hsx : x * 2 ^ (- ex) * 2 ^ (ex - k) = x * 2 ^ (- k)).
  { rewrite <- Z.mul_assoc, <- Z.pow_add_r by lia. do 2 f_equal. lia. }
  assert (Hsy : y * 2 ^ (- ey) * 2 ^ (ey - k) = y * 2 ^ (- k)).
  { rewrite <- Z.mul_assoc, <- Z.pow_add_r by lia. do 2 f_equal. lia. }
  rewrite Hsx, Hsy.
  destruct (Z.leb_spec y x); destruct (Z.leb_spec (y * 2 ^ (- k)) (x * 2 ^ (- k)));
    try reflexivity; nia.
Qed.

Lemma digit_val_digit c : is_digit c -> exists d, Text.digit_val c = Some d.
Proof.
  intros (d & Hd & ->).
  assert (d = 0 \/ d = 1 \/ d = 2 \/ d = 3 \/ d = 4 \/ d = 5 \/ d = 6 \/ d = 7
          \/ d = 8 \/ d = 9)%N as H by lia.
  repeat (destruct H as [-> | H]; [eexists; reflexivity |]). subst. eexists; reflexivity.
Qed.

Lemma take_digits_all ds : Forall is_digit ds -> take_digits ds = (ds, []).
Proof.
  induction 1 as [|c ds Hc _ IH]; [reflexivity |].
  cbn [take_digits]. destruct (digit_val_digit c Hc) as [d ->]. now rewrite IH.
Qed.

Lemma scan_digits ds v :
  ds <> [] -> Forall is_digit ds -> Text.parse_radix 10 0 ds = Some v ->
  scan ds = Some (LitDecimal false v 0).
Proof.
  intros Hne Hall Hv.
  destruct ds as [|c tl]; [congruence |].
  assert (Hbody : forall body, body = c :: tl ->
            (if is_prefix (Text.chars "Infinity") body then Some (LitInfinity false)
             else
               let '(int_ds, after_int) := take_digits body in
               let '(frac_ds, after_frac) :=
                 match after_int with
                 | "."%char :: r => take_digits r
                 | _ => ([], after_int)
                 end in
               match (int_ds ++ frac_ds)%list with
               | [] => None
               | ds =>
                   Some (LitDecimal false (value_of_digits ds)
                           (scan_exponent after_frac - Z.of_nat (length frac_ds)))
               end) = Some (LitDecimal false v 0)).
  { intros body ->.
    assert (Hinf : is_prefix (Text.chars "Infinity") (c :: tl) = false).
    { unfold is_prefix. apply bool_decide_eq_false. intros Heq.
      inversion Hall as [|? ? Hc _]; subst.
      apply is_digit_cases in Hc. cbn in Heq.
      repeat (destruct Hc as [-> | Hc]; [discriminate |]). subst. discriminate. }
    rewrite Hinf, (take_digits_all _ Hall). cbn [app]. rewrite app_nil_r.
    unfold value_of_digits. rewrite Hv. reflexivity. }
  inversion Hall as [|? ? Hc _]; subst.
  unfold scan.
  apply is_digit_cases in Hc.
  repeat (destruct Hc as [-> | Hc]; [apply Hbody; reflexivity |]).
  subst. apply Hbody; reflexivity.
Qed.

Lemma parseFloat_integer x :
  0 <= x -> parseFloat (Text.toString x) = of_ratio false x 1.
Proof.
  intros Hx. unfold parseFloat, Text.toString.
  destruct (Z.ltb_spec x 0) as [|_]; [lia |].
  rewrite chars_text.
  destruct (digits_spec (Z.abs_N x)) as (Hne & Hall & Hparse & _).
  rewrite (trimStart_digits _ Hall).
  rewrite (scan_digits _ _ Hne Hall (Hparse 0%N)).
  cbn [of_literal]. cbn. f_equal. lia.
Qed.

Lemma parseFloat_ge_exact x y :
  0 <= x < 2 ^ 53 -> 0 <= y < 2 ^ 53 ->
  ge (parseFloat (Text.toString x)) (parseFloat (Text.toString y)) = (y <=? x).
Proof.
  intros Hx Hy. rewrite !parseFloat_integer by lia.
  destruct (of_ratio_exact x Hx) as (ex & Hex & ->).
  destruct (of_ratio_exact y Hy) as (ey & Hey & ->).
  apply ge_exact; lia.
Qed.

End FloatFacts.

(** ** The session key manager *)

Section SessionKeyFacts.
Import SessionKeyManager.

Lemma needsRotation_true key spent asset_name w :
  needsRotation key spent asset_name w = true <->
  (expiresAt key < clock w \/
   exists a, find_allowance asset_name (allowances key) = Some a /\
             Float64.ge (Float64.parseFloat spent)
                        (Float64.parseFloat (Types.amount a)) = true).
Proof.
  unfold needsRotation, isExpired.
  destruct (Z.ltb_spec (expiresAt key) (clock w)) as [Hexp|Hlive].
  - split; [intros _; left; exact Hexp | reflexivity].
  - destruct (find_allowance asset_name (allowances key)) as [a|].
    + destruct (Float64.ge _ _) eqn:Hge.
      * split; [intros _; right; exists a; auto | reflexivity].
      * split; [discriminate |].
        intros [Hexp | (a' & Ha & Hge')]; [lia |].
        injection Ha as <-. congruence.
    + split; [discriminate |].
      intros [Hexp | (a' & Ha & _)]; [lia | discriminate].
Qed.

(** C6, as amended. [needsRotation] answers true exactly when the key is
    expired ([now > expiresAt]) or the first allowance entry for the asset
    exists and the amount spent is at least its amount, both read by
    [parseFloat] and compared as doubles. It answers false whenever the key
    is unexpired and has no entry for the asset. On numerals of integers
    below [2^53], which are exact as doubles, the comparison is the exact
    one. *)
Theorem needsRotation_spec key spent asset_name w :
  (needsRotation key spent asset_name w = true <->
     (clock w > expiresAt key \/
      exists a, find_allowance asset_name (allowances key) = Some a /\
                Float64.ge (Float64.parseFloat spent)
                           (Float64.parseFloat (Types.amount a)) = true)) /\
  (clock w <= expiresAt key ->
   find_allowance asset_name (allowances key) = None ->
   needsRotation key spent asset_name w = false) /\
  (forall x y a,
     0 <= x < 2 ^ 53 -> 0 <= y < 2 ^ 53 ->
     clock w <= expiresAt key ->
     find_allowance asset_name (allowances key) = Some a ->
     Types.amount a = Text.toString y ->
     needsRotation key (Text.toString x) asset_name w = (y <=? x)).
Proof.
  split; [| split].
  - rewrite needsRotation_true. split; (intros [H | H]; [left; lia | right; exact H]).
  - intros Hlive Hnone. unfold needsRotation, isExpired.
    destruct (Z.ltb_spec (expiresAt key) (clock w)); [lia |]. now rewrite Hnone.
  - intros x y a Hx Hy Hlive Ha Hamount. unfold needsRotation, isExpired.
    destruct (Z.ltb_spec (expiresAt key) (clock w)); [lia |].
    rewrite Ha, Hamount, (parseFloat_ge_exact x y Hx Hy).
    destruct (y <=? x); reflexivity.
Qed.

(** A run of C6: 150 spent against the default allowance of 100. *)
Lemma needsRotation_spec_witness :
  (0 <= 150 < 2 ^ 53) /\ (0 <= 100 < 2 ^ 53) /\
  clock (startup 0 [] [] ∅) <= expiresAt sample_key /\
  needsRotation sample_key (Text.toString 150) "ytest.usd" (startup 0 [] [] ∅) = true /\
  needsRotation sample_key (Text.toString 150) "usdc" (startup 0 [] [] ∅) = false.
Proof.
  assert (H1 : 0 <= 150 < 2 ^ 53) by (vm_compute; split; [discriminate | reflexivity]).
  assert (H2 : 0 <= 100 < 2 ^ 53) by (vm_compute; split; [discriminate | reflexivity]).
  assert (H3 : clock (startup 0 [] [] ∅) <= expiresAt sample_key)
    by (vm_compute; discriminate).
  split; [exact H1 | split; [exact H2 | split; [exact H3 | split]]].
  - exact (proj2 (proj2 (needsRotation_spec sample_key (Text.toString 150) "ytest.usd"
                           (startup 0 [] [] ∅)))
             150 100 {| Types.asset := "ytest.usd"; Types.amount := "100" |}
             H1 H2 H3 eq_refl eq_refl).
  - exact (proj1 (proj2 (needsRotation_spec sample_key (Text.toString 150) "usdc"
                           (startup 0 [] [] ∅))) H3 eq_refl).
Defined.

(** C6 as stated fails: with an allowance of 9007199254740993 and
    9007199254740992 spent, the key is unexpired and the amount spent is
    below the allowance as a decimal magnitude, yet [needsRotation] answers
    true, because [parseFloat] rounds both numerals to the same double. *)
Lemma needsRotation_rounds :
  needsRotation large_allowance_key "9007199254740992" "ytest.usd" (startup 0 [] [] ∅)
    = true /\
  ~ (clock (startup 0 [] [] ∅) > expiresAt large_allowance_key \/
     exists a, find_allowance "ytest.usd" (allowances large_allowance_key) = Some a /\
               decimal_ge "9007199254740992" (Types.amount a) = Some true).
Proof.
  split; [vm_compute; reflexivity |].
  intros [Hexp | (a & Ha & Hge)].
  - vm_compute in Hexp. discriminate.
  - vm_compute in Ha. injection Ha as <-. vm_compute in Hge. discriminate.
Qed.

Section AnyVault.
Context `{vault : Vault}.

(** C7, as amended. When a cipher text is stored and deciphering it under
    the password fails (in the cipher or in [JSON.parse]), [loadFromStorage]
    returns [null] and leaves the storage as it is; [null] is also what it
    returns when nothing is stored. The caller cannot tell the two apart. *)
Theorem loadFromStorage_failure password w stored e :
  storage w !! "encryptedSessionKey" = Some stored ->
  truthy stored = true ->
  decrypt_key stored password = Throw e ->
  loadFromStorage password w = (None, w) /\
  (forall w0, storage w0 !! "encryptedSessionKey" = None ->
              fst (loadFromStorage password w0) = fst (loadFromStorage password w)).
Proof.
  intros Hs Ht He.
  assert (Hload : loadFromStorage password w = (None, w)).
  { unfold loadFromStorage. rewrite Hs. cbn [default from_option id].
    rewrite Ht. cbn [negb]. now rewrite He. }
  split; [exact Hload |].
  intros w0 H0. rewrite Hload. unfold loadFromStorage. rewrite H0. reflexivity.
Qed.


End AnyVault.

(** A run of C7: the key saved under one password, read under another. *)
Lemma loadFromStorage_failure_witness :
  storage stored_key_world !! "encryptedSessionKey"
    = Some (JStr (AES_encrypt (Vault := sample_vault)
                    (JSON.stringify (Types.to_json sample_key)) "Passw0rd")) /\
  loadFromStorage (vault := sample_vault) "wrong" stored_key_world
    = (None, stored_key_world).
Proof.
  assert (H : storage stored_key_world !! "encryptedSessionKey"
              = Some (JStr (AES_encrypt (Vault := sample_vault)
                              (JSON.stringify (Types.to_json sample_key)) "Passw0rd")))
    by (vm_compute; reflexivity).
  split; [exact H |].
  exact (proj1 (loadFromStorage_failure (vault := sample_vault) "wrong" stored_key_world
                  _ (ErrorObj "Malformed UTF-8 data") H eq_refl eq_refl)).
Defined.

(** C7 as stated fails: a key is stored, the password is wrong, deciphering
    throws, and the result is the [null] that an empty storage gives. *)
Lemma decryption_failure_is_no_key :
  (exists cipher,
      storage stored_key_world !! "encryptedSessionKey" = Some (JStr cipher) /\
      decrypt_key (vault := sample_vault) (JStr cipher) "wrong"
        = Throw (ErrorObj "Malformed UTF-8 data")) /\
  storage (startup 0 [] [] ∅) !! "encryptedSessionKey" = None /\
  fst (loadFromStorage (vault := sample_vault) "wrong" stored_key_world)
  = fst (loadFromStorage (vault := sample_vault) "wrong" (startup 0 [] [] ∅)).
Proof.
  split; [| split].
  - eexists. split; vm_compute; reflexivity.
  - vm_compute. reflexivity.
  - vm_compute. reflexivity.
Qed.


End SessionKeyFacts.


(** ** The event loop leaves other waiters alone *)

Section EventLoopFacts.
Import WebSocketManager Closures.

Lemma same_registry_refl w : same_registry w w.
Proof. repeat split; reflexivity. Qed.

Lemma same_registry_trans w1 w2 w3 :
  same_registry w1 w2 -> same_registry w2 w3 -> same_registry w1 w3.
Proof.
  intros (H1 & H2 & H3) (H4 & H5 & H6). repeat split; try congruence. lia.
Qed.

Lemma scheduleReconnect_registry w : same_registry w (scheduleReconnect w).
Proof.
  unfold scheduleReconnect. destruct (_ <=? _); [apply same_registry_refl |].
  destruct (reconnectTimeout w) eqn:E; cbn; rewrite E; repeat split; cbn; lia.
Qed.

Lemma connect_registry w : same_registry w (connect w).
Proof.
  unfold connect. destruct (isConnected w); [apply same_registry_refl |].
  destruct (upcoming w) as [|[sc|] rest]; try (repeat split; cbn; lia).
  eapply same_registry_trans; [| apply scheduleReconnect_registry].
  repeat split; cbn; lia.
Qed.

Lemma ws_send_registry message w : same_registry w (ws_send message w).
Proof.
  unfold ws_send, transmit. destruct (ws w) as [i|]; [| apply same_registry_refl].
  destruct (sockets w !! i); [| apply same_registry_refl].
  repeat split; cbn; lia.
Qed.

Lemma flush_loop_registry fuel : forall w, same_registry w (flush_loop fuel w).
Proof.
  induction fuel as [|fuel IH]; intros w; cbn [flush_loop]; [apply same_registry_refl |].
  destruct (messageQueue w) as [|m rest]; [apply same_registry_refl |].
  eapply same_registry_trans; [| apply IH].
  unfold flush_turn. destruct (isConnected _).
  - eapply same_registry_trans; [| apply ws_send_registry]. repeat split; cbn; lia.
  - repeat split; cbn; lia.
Qed.

Lemma handleOpen_registry w : same_registry w (handleOpen w).
Proof.
  unfold handleOpen, flushMessageQueue.
  eapply same_registry_trans; [| apply flush_loop_registry]. repeat split; cbn; lia.
Qed.

Lemma handleClose_registry w : same_registry w (handleClose w).
Proof.
  unfold handleClose.
  eapply same_registry_trans; [| apply scheduleReconnect_registry]. repeat split; cbn; lia.
Qed.

Lemma send_registry message w : same_registry w (send message w).
Proof.
  unfold send. destruct (isConnected w); [apply ws_send_registry |].
  destruct (_ || _).
  - eapply same_registry_trans; [| apply connect_registry]. repeat split; cbn; lia.
  - repeat split; cbn; lia.
Qed.

Lemma set_readyState_registry i st w : same_registry w (set_readyState i st w).
Proof.
  unfold set_readyState. destruct (sockets w !! i); repeat split; cbn; lia.
Qed.

Lemma waiting_same_registry p h0 key0 w w' :
  same_registry w w' -> waiting p h0 key0 w -> waiting p h0 key0 w'.
Proof.
  intros (Hh & Hs & _) (Hp & Hown). split; [congruence |].
  intros k hs h Hk. rewrite Hh in Hk. eauto.
Qed.

(** Unregistering only removes. *)
Lemma off_lookup event handler w k hs h :
  messageHandlers (off event handler w) !! k = Some hs -> h ∈ hs ->
  exists hs', messageHandlers w !! k = Some hs' /\ h ∈ hs'.
Proof.
  unfold off. destruct (messageHandlers w !! event) as [old|] eqn:E; [| eauto].
  cbn. destruct (decide (event = k)) as [->|Hne].
  - rewrite lookup_insert_eq. intros [= <-] Hin.
    apply list_elem_of_filter in Hin. exists old. tauto.
  - rewrite lookup_insert_ne by assumption. eauto.
Qed.

Lemma off_settled event handler w : settled (off event handler w) = settled w.
Proof. unfold off. destruct (messageHandlers w !! event); reflexivity. Qed.

Lemma off_waiting p h0 key0 event handler w :
  waiting p h0 key0 w -> waiting p h0 key0 (off event handler w).
Proof.
  intros (Hp & Hown). split; [now rewrite off_settled |].
  intros k hs h Hk Hin Hid.
  destruct (off_lookup _ _ _ _ _ _ Hk Hin) as (hs' & Hk' & Hin'). eauto.
Qed.

Lemma resolve_waiting p h0 key0 q value w :
  q <> p -> waiting p h0 key0 w -> waiting p h0 key0 (resolve q value w).
Proof.
  intros Hq (Hp & Hown). unfold resolve.
  destruct (settled w !! q); [split; assumption |].
  split; [cbn; now rewrite lookup_insert_ne | exact Hown].
Qed.

Lemma invoke_waiting p h0 key0 h message w :
  inert p message h -> waiting p h0 key0 w -> waiting p h0 key0 (invoke h message w).
Proof.
  intros Hinert Hw. destruct h as [mt q | rid q | c]; cbn [invoke inert] in *.
  - apply resolve_waiting; [assumption |]. now apply off_waiting.
  - destruct (answers rid message) as [[|]|] eqn:E; try assumption.
    destruct Hinert as [Hq | Hno]; [| congruence].
    apply resolve_waiting; [assumption |]. now apply off_waiting.
  - destruct (pushed_balance message) as [[[[] b]|]|]; exact Hw.
Qed.

Lemma handlers_for_elem key w h :
  h ∈ handlers_for key w ->
  exists k hs, key = JStr k /\ messageHandlers w !! k = Some hs /\ h ∈ hs.
Proof.
  unfold handlers_for. destruct key; try (intros H; now apply elem_of_nil in H).
  destruct (messageHandlers w !! s) as [hs|] eqn:E; cbn; [eauto |].
  intros H; now apply elem_of_nil in H.
Qed.

Lemma inert_other p message h : id_of h <> p -> inert p message h.
Proof. destruct h; cbn; auto. Qed.

Lemma forEach_waiting p h0 key0 key message snapshot : forall w,
  (key = JStr key0 -> inert p message h0) ->
  waiting p h0 key0 w ->
  waiting p h0 key0 (forEach invoke key snapshot message w).
Proof.
  induction snapshot as [|h rest IH]; intros w Hkey Hw; [exact Hw |].
  cbn [forEach]. apply IH; [exact Hkey |].
  case_bool_decide as Hin; [| exact Hw].
  apply invoke_waiting; [| exact Hw].
  destruct (decide (id_of h = p)) as [Hid|Hid]; [| now apply inert_other].
  destruct (handlers_for_elem _ _ _ Hin) as (k & hs & -> & Hk & Hh).
  destruct Hw as (_ & Hown).
  destruct (Hown k hs h Hk Hh Hid) as (-> & ->). now apply Hkey.
Qed.

Lemma handleMessage_waiting p h0 key0 m w :
  (getMessageType m = Return (JStr key0) -> inert p m h0) ->
  (key0 = "message" -> inert p m h0) ->
  waiting p h0 key0 w ->
  waiting p h0 key0 (handleMessage invoke (Some m) w).
Proof.
  intros Htype Hall Hw. unfold handleMessage.
  destruct (getMessageType m) as [T|] eqn:E; [| exact Hw].
  apply forEach_waiting; [intros [= <-]; now apply Hall |].
  apply forEach_waiting; [intros ->; now apply Htype | exact Hw].
Qed.

Lemma deliver_waiting p h0 key0 ev w :
  quiet p h0 key0 ev -> waiting p h0 key0 w -> waiting p h0 key0 (deliver ev w).
Proof.
  intros Hq Hw. unfold deliver.
  set (w1 := set_clock _ w).
  assert (Hw1 : waiting p h0 key0 w1) by exact Hw.
  destruct (what ev) as [i | i | i | i data | id] eqn:E.
  - destruct (state_of i w1) as [[]|]; try exact Hw1.
    eapply waiting_same_registry; [| exact Hw1].
    eapply same_registry_trans; [apply set_readyState_registry | apply handleOpen_registry].
  - destruct (state_of i w1) as [[]|]; try exact Hw1;
      (eapply waiting_same_registry; [| exact Hw1];
       eapply same_registry_trans; [apply set_readyState_registry | apply handleClose_registry]).
  - exact Hw1.
  - destruct (state_of i w1) as [[]|]; try exact Hw1.
    destruct data as [m|]; [| exact Hw1].
    destruct (Hq i m E) as [Htype Hall].
    now apply handleMessage_waiting.
  - destruct (timers w1 !! id); [| exact Hw1].
    eapply waiting_same_registry; [| exact Hw1].
    eapply same_registry_trans; [| apply connect_registry]. repeat split; cbn; lia.
Qed.

(** While only quiet tasks run before the deadline, the wait times out. *)
Lemma until_settled_quiet p h0 key0 deadline evs : forall w,
  waiting p h0 key0 w ->
  (forall ev, ev ∈ evs -> at_ms ev < deadline -> quiet p h0 key0 ev) ->
  exists evs' w', until_settled p deadline evs w = (None, evs', w').
Proof.
  induction evs as [|ev rest IH]; intros w Hw Hq; cbn [until_settled]; [eauto |].
  destruct (Z.leb_spec deadline (at_ms ev)) as [|Hlt]; [eauto |].
  assert (Hw' : waiting p h0 key0 (deliver ev w)).
  { apply deliver_waiting; [| exact Hw]. apply Hq; [apply list_elem_of_here | exact Hlt]. }
  destruct Hw' as [Hp Hown]. rewrite Hp.
  apply IH; [split; assumption |].
  intros ev' Hin. apply Hq. now apply list_elem_of_further.
Qed.

(** Registering a handler under a fresh identity makes a waiter. *)
Lemma on_waiting h0 key0 w :
  well_formed w -> id_of h0 = nextId w ->
  waiting (nextId w) h0 key0 (on key0 h0 (set_nextId (S (nextId w)) w)).
Proof.
  intros [Hh Hs] Hid. split.
  - cbn. destruct (settled w !! nextId w) eqn:E; [| reflexivity].
    apply Hs in E. lia.
  - intros k hs h Hk Hin Hp. unfold on in Hk. cbn in Hk.
    destruct (decide (key0 = k)) as [<-|Hne].
    + rewrite lookup_insert_eq in Hk. injection Hk as <-.
      assert (Hold : forall h', h' ∈ default [] (messageHandlers w !! key0) ->
                                (id_of h' < nextId w)%nat).
      { intros h' Hin'. destruct (messageHandlers w !! key0) as [old|] eqn:E.
        - apply Hh in E. rewrite Forall_forall in E. now apply E.
        - now apply elem_of_nil in Hin'. }
      case_bool_decide as Hmem.
      * apply Hold in Hin. lia.
      * apply elem_of_app in Hin as [Hin | Hin]; [apply Hold in Hin; lia |].
        apply list_elem_of_singleton in Hin. auto.
    + rewrite lookup_insert_ne in Hk by assumption.
      apply Hh in Hk. rewrite Forall_forall in Hk. apply Hk in Hin. lia.
Qed.

(** Well-formedness is kept by every step. *)
Lemma well_formed_same_registry w w' :
  same_registry w w' -> well_formed w -> well_formed w'.
Proof.
  intros (Hh & Hs & Hn) (Hwh & Hws). split.
  - rewrite Hh. intros k hs Hk. specialize (Hwh k hs Hk). cbn in *.
    eapply Forall_impl; [exact Hwh |]. cbn. intros; lia.
  - rewrite Hs. intros q v Hq. specialize (Hws q v Hq). cbn in *. lia.
Qed.

Lemma off_nextId event handler w : nextId (off event handler w) = nextId w.
Proof. unfold off. destruct (messageHandlers w !! event); reflexivity. Qed.

Lemma off_well_formed event handler w : well_formed w -> well_formed (off event handler w).
Proof.
  intros (Hwh & Hws). split; [| rewrite off_settled, off_nextId; exact Hws].
  intros k hs Hk. apply Forall_forall. intros h Hin.
  destruct (off_lookup _ _ _ _ _ _ Hk Hin) as (hs' & Hk' & Hin').
  specialize (Hwh k hs' Hk'). cbn in Hwh. rewrite Forall_forall in Hwh.
  rewrite off_nextId. now apply Hwh.
Qed.

Lemma resolve_well_formed q value w :
  (q < nextId w)%nat -> well_formed w -> well_formed (resolve q value w).
Proof.
  intros Hq (Hwh & Hws). unfold resolve.
  destruct (settled w !! q); [split; assumption |].
  split; [exact Hwh |]. cbn. apply map_Forall_insert_2; assumption.
Qed.

Lemma invoke_well_formed h message w :
  (id_of h < nextId w)%nat -> well_formed w -> well_formed (invoke h message w).
Proof.
  intros Hid Hw. destruct h as [mt q | rid q | c]; cbn [invoke id_of] in *.
  - apply resolve_well_formed; [now rewrite off_nextId | now apply off_well_formed].
  - destruct (answers rid message) as [[|]|]; try exact Hw.
    apply resolve_well_formed; [now rewrite off_nextId | now apply off_well_formed].
  - destruct (pushed_balance message) as [[[[] b]|]|]; exact Hw.
Qed.

Lemma forEach_well_formed key message snapshot : forall w,
  well_formed w -> well_formed (forEach invoke key snapshot message w).
Proof.
  induction snapshot as [|h rest IH]; intros w Hw; [exact Hw |].
  cbn [forEach]. apply IH. case_bool_decide as Hin; [| exact Hw].
  apply invoke_well_formed; [| exact Hw].
  destruct (handlers_for_elem _ _ _ Hin) as (k & hs & _ & Hk & Hh).
  destruct Hw as (Hwh & _). specialize (Hwh k hs Hk). cbn in Hwh.
  rewrite Forall_forall in Hwh. now apply Hwh.
Qed.

Lemma deliver_well_formed ev w : well_formed w -> well_formed (deliver ev w).
Proof.
  intros Hw. unfold deliver.
  set (w1 := set_clock _ w).
  assert (Hw1 : well_formed w1) by exact Hw.
  destruct (what ev) as [i | i | i | i data | id].
  - destruct (state_of i w1) as [[]|]; try exact Hw1.
    eapply well_formed_same_registry; [| exact Hw1].
    eapply same_registry_trans; [apply set_readyState_registry | apply handleOpen_registry].
  - destruct (state_of i w1) as [[]|]; try exact Hw1;
      (eapply well_formed_same_registry; [| exact Hw1];
       eapply same_registry_trans; [apply set_readyState_registry | apply handleClose_registry]).
  - exact Hw1.
  - destruct (state_of i w1) as [[]|]; try exact Hw1.
    destruct data as [m|]; [| exact Hw1].
    unfold handleMessage. destruct (getMessageType m); [| exact Hw1].
    now do 2 apply forEach_well_formed.
  - destruct (timers w1 !! id); [| exact Hw1].
    eapply well_formed_same_registry; [| exact Hw1].
    eapply same_registry_trans; [| apply connect_registry]. repeat split; cbn; lia.
Qed.

Lemma deliver_until_well_formed t evs : forall w evs' w',
  well_formed w -> deliver_until t evs w = (evs', w') -> well_formed w'.
Proof.
  induction evs as [|ev rest IH]; intros w evs' w' Hw; cbn [deliver_until].
  - now intros [= _ <-].
  - destruct (at_ms ev <? t); [| now intros [= _ <-]].
    apply IH. now apply deliver_well_formed.
Qed.

End EventLoopFacts.

(** ** The handshake *)

Section HandshakeFacts.
Import AuthManager.
Context `{sdk : Nitrolite}.

Lemma take_guard_well_formed w : well_formed w -> well_formed (take_guard w).
Proof.
  apply well_formed_same_registry. repeat split; cbn; lia.
Qed.

Lemma checkConnection_well_formed polls startTime timeout : forall evs w o evs' w',
  well_formed w ->
  checkConnection polls startTime timeout evs w = (o, evs', w') -> well_formed w'.
Proof.
  induction polls as [|polls IH]; intros evs w o evs' w' Hw; cbn [checkConnection].
  - destruct (WebSocketManager.isConnected w); [now intros [= _ _ <-] |].
    destruct (_ <? _); now intros [= _ _ <-].
  - destruct (WebSocketManager.isConnected w); [now intros [= _ _ <-] |].
    destruct (_ <? _); [now intros [= _ _ <-] |].
    destruct (deliver_until (clock w + 100) evs w) as [evs1 w1] eqn:E.
    apply IH.
    eapply well_formed_same_registry; [| eapply deliver_until_well_formed; eassumption].
    repeat split; cbn; lia.
Qed.

Lemma sendAuthRequest_well_formed params evs w o evs' w' :
  well_formed w -> sendAuthRequest params evs w = (o, evs', w') -> well_formed w'.
Proof.
  intros Hw. unfold sendAuthRequest, bind, read, act, lift, ret, waitForConnection.
  destruct (WebSocketManager.isConnected w) eqn:Hc.
  - destruct (createAuthRequestMessage params (clock w)); intros [= _ _ <-]; [| exact Hw].
    eapply well_formed_same_registry; [apply send_registry | exact Hw].
  - destruct (checkConnection _ _ _ evs (WebSocketManager.connect w)) as [[o1 evs1] w1] eqn:E.
    assert (Hw1 : well_formed w1).
    { eapply checkConnection_well_formed; [| exact E].
      eapply well_formed_same_registry; [apply connect_registry | exact Hw]. }
    destruct o1; [| now intros [= _ _ <-]].
    destruct (createAuthRequestMessage params (clock w1)); intros [= _ _ <-]; [| exact Hw1].
    eapply well_formed_same_registry; [apply send_registry | exact Hw1].
Qed.

(** The wait for a message of a type none of the tasks before the
    deadline carries times out. *)
Lemma waitForMessage_timeout messageType timeout evs w :
  messageType <> "message" ->
  well_formed w ->
  none_of_type messageType (clock w + timeout) evs ->
  exists evs' w',
    waitForMessage messageType timeout evs w =
    (Throw (ErrorObj ("Timeout waiting for " ++ messageType)), evs', w').
Proof.
  intros Hne Hw Hnone. unfold waitForMessage.
  set (h0 := OneShot messageType (nextId w)).
  destruct (until_settled_quiet (nextId w) h0 messageType (clock w + timeout) evs
              (WebSocketManager.on messageType h0 (set_nextId (S (nextId w)) w)))
    as (evs' & w' & Heq).
  - now apply on_waiting.
  - intros ev Hin Hlt i m Hwhat. split.
    + intros Htype. exfalso. exact (Hnone ev i m Hin Hlt Hwhat Htype).
    + intros ->. congruence.
  - change (clock (WebSocketManager.on messageType h0 (set_nextId (S (nextId w)) w)))
      with (clock w).
    rewrite Heq. eauto.
Qed.

(** Whatever happens, [authenticate] past its guard returns a result and
    leaves the guard released. *)
Lemma runHandshake_releases sessionKey walletClient userAddress evs w :
  exists result evs' w',
    runHandshake sessionKey walletClient userAddress evs w = (Own result, evs', w') /\
    authInProgress w' = false /\ authPromise w' = None.
Proof.
  unfold runHandshake.
  destruct (_performAuthentication _ _ _ _ _) as [[result evs'] w'].
  exists result, evs', (release_guard w'). repeat split.
Qed.

(** C1. When [authenticate] is called while no handshake is in flight, the
    handshake gets as far as sending its auth request, and no message of
    type auth_challenge is among the tasks of the 10000 ms that follow, the
    call returns (it does not throw) the failure result whose error is
    "Timeout waiting for auth_challenge", and it leaves the guard released
    ([authInProgress] false, no pending promise), so that the next call
    runs a handshake of its own instead of being handed the old one. The
    guard is released in the same way whatever the handshake does. *)
Theorem authenticate_challenge_timeout sessionKey walletClient userAddress evs w :
  authInProgress w = false ->
  (forall evs1 w1,
      well_formed w ->
      sendAuthRequest (authParams_of sessionKey userAddress) evs (take_guard w)
        = (Return tt, evs1, w1) ->
      none_of_type "auth_challenge" (clock w1 + 10000) evs1 ->
      exists evs' w',
        authenticate sessionKey walletClient userAddress evs w
        = (Own {| success := false; balance := None;
                  error := Some "Timeout waiting for auth_challenge" |}, evs', w') /\
        authInProgress w' = false /\ authPromise w' = None /\
        (forall sessionKey2 walletClient2 userAddress2 evs2,
            authenticate sessionKey2 walletClient2 userAddress2 evs2 w'
            = runHandshake sessionKey2 walletClient2 userAddress2 evs2 w')) /\
  (exists result evs' w',
      authenticate sessionKey walletClient userAddress evs w = (Own result, evs', w') /\
      authInProgress w' = false /\ authPromise w' = None).
Proof.
  intros Hidle.
  assert (Hall : exists result evs' w',
             authenticate sessionKey walletClient userAddress evs w = (Own result, evs', w') /\
             authInProgress w' = false /\ authPromise w' = None).
  { unfold authenticate. rewrite Hidle. apply runHandshake_releases. }
  split; [| exact Hall].
  intros evs1 w1 Hw Hsent Hnone.
  assert (Hw1 : well_formed w1).
  { eapply sendAuthRequest_well_formed; [| exact Hsent]. now apply take_guard_well_formed. }
  destruct (waitForMessage_timeout "auth_challenge" 10000 evs1 w1 ltac:(discriminate)
              Hw1 Hnone) as (evs' & w' & Hwait).
  exists evs', (release_guard w').
  split; [| split; [reflexivity | split; [reflexivity |]]].
  - unfold authenticate, runHandshake, _performAuthentication, handshake. rewrite Hidle.
    unfold bind at 1. rewrite Hsent.
    unfold bind at 1. unfold receiveChallenge. unfold bind at 1. rewrite Hwait.
    reflexivity.
  - intros. reflexivity.
Qed.



End HandshakeFacts.

Lemma connected_world_well_formed : well_formed connected_world.
Proof.
  split.
  - intros k hs Hk. apply Forall_forall. intros h Hin.
    assert (Hall : messageHandlers connected_world = {[ "balance_update" := [BalanceUpdate 0] ]})
      by (vm_compute; reflexivity).
    rewrite Hall in Hk. apply lookup_singleton_Some in Hk as [_ <-].
    apply list_elem_of_singleton in Hin as ->. vm_compute. lia.
  - assert (Hnone : settled connected_world = ∅) by (vm_compute; reflexivity).
    rewrite Hnone. apply map_Forall_empty.
Qed.

(** A run of C1: the socket is open, the only message within ten seconds is
    a balance push, and the challenge comes too late. *)
Lemma authenticate_challenge_timeout_witness :
  authInProgress connected_world = false /\
  well_formed connected_world /\
  none_of_type "auth_challenge" (clock connected_world + 10000)
    [message_at 100 balance_push; message_at 20000 empty_challenge] /\
  exists evs' w',
    AuthManager.authenticate (sdk := signing_sdk) sample_key tt "0xUser"
      [message_at 100 balance_push; message_at 20000 empty_challenge] connected_world
    = (AuthManager.Own
         {| AuthManager.success := false; AuthManager.balance := None;
            AuthManager.error := Some "Timeout waiting for auth_challenge" |}, evs', w') /\
    authInProgress w' = false /\ authPromise w' = None.
Proof.
  assert (H1 : authInProgress connected_world = false) by reflexivity.
  assert (H2 : none_of_type "auth_challenge" (clock connected_world + 10000)
                 [message_at 100 balance_push; message_at 20000 empty_challenge]).
  { intros ev i m Hin Hlt Hwhat.
    apply elem_of_cons in Hin as [-> | Hin].
    - injection Hwhat as _ <-. vm_compute. discriminate.
    - apply list_elem_of_singleton in Hin as ->. vm_compute in Hlt. discriminate. }
  split; [exact H1 | split; [exact connected_world_well_formed | split; [exact H2 |]]].
  destruct (proj1 (authenticate_challenge_timeout (sdk := signing_sdk) sample_key tt
                     "0xUser"
                     [message_at 100 balance_push; message_at 20000 empty_challenge]
                     connected_world H1)
              _ _ connected_world_well_formed eq_refl H2)
    as (evs' & w' & Heq & Hflag & Hpromise & _).
  exists evs', w'. split; [exact Heq | split; [exact Hflag | exact Hpromise]].
Defined.

(** ** The balance cache *)

Section BalanceFacts.
Import BalanceManager.

(** The wait for the answer to a request none of the tasks before the
    deadline answers times out. *)
Lemma waitForBalanceResponse_timeout requestId timeout evs w :
  well_formed w ->
  none_answers requestId (clock w + timeout) evs ->
  exists evs' w',
    waitForBalanceResponse requestId timeout evs w =
    (Throw (ErrorObj "Timeout waiting for balance response"), evs', w').
Proof.
  intros Hw Hnone. unfold waitForBalanceResponse.
  set (h0 := BalanceResponse requestId (nextId w)).
  destruct (until_settled_quiet (nextId w) h0 "message" (clock w + timeout) evs
              (WebSocketManager.on "message" h0 (set_nextId (S (nextId w)) w)))
    as (evs' & w' & Heq).
  - now apply on_waiting.
  - intros ev Hin Hlt i m Hwhat.
    assert (Hinert : inert (nextId w) m h0) by (right; exact (Hnone ev i m Hin Hlt Hwhat)).
    split; intros _; exact Hinert.
  - change (clock (WebSocketManager.on "message" h0 (set_nextId (S (nextId w)) w)))
      with (clock w).
    rewrite Heq. eauto.
Qed.

Lemma send_clock message w : clock (WebSocketManager.send message w) = clock w.
Proof.
  unfold WebSocketManager.send.
  destruct (WebSocketManager.isConnected w).
  - unfold WebSocketManager.ws_send, WebSocketManager.transmit.
    destruct (ws w) as [i|]; [| reflexivity]. destruct (sockets w !! i); reflexivity.
  - destruct (_ || _); [| reflexivity].
    unfold WebSocketManager.connect. cbn.
    destruct (WebSocketManager.isConnected _); [reflexivity |].
    destruct (upcoming w) as [|[sc|] rest]; try reflexivity. cbn.
    unfold WebSocketManager.scheduleReconnect. destruct (_ <=? _); [reflexivity |].
    cbn. destruct (reconnectTimeout w); reflexivity.
Qed.

Lemma pull_unfold asset evs w :
  pull asset evs w =
  match waitForBalanceResponse (clock w) 10000 evs
          (WebSocketManager.send (balance_request asset (clock w)) w) with
  | (Throw e, evs1, w1) => (Throw e, evs1, w1)
  | (Return response, evs1, w1) =>
      match AuthManager.lacks_payload response with
      | Throw e => (Throw e, evs1, w1)
      | Return true => (Throw (ErrorObj "Invalid balance response"), evs1, w1)
      | Return false =>
          match (let? res := get response "res" in
                 let? payload := at_index res 2 in get payload "balance") with
          | Throw e => (Throw e, evs1, w1)
          | Return reported =>
              let balance := if truthy reported then reported else JStr "0" in
              (Return balance, evs1,
               set_balanceCache
                 (<[asset := {| amount := balance; timestamp := clock w1 |}]> (balanceCache w1))
                 w1)
          end
      end
  end.
Proof.
  unfold pull, balance_request, bind, read, act, lift, throw, ret.
  destruct (waitForBalanceResponse _ _ _ _) as [[[response|e] evs1] w1]; [| reflexivity].
  destruct (AuthManager.lacks_payload response) as [[|]|e]; reflexivity.
Qed.

(** C2. When [getUnifiedBalance] takes the pull path (a refresh is forced,
    or the cache has no fresh entry) and the pull fails, for whatever it
    throws, the call returns a value: the amount of the cache entry for the
    asset if there is one at that moment, whatever its age, and "0"
    otherwise. The pull does fail when no answer to the request arrives
    within 10000 ms, and when the answer has no payload ([res[2]] missing);
    a transport that cannot send leaves the request in the queue and is
    such a time out. *)
Theorem getUnifiedBalance_never_raises asset forceRefresh evs w :
  (forceRefresh = true \/ fresh_entry asset w = None) ->
  (forall e evs' w',
      pull asset evs w = (Throw e, evs', w') ->
      getUnifiedBalance asset forceRefresh evs w =
        (match balanceCache w' !! asset with
         | Some cached => amount cached
         | None => JStr "0"
         end, evs', w')) /\
  (well_formed w ->
   none_answers (clock w) (clock w + 10000) evs ->
   exists evs' w',
     pull asset evs w = (Throw (ErrorObj "Timeout waiting for balance response"), evs', w')) /\
  (forall response evs' w',
      waitForBalanceResponse (clock w) 10000 evs
        (WebSocketManager.send (balance_request asset (clock w)) w)
        = (Return response, evs', w') ->
      AuthManager.lacks_payload response = Return true ->
      pull asset evs w = (Throw (ErrorObj "Invalid balance response"), evs', w')).
Proof.
  intros Hpath. split; [| split].
  - intros e evs' w' Hpull. unfold getUnifiedBalance.
    assert (Hmiss : (if forceRefresh then None else fresh_entry asset w) = None)
      by (destruct Hpath as [-> | ->]; [reflexivity | now destruct forceRefresh]).
    rewrite Hmiss, Hpull. reflexivity.
  - intros Hw Hnone. rewrite pull_unfold.
    set (w0 := WebSocketManager.send (balance_request asset (clock w)) w).
    assert (Hw0 : well_formed w0)
      by (eapply well_formed_same_registry; [apply send_registry | exact Hw]).
    assert (Hclock : clock w0 = clock w) by apply send_clock.
    assert (Hnone0 : none_answers (clock w) (clock w0 + 10000) evs)
      by (rewrite Hclock; exact Hnone).
    destruct (waitForBalanceResponse_timeout (clock w) 10000 evs w0 Hw0 Hnone0)
      as (evs' & w' & Heq).
    rewrite Heq. eauto.
  - intros response evs' w' Hwait Hlacks. rewrite pull_unfold, Hwait, Hlacks. reflexivity.
Qed.

End BalanceFacts.

(** Runs of C2: with nothing cached and no socket to be had, the request
    stays queued, the wait times out and the answer is "0"; with a stale
    entry cached and an answer without payload, the stale amount is
    returned. *)
Lemma getUnifiedBalance_never_raises_witness :
  (true = true \/ BalanceManager.fresh_entry "usd" unreachable_world = None) /\
  BalanceManager.pull "usd" [] unreachable_world
  = (Throw (ErrorObj "Timeout waiting for balance response"), [],
     (BalanceManager.pull "usd" [] unreachable_world).2) /\
  messageQueue (BalanceManager.pull "usd" [] unreachable_world).2
  = [JSON.stringify (BalanceManager.balance_request "usd" 0)] /\
  wire (BalanceManager.pull "usd" [] unreachable_world).2 = [] /\
  (BalanceManager.getUnifiedBalance "usd" true [] unreachable_world).1.1 = JStr "0" /\
  (BalanceManager.getUnifiedBalance "usd" true [message_at 100 bare_answer] cached_world).1.1
  = JStr "42".
Proof.
  assert (H1 : true = true \/ BalanceManager.fresh_entry "usd" unreachable_world = None)
    by (left; reflexivity).
  assert (H2 : BalanceManager.pull "usd" [] unreachable_world
               = (Throw (ErrorObj "Timeout waiting for balance response"), [],
                  (BalanceManager.pull "usd" [] unreachable_world).2))
    by (vm_compute; reflexivity).
  split; [exact H1 | split; [exact H2 | split; [| split; [| split]]]].
  - vm_compute. reflexivity.
  - vm_compute. reflexivity.
  - rewrite (proj1 (getUnifiedBalance_never_raises "usd" true [] unreachable_world H1)
               _ _ _ H2).
    vm_compute. reflexivity.
  - vm_compute. reflexivity.
Defined.

(** ** Well-formedness holds in every world the program reaches *)

Section Reachability.
Import WebSocketManager.

Lemma startup_well_formed now plan random stored :
  well_formed (startup now plan random stored).
Proof.
  split.
  - intros k hs Hk. unfold startup, BalanceManager.subscribeToBalanceUpdates, on in Hk.
    cbn in Hk. rewrite lookup_empty in Hk. cbn in Hk.
    apply lookup_insert_Some in Hk as [[_ <-] | [_ Hk]].
    + constructor; [cbn; lia | constructor].
    + now rewrite lookup_empty in Hk.
  - apply map_Forall_empty.
Qed.

Lemma on_fresh_well_formed event h w :
  id_of h = nextId w -> well_formed w ->
  well_formed (on event h (set_nextId (S (nextId w)) w)).
Proof.
  intros Hid (Hwh & Hws). split.
  - intros k hs Hk. unfold on in Hk. cbn in Hk |- *.
    assert (Hold : forall k' hs', messageHandlers w !! k' = Some hs' ->
                     Forall (fun h' => (id_of h' < S (nextId w))%nat) hs').
    { intros k' hs' Hk'. specialize (Hwh k' hs' Hk'). cbn in Hwh.
      eapply Forall_impl; [exact Hwh |]. cbn. intros; lia. }
    apply lookup_insert_Some in Hk as [[_ <-] | [_ Hk]]; [| now apply (Hold k)].
    assert (Hcur : Forall (fun h' => (id_of h' < S (nextId w))%nat)
                     (default [] (messageHandlers w !! event))).
    { destruct (messageHandlers w !! event) as [old|] eqn:E; [now apply (Hold event) |].
      constructor. }
    case_bool_decide; [exact Hcur |].
    apply Forall_app. split; [exact Hcur |].
    constructor; [rewrite Hid; lia | constructor].
  - intros q v Hq. specialize (Hws q v Hq). cbn in *. lia.
Qed.

Lemma until_settled_well_formed p deadline evs : forall w r evs' w',
  well_formed w -> until_settled p deadline evs w = (r, evs', w') -> well_formed w'.
Proof.
  induction evs as [|ev rest IH]; intros w r evs' w' Hw; cbn [until_settled].
  - now intros [= _ _ <-].
  - destruct (deadline <=? at_ms ev); [now intros [= _ _ <-] |].
    pose proof (deliver_well_formed ev w Hw) as Hd.
    destruct (settled (deliver ev w) !! p); [now intros [= _ _ <-] |].
    now apply IH.
Qed.

Lemma keeps_ret {A} (a : A) : keeps_well_formed (ret a).
Proof. intros evs w o evs' w' Hw [= _ _ <-]. exact Hw. Qed.

Lemma keeps_throw {A} e : keeps_well_formed (throw (A := A) e).
Proof. intros evs w o evs' w' Hw [= _ _ <-]. exact Hw. Qed.

Lemma keeps_lift {A} (x : Outcome A) : keeps_well_formed (lift x).
Proof. intros evs w o evs' w' Hw [= _ _ <-]. exact Hw. Qed.

Lemma keeps_read {A} (f : World -> A) : keeps_well_formed (read f).
Proof. intros evs w o evs' w' Hw [= _ _ <-]. exact Hw. Qed.

Lemma keeps_act f :
  (forall w, well_formed w -> well_formed (f w)) -> keeps_well_formed (act f).
Proof. intros Hf evs w o evs' w' Hw [= _ _ <-]. now apply Hf. Qed.

Lemma keeps_bind {A B} (m : Async A) (k : A -> Async B) :
  keeps_well_formed m -> (forall a, keeps_well_formed (k a)) ->
  keeps_well_formed (bind m k).
Proof.
  intros Hm Hk evs w o evs' w' Hw. unfold bind.
  destruct (m evs w) as [[[a|e] evs1] w1] eqn:E.
  - apply (Hk a). exact (Hm _ _ _ _ _ Hw E).
  - intros [= _ _ <-]. exact (Hm _ _ _ _ _ Hw E).
Qed.

Lemma send_well_formed message w : well_formed w -> well_formed (send message w).
Proof. apply well_formed_same_registry, send_registry. Qed.

Lemma waitForMessage_keeps messageType timeout :
  keeps_well_formed (AuthManager.waitForMessage messageType timeout).
Proof.
  intros evs w o evs' w' Hw. unfold AuthManager.waitForMessage.
  pose proof (on_fresh_well_formed messageType (OneShot messageType (nextId w)) w
                eq_refl Hw) as Hon.
  destruct (until_settled _ _ _ _) as [[[message|] evs1] w1] eqn:E;
    intros [= _ _ <-]; pose proof (until_settled_well_formed _ _ _ _ _ _ _ Hon E) as H1.
  - exact H1.
  - now apply off_well_formed.
Qed.

Lemma waitForBalanceResponse_keeps requestId timeout :
  keeps_well_formed (BalanceManager.waitForBalanceResponse requestId timeout).
Proof.
  intros evs w o evs' w' Hw. unfold BalanceManager.waitForBalanceResponse.
  pose proof (on_fresh_well_formed "message" (BalanceResponse requestId (nextId w)) w
                eq_refl Hw) as Hon.
  destruct (until_settled _ _ _ _) as [[[message|] evs1] w1] eqn:E;
    intros [= _ _ <-]; pose proof (until_settled_well_formed _ _ _ _ _ _ _ Hon E) as H1.
  - exact H1.
  - now apply off_well_formed.
Qed.

(** [authenticate] and [getUnifiedBalance] keep the world well formed, as
    every task of the event loop does ([deliver_well_formed]). *)
Lemma authenticate_well_formed `{sdk : AuthManager.Nitrolite}
    sessionKey walletClient userAddress evs w reply evs' w' :
  well_formed w ->
  AuthManager.authenticate sessionKey walletClient userAddress evs w = (reply, evs', w') ->
  well_formed w'.
Proof.
  intros Hw. unfold AuthManager.authenticate.
  destruct (authInProgress w); [now intros [= _ _ <-] |].
  unfold AuthManager.runHandshake, AuthManager._performAuthentication.
  destruct (AuthManager.handshake _ _ _ _ _) as [[o evs1] w1] eqn:E.
  intros [= _ _ <-].
  assert (Hkeeps : keeps_well_formed
                     (AuthManager.handshake sessionKey walletClient userAddress)).
  { unfold AuthManager.handshake.
    apply keeps_bind.
    { intros evs0 w0 o0 evs0' w0' Hw0 E0.
      exact (sendAuthRequest_well_formed _ _ _ _ _ _ Hw0 E0). }
    intros _. apply keeps_bind.
    { unfold AuthManager.receiveChallenge.
      apply keeps_bind; [apply waitForMessage_keeps |]. intros m.
      apply keeps_bind; [apply keeps_lift |]. intros [|]; [apply keeps_throw | apply keeps_lift]. }
    intros c. apply keeps_bind.
    { unfold AuthManager.sendAuthVerify.
      apply keeps_bind; [apply keeps_read |]. intros now.
      apply keeps_bind; [apply keeps_lift |]. intros v.
      apply keeps_act. intros; now apply send_well_formed. }
    intros _. unfold AuthManager.receiveSuccess.
    apply keeps_bind; [apply waitForMessage_keeps |]. intros m.
    apply keeps_bind; [apply keeps_lift |]. intros [|]; [apply keeps_throw | apply keeps_lift]. }
  exact (Hkeeps _ _ _ _ _ (take_guard_well_formed w Hw) E).
Qed.

Lemma getUnifiedBalance_well_formed asset forceRefresh evs w value evs' w' :
  well_formed w ->
  BalanceManager.getUnifiedBalance asset forceRefresh evs w = (value, evs', w') ->
  well_formed w'.
Proof.
  intros Hw. unfold BalanceManager.getUnifiedBalance.
  destruct (if forceRefresh then None else BalanceManager.fresh_entry asset w);
    [now intros [= _ _ <-] |].
  destruct (BalanceManager.pull asset evs w) as [[o evs1] w1] eqn:E.
  assert (Hkeeps : keeps_well_formed (BalanceManager.pull asset)).
  { unfold BalanceManager.pull.
    apply keeps_bind; [apply keeps_read |]. intros rid.
    apply keeps_bind; [apply keeps_act; intros; now apply send_well_formed |]. intros _.
    apply keeps_bind; [apply waitForBalanceResponse_keeps |]. intros m.
    apply keeps_bind; [apply keeps_lift |]. intros [|]; [apply keeps_throw |].
    apply keeps_bind; [apply keeps_lift |]. intros reported.
    apply keeps_bind; [apply keeps_read |]. intros now.
    apply keeps_bind; [apply keeps_act; intros w0 Hw0; exact Hw0 | intros _; apply keeps_ret]. }
  pose proof (Hkeeps _ _ _ _ _ Hw E) as Hw1.
  destruct o; now intros [= _ _ <-].
Qed.

(** The fuel of the two loops is enough: more of it changes nothing. *)
Lemma flush_loop_empty fuel w : messageQueue w = [] -> flush_loop fuel w = w.
Proof. intros H. destruct fuel; cbn [flush_loop]; [reflexivity | now rewrite H]. Qed.

Lemma flush_loop_add n : forall k w, flush_loop (n + k) w = flush_loop k (flush_loop n w).
Proof.
  induction n as [|n IH]; intros k w; [reflexivity |].
  cbn [Nat.add flush_loop].
  destruct (messageQueue w) as [|m rest] eqn:E; [| apply IH].
  symmetry. now apply flush_loop_empty.
Qed.

Lemma flushMessageQueue_fuel k w :
  flush_loop (length (messageQueue w) + k) w = flushMessageQueue w.
Proof.
  unfold flushMessageQueue. rewrite flush_loop_add. apply flush_loop_empty.
  rewrite flush_loop_queue by lia. apply drop_all.
Qed.

Lemma checkConnection_fuel n : forall k startTime timeout evs w,
  timeout < clock w - startTime + 100 * Z.of_nat n ->
  AuthManager.checkConnection (n + k) startTime timeout evs w
  = AuthManager.checkConnection n startTime timeout evs w.
Proof.
  induction n as [|n IH]; intros k startTime timeout evs w Hn.
  - cbn [Nat.add]. destruct k; [reflexivity |]. cbn [AuthManager.checkConnection].
    destruct (isConnected w); [reflexivity |].
    destruct (Z.ltb_spec timeout (clock w - startTime)); [reflexivity | lia].
  - cbn [Nat.add AuthManager.checkConnection].
    destruct (isConnected w); [reflexivity |].
    destruct (timeout <? clock w - startTime); [reflexivity |].
    destruct (deliver_until (clock w + 100) evs w) as [evs1 w1].
    apply IH. cbn. lia.
Qed.

Lemma waitForConnection_fuel k timeout evs w :
  0 <= timeout ->
  AuthManager.checkConnection (Z.to_nat (timeout / 100) + 2 + k) (clock w) timeout evs w
  = AuthManager.waitForConnection timeout evs w.
Proof.
  intros Ht. unfold AuthManager.waitForConnection. apply checkConnection_fuel.
  pose proof (Z.mod_pos_bound timeout 100 ltac:(lia)).
  pose proof (Z.div_mod timeout 100 ltac:(lia)).
  assert (0 <= timeout / 100) by (apply Z.div_pos; lia).
  rewrite Nat2Z.inj_add, Z2Nat.id by assumption. lia.
Qed.

End Reachability.

(** ** Further properties: the registry of handlers *)

Section RegistryFacts.
Import WebSocketManager.

Lemma filter_all {A} (P : A -> Prop) `{forall x, Decision (P x)} (l : list A) :
  (forall x, x ∈ l -> P x) -> filter P l = l.
Proof.
  induction l as [|a l IH]; intros Hall; [reflexivity |].
  rewrite filter_cons_True by (apply Hall; left).
  f_equal. apply IH. intros x Hx. apply Hall. right. exact Hx.
Qed.

Lemma on_handlers event h w k :
  handlers_for (JStr k) (on event h w) =
  if bool_decide (k = event)
  then (if bool_decide (h ∈ handlers_for (JStr event) w) then handlers_for (JStr event) w
        else handlers_for (JStr event) w ++ [h])%list
  else handlers_for (JStr k) w.
Proof.
  unfold on, handlers_for; cbn.
  destruct (decide (k = event)) as [->|Hne].
  - rewrite (bool_decide_eq_true_2 (event = event)) by reflexivity.
    rewrite lookup_insert_eq. reflexivity.
  - rewrite (bool_decide_eq_false_2 (k = event)) by exact Hne.
    rewrite lookup_insert_ne by congruence. reflexivity.
Qed.

Lemma off_handlers event h w k :
  handlers_for (JStr k) (off event h w) =
  if bool_decide (k = event)
  then filter (fun h' => h' <> h) (handlers_for (JStr event) w)
  else handlers_for (JStr k) w.
Proof.
  unfold off, handlers_for.
  destruct (decide (k = event)) as [->|Hne].
  - rewrite (bool_decide_eq_true_2 (event = event)) by reflexivity.
    destruct (messageHandlers w !! event) as [hs|] eqn:E; cbn.
    + rewrite lookup_insert_eq. reflexivity.
    + rewrite E. reflexivity.
  - rewrite (bool_decide_eq_false_2 (k = event)) by exact Hne.
    destruct (messageHandlers w !! event) as [hs|] eqn:E; cbn; [| reflexivity].
    rewrite lookup_insert_ne by congruence. reflexivity.
Qed.

Lemma handlers_for_NoDup event w :
  no_duplicates w -> NoDup (handlers_for (JStr event) w).
Proof.
  intros Hnd. unfold handlers_for.
  destruct (messageHandlers w !! event) as [hs|] eqn:E; cbn.
  - exact (Hnd _ _ E).
  - constructor.
Qed.

Lemma on_no_duplicates event h w : no_duplicates w -> no_duplicates (on event h w).
Proof.
  intros Hnd k hs Hk. unfold on in Hk. cbn in Hk.
  destruct (decide (k = event)) as [->|Hne].
  - rewrite lookup_insert_eq in Hk. injection Hk as <-.
    fold (handlers_for (JStr event) w).
    pose proof (handlers_for_NoDup event w Hnd) as Hev.
    case_bool_decide as Hin; [exact Hev |].
    apply NoDup_app. split; [exact Hev |]. split; [| apply NoDup_singleton].
    intros x Hx Hx'. apply list_elem_of_singleton in Hx'. subst x. contradiction.
  - rewrite lookup_insert_ne in Hk by congruence. exact (Hnd _ _ Hk).
Qed.

Lemma off_no_duplicates event h w : no_duplicates w -> no_duplicates (off event h w).
Proof.
  intros Hnd k hs Hk. unfold off in Hk.
  destruct (messageHandlers w !! event) as [hs0|] eqn:E; cbn in Hk.
  - destruct (decide (k = event)) as [->|Hne].
    + rewrite lookup_insert_eq in Hk. injection Hk as <-.
      apply NoDup_filter. exact (Hnd _ _ E).
    + rewrite lookup_insert_ne in Hk by congruence. exact (Hnd _ _ Hk).
  - exact (Hnd _ _ Hk).
Qed.

(** X1: the registry of handlers behaves as the [Map] of [Set]s it stands
    for. Registering and unregistering keep every set free of duplicates;
    a handler is in its set after [on] and out of it after [off];
    registering twice is registering once; unregistering a handler that
    was just added, or one that was never there, leaves the set as it was;
    no other handler and no other set is affected. *)
Theorem registry_is_a_set (event : string) (h : Handler) (w : World) :
  no_duplicates w ->
  (no_duplicates (on event h w) /\ no_duplicates (off event h w)) /\
  (h ∈ handlers_for (JStr event) (on event h w) /\
   h ∉ handlers_for (JStr event) (off event h w)) /\
  on event h (on event h w) = on event h w /\
  (h ∉ handlers_for (JStr event) w ->
   handlers_for (JStr event) (off event h (on event h w)) = handlers_for (JStr event) w /\
   handlers_for (JStr event) (off event h w) = handlers_for (JStr event) w) /\
  (forall k h', (k <> event \/ h' <> h) ->
     (h' ∈ handlers_for (JStr k) (on event h w) <-> h' ∈ handlers_for (JStr k) w) /\
     (h' ∈ handlers_for (JStr k) (off event h w) <-> h' ∈ handlers_for (JStr k) w)).
Proof.
  intros Hnd.
  assert (Hon : h ∈ handlers_for (JStr event) (on event h w)).
  { rewrite on_handlers, bool_decide_eq_true_2 by reflexivity.
    case_bool_decide as Hin; [exact Hin |].
    apply elem_of_app. right. apply list_elem_of_singleton. reflexivity. }
  split; [split; [apply on_no_duplicates | apply off_no_duplicates]; exact Hnd |].
  split; [split; [exact Hon |] |].
  { rewrite off_handlers, bool_decide_eq_true_2 by reflexivity.
    intros Hin. apply list_elem_of_filter in Hin. destruct Hin as [Hne _]. congruence. }
  split.
  { unfold on at 1. fold (handlers_for (JStr event) (on event h w)).
    rewrite bool_decide_eq_true_2 by exact Hon.
    rewrite on_handlers, bool_decide_eq_true_2 by reflexivity.
    unfold on. cbn. fold (handlers_for (JStr event) w).
    rewrite insert_insert_eq. reflexivity. }
  split.
  { intros Hnot.
    assert (Hid : filter (fun h' => h' <> h) (handlers_for (JStr event) w)
                  = handlers_for (JStr event) w).
    { apply filter_all. intros x Hx ->. contradiction. }
    split.
    - rewrite off_handlers, bool_decide_eq_true_2 by reflexivity.
      rewrite on_handlers, bool_decide_eq_true_2 by reflexivity.
      rewrite bool_decide_eq_false_2 by exact Hnot.
      rewrite filter_app, Hid, filter_cons_False, filter_nil by (intros Hne; congruence).
      apply app_nil_r.
    - rewrite off_handlers, bool_decide_eq_true_2 by reflexivity. exact Hid. }
  intros k h' Hother. rewrite on_handlers, off_handlers.
  case_bool_decide as Ek; [subst k | split; reflexivity].
  assert (Hh : h' <> h) by (destruct Hother as [?|?]; congruence).
  split.
  - case_bool_decide as Hin; [reflexivity |].
    rewrite elem_of_app, list_elem_of_singleton. tauto.
  - rewrite list_elem_of_filter. tauto.
Qed.

End RegistryFacts.

Lemma registry_is_a_set_witness :
  no_duplicates (startup 0 [] [] ∅) /\
  WebSocketManager.handlers_for (JStr "auth_challenge")
    (WebSocketManager.off "auth_challenge" (OneShot "auth_challenge" 1)
       (WebSocketManager.on "auth_challenge" (OneShot "auth_challenge" 1) (startup 0 [] [] ∅)))
  = [].
Proof.
  assert (Hnd : no_duplicates (startup 0 [] [] ∅)).
  { intros k hs Hk. unfold startup, BalanceManager.subscribeToBalanceUpdates,
      WebSocketManager.on in Hk. cbn in Hk.
    destruct (decide (k = "balance_update")) as [->|Hne].
    - rewrite lookup_insert_eq in Hk. injection Hk as <-. cbn.
      rewrite lookup_empty. cbn. apply NoDup_singleton.
    - rewrite lookup_insert_ne, lookup_empty in Hk by congruence. discriminate. }
  split; [exact Hnd |].
  pose proof (registry_is_a_set "auth_challenge" (OneShot "auth_challenge" 1)
                (startup 0 [] [] ∅) Hnd) as (_ & _ & _ & Hoff & _).
  destruct Hoff as [Hoff _].
  - unfold WebSocketManager.handlers_for, startup,
      BalanceManager.subscribeToBalanceUpdates, WebSocketManager.on. cbn.
    rewrite lookup_insert_ne, lookup_empty by discriminate. cbn. apply not_elem_of_nil.
  - rewrite Hoff. unfold WebSocketManager.handlers_for, startup,
      BalanceManager.subscribeToBalanceUpdates, WebSocketManager.on. cbn.
    rewrite lookup_insert_ne, lookup_empty by discriminate. reflexivity.
Defined.

(** ** Further properties: flushing on a socket that stays open *)

Section FlushFacts.
Import WebSocketManager.

Lemma isConnected_open w i s :
  ws w = Some i -> sockets w !! i = Some s -> readyState s = OPEN -> isConnected w = true.
Proof.
  intros Hws Hs Hst. unfold isConnected, readyState_is, socket. rewrite Hws, Hs.
  apply bool_decide_eq_true_2. exact Hst.
Qed.

Lemma flush_loop_steady q : forall w i s fuel,
  messageQueue w = q -> ws w = Some i -> sockets w !! i = Some s ->
  readyState s = OPEN -> steady (length q) s -> (length q <= fuel)%nat ->
  wire (flush_loop fuel w) = (wire w ++ q)%list /\
  messageQueue (flush_loop fuel w) = [] /\
  ws (flush_loop fuel w) = Some i /\
  state_of i (flush_loop fuel w) = Some OPEN /\
  reconnectAttempts (flush_loop fuel w) = reconnectAttempts w /\
  nextId (flush_loop fuel w) = nextId w /\
  authInProgress (flush_loop fuel w) = authInProgress w.
Proof.
  induction q as [|m rest IH]; intros w i s fuel Hq Hws Hs Hst Hsteady Hfuel.
  - rewrite flush_loop_empty by exact Hq. rewrite app_nil_r.
    unfold state_of. rewrite Hs. cbn. rewrite Hst. repeat split; assumption || reflexivity.
  - destruct fuel as [|fuel]; [cbn in Hfuel; lia |].
    cbn [flush_loop]. rewrite Hq. unfold flush_turn.
    rewrite (isConnected_open (set_messageQueue rest w) i s) by assumption.
    unfold ws_send. cbn [ws set_messageQueue]. rewrite Hws. unfold transmit.
    cbn [sockets set_messageQueue]. rewrite Hs.
    set (s' := match script s with
               | st :: more => {| readyState := st; script := more |}
               | [] => s
               end).
    assert (Hs' : readyState s' = OPEN /\ steady (length rest) s').
    { subst s'. unfold steady in *. destruct (script s) as [|st more] eqn:Esc.
      - split; [exact Hst |]. rewrite ?Esc, take_nil. constructor.
      - cbn in Hsteady. apply Forall_cons in Hsteady. destruct Hsteady as [-> Hmore].
        split; [reflexivity | exact Hmore]. }
    destruct Hs' as [Hst' Hsteady'].
    match goal with |- context [flush_loop fuel ?w1] =>
      destruct (IH w1 i s' fuel) as (Hw & Hmq & Hws' & Hso & Hra & Hid & Hau)
    end.
    + reflexivity.
    + exact Hws.
    + cbn. apply list_lookup_insert_eq. eapply lookup_lt_Some. exact Hs.
    + exact Hst'.
    + exact Hsteady'.
    + cbn in Hfuel. lia.
    + rewrite Hw, Hmq, Hws', Hso, Hra, Hid, Hau. cbn.
      rewrite <- app_assoc. repeat split; reflexivity.
Qed.

(** X2: when the socket [this.ws] refers to opens and stays open while the
    queue is flushed, every queued message is transmitted, oldest first,
    the queue is empty afterwards and the attempt counter is back at 0; a
    message sent after that goes out at once, behind the flushed ones. *)
Theorem open_sends_queue_in_order (i : nat) (s : Socket) (t : Z) (w : World) :
  ws w = Some i -> sockets w !! i = Some s -> readyState s = CONNECTING ->
  steady (length (messageQueue w)) s ->
  let w' := deliver {| at_ms := t; what := SocketOpened i |} w in
  wire w' = (wire w ++ messageQueue w)%list /\
  messageQueue w' = [] /\
  reconnectAttempts w' = 0 /\
  isConnected w' = true /\
  (forall message,
     wire (send message w') = (wire w ++ messageQueue w ++ [frame message])%list /\
     messageQueue (send message w') = []).
Proof.
  intros Hws Hs Hst Hsteady w'.
  assert (Hflush :
    wire w' = (wire w ++ messageQueue w)%list /\ messageQueue w' = [] /\
    ws w' = Some i /\ state_of i w' = Some OPEN /\ reconnectAttempts w' = 0 /\
    nextId w' = nextId w /\ authInProgress w' = authInProgress w).
  { subst w'. unfold deliver. cbn [what at_ms].
    assert (Hso0 : state_of i (set_clock (Z.max (clock w) t) w) = Some CONNECTING).
    { unfold state_of. cbn. rewrite Hs. cbn. rewrite Hst. reflexivity. }
    rewrite Hso0. unfold handleOpen, flushMessageQueue, set_readyState.
    cbn [sockets set_clock]. rewrite Hs.
    match goal with |- context [flush_loop ?n ?w1] =>
      destruct (flush_loop_steady (messageQueue w) w1 i
                  {| readyState := OPEN; script := script s |} n)
        as (Hw & Hmq & Hws' & Hso & Hra & Hid & Hau)
    end; try reflexivity; try assumption.
    - cbn. apply list_lookup_insert_eq. eapply lookup_lt_Some. exact Hs.
    - rewrite Hw, Hmq, Hws', Hso, Hra, Hid, Hau. cbn. repeat split; reflexivity. }
  destruct Hflush as (Hw & Hmq & Hws' & Hso & Hra & _ & _).
  assert (Hconn : isConnected w' = true).
  { unfold state_of in Hso. destruct (sockets w' !! i) as [s'|] eqn:Es'; [| discriminate].
    cbn in Hso. injection Hso as Hso. exact (isConnected_open w' i s' Hws' Es' Hso). }
  split; [exact Hw |]. split; [exact Hmq |]. split; [exact Hra |]. split; [exact Hconn |].
  intros message. unfold send. rewrite Hconn.
  rewrite ws_send_wire by exact Hconn. rewrite ws_send_queue, Hw, Hmq, <- app_assoc. split; reflexivity.
Qed.

End FlushFacts.

Lemma open_sends_queue_in_order_witness :
  wire (deliver (opened 0) queued_world) = ["m1"; "m2"] /\
  messageQueue (deliver (opened 0) queued_world) = [] /\
  wire (WebSocketManager.send (JStr "m3") (deliver (opened 0) queued_world))
  = ["m1"; "m2"; "m3"].
Proof.
  destruct (open_sends_queue_in_order 0 {| readyState := CONNECTING; script := [] |} 5
              queued_world eq_refl eq_refl eq_refl) as (Hw & Hq & _ & _ & Hsend).
  - constructor.
  - split; [exact Hw |]. split; [exact Hq |]. exact (proj1 (Hsend (JStr "m3"))).
Defined.


(** ** Further properties: what the delivery of a message does *)

Section DispatchFacts.
Import WebSocketManager Closures.

Lemma same_transport_refl w : same_transport w w.
Proof. repeat split. Qed.

Lemma same_transport_trans w1 w2 w3 :
  same_transport w1 w2 -> same_transport w2 w3 -> same_transport w1 w3.
Proof.
  unfold same_transport. intros H1 H2.
  decompose [and] H1. decompose [and] H2. repeat split; congruence.
Qed.

Lemma off_transport event h w : same_transport w (off event h w).
Proof. unfold off. destruct (messageHandlers w !! event); repeat split. Qed.

Lemma resolve_transport p v w : same_transport w (resolve p v w).
Proof. unfold resolve. destruct (settled w !! p); repeat split. Qed.

Lemma invoke_transport h m w : same_transport w (invoke h m w).
Proof.
  destruct h as [mt q | rid q | c]; cbn [invoke].
  - eapply same_transport_trans; [apply off_transport | apply resolve_transport].
  - destruct (answers rid m) as [[|]|]; try apply same_transport_refl.
    eapply same_transport_trans; [apply off_transport | apply resolve_transport].
  - destruct (pushed_balance m) as [[[[] b]|]|]; repeat split.
Qed.

Lemma forEach_transport key m snapshot : forall w,
  same_transport w (forEach invoke key snapshot m w).
Proof.
  induction snapshot as [|h rest IH]; intros w; [apply same_transport_refl |].
  cbn [forEach]. eapply same_transport_trans; [| apply IH].
  case_bool_decide; [apply invoke_transport | apply same_transport_refl].
Qed.

Lemma handleMessage_transport data w : same_transport w (handleMessage invoke data w).
Proof.
  unfold handleMessage. destruct data as [m|]; [| apply same_transport_refl].
  destruct (getMessageType m); [| apply same_transport_refl].
  eapply same_transport_trans; apply forEach_transport.
Qed.

Lemma off_clock event h w : clock (off event h w) = clock w.
Proof. unfold off. destruct (messageHandlers w !! event); reflexivity. Qed.

Lemma resolve_clock p v w : clock (resolve p v w) = clock w.
Proof. unfold resolve. destruct (settled w !! p); reflexivity. Qed.

Lemma invoke_clock h m w : clock (invoke h m w) = clock w.
Proof.
  destruct h as [mt q | rid q | c]; cbn [invoke].
  - now rewrite resolve_clock, off_clock.
  - destruct (answers rid m) as [[|]|]; try reflexivity.
    now rewrite resolve_clock, off_clock.
  - destruct (pushed_balance m) as [[[[] b]|]|]; reflexivity.
Qed.

Lemma forEach_clock key m snapshot : forall w,
  clock (forEach invoke key snapshot m w) = clock w.
Proof.
  induction snapshot as [|h rest IH]; intros w; [reflexivity |].
  cbn [forEach]. rewrite IH. case_bool_decide; [apply invoke_clock | reflexivity].
Qed.

Lemma handleMessage_clock data w : clock (handleMessage invoke data w) = clock w.
Proof.
  unfold handleMessage. destruct data as [m|]; [| reflexivity].
  destruct (getMessageType m); [| reflexivity].
  now rewrite !forEach_clock.
Qed.

(** The arrival of a message changes the clock and what its handlers change. *)
Lemma deliver_message_transport ev w :
  is_message ev ->
  same_transport w (deliver ev w) /\ clock (deliver ev w) = Z.max (clock w) (at_ms ev).
Proof.
  unfold is_message, deliver. destruct (what ev) as [| | |i data|]; try contradiction; intros _.
  - split; [repeat split | reflexivity].
  - destruct (state_of i _) as [[]|]; try (split; [repeat split | reflexivity]).
    split; [| now rewrite handleMessage_clock].
    eapply same_transport_trans; [| apply handleMessage_transport]. repeat split.
Qed.

Lemma handlers_for_lookup k w hs :
  messageHandlers w !! k = Some hs -> handlers_for (JStr k) w = hs.
Proof. intros H. unfold handlers_for. rewrite H. reflexivity. Qed.

Lemma shrinks_refl w : shrinks w w.
Proof. intros k h H. exact H. Qed.

Lemma shrinks_trans w1 w2 w3 : shrinks w1 w2 -> shrinks w2 w3 -> shrinks w1 w3.
Proof. intros H1 H2 k h H. apply H1, H2, H. Qed.

Lemma same_registry_shrinks w w' : same_registry w w' -> shrinks w w'.
Proof. intros (Hh & _) k h. unfold handlers_for. rewrite Hh. auto. Qed.

Lemma off_shrinks event h w : shrinks w (off event h w).
Proof.
  intros k h'. rewrite off_handlers. case_bool_decide as E; [subst k | auto].
  intros Hin. apply list_elem_of_filter in Hin. tauto.
Qed.

Lemma resolve_handlers p v w key : handlers_for key (resolve p v w) = handlers_for key w.
Proof. unfold resolve. destruct (settled w !! p); reflexivity. Qed.

Lemma invoke_shrinks h m w : shrinks w (invoke h m w).
Proof.
  destruct h as [mt q | rid q | c]; cbn [invoke].
  - intros k h'. rewrite resolve_handlers. apply off_shrinks.
  - destruct (answers rid m) as [[|]|]; try apply shrinks_refl.
    intros k h'. rewrite resolve_handlers. apply off_shrinks.
  - destruct (pushed_balance m) as [[[[] b]|]|]; intros k h' H; exact H.
Qed.

Lemma forEach_shrinks key m snapshot : forall w, shrinks w (forEach invoke key snapshot m w).
Proof.
  induction snapshot as [|h rest IH]; intros w; [apply shrinks_refl |].
  cbn [forEach]. eapply shrinks_trans; [| apply IH].
  case_bool_decide; [apply invoke_shrinks | apply shrinks_refl].
Qed.

Lemma handleMessage_shrinks data w : shrinks w (handleMessage invoke data w).
Proof.
  unfold handleMessage. destruct data as [m|]; [| apply shrinks_refl].
  destruct (getMessageType m); [| apply shrinks_refl].
  eapply shrinks_trans; apply forEach_shrinks.
Qed.

Lemma deliver_shrinks ev w : shrinks w (deliver ev w).
Proof.
  unfold deliver. set (w1 := set_clock _ w).
  assert (H1 : shrinks w w1) by (intros k h H; exact H).
  eapply shrinks_trans; [exact H1 |].
  destruct (what ev) as [i | i | i | i data | id].
  - destruct (state_of i w1) as [[]|]; try apply shrinks_refl.
    apply same_registry_shrinks.
    eapply same_registry_trans; [apply set_readyState_registry | apply handleOpen_registry].
  - destruct (state_of i w1) as [[]|]; try apply shrinks_refl;
      (apply same_registry_shrinks;
       eapply same_registry_trans; [apply set_readyState_registry | apply handleClose_registry]).
  - apply shrinks_refl.
  - destruct (state_of i w1) as [[]|]; try apply shrinks_refl.
    apply handleMessage_shrinks.
  - destruct (timers w1 !! id); [| apply shrinks_refl].
    apply same_registry_shrinks.
    eapply same_registry_trans; [| apply connect_registry]. repeat split; cbn; lia.
Qed.

Lemma until_settled_shrinks p deadline evs : forall w r evs' w',
  until_settled p deadline evs w = (r, evs', w') -> shrinks w w'.
Proof.
  induction evs as [|ev rest IH]; intros w r evs' w'; cbn [until_settled].
  - intros [= _ _ <-]. intros k h H; exact H.
  - destruct (deadline <=? at_ms ev); [intros [= _ _ <-]; intros k h H; exact H |].
    destruct (settled (deliver ev w) !! p).
    + intros [= _ _ <-]. apply deliver_shrinks.
    + intros H. eapply shrinks_trans; [apply deliver_shrinks | eapply IH; exact H].
Qed.

Lemma owned_shrinks p h0 key0 w w' : shrinks w w' -> owned p h0 key0 w -> owned p h0 key0 w'.
Proof.
  intros Hs Ho k hs h Hk Hin Hid.
  assert (Hin' : h ∈ handlers_for (JStr k) w').
  { rewrite (handlers_for_lookup _ _ _ Hk). exact Hin. }
  apply Hs in Hin'. destruct (handlers_for_elem _ _ _ Hin') as (k' & hs' & [= <-] & Hk' & Hh').
  eapply Ho; eassumption.
Qed.

Lemma owned_carrier p h0 key0 w k h :
  owned p h0 key0 w -> h ∈ handlers_for (JStr k) w -> id_of h = p -> h = h0 /\ k = key0.
Proof.
  intros Ho Hin Hid.
  destruct (handlers_for_elem _ _ _ Hin) as (k' & hs' & [= <-] & Hk' & Hh').
  eapply Ho; eassumption.
Qed.

Lemma resolve_settled_other p q v w : q <> p -> settled (resolve q v w) !! p = settled w !! p.
Proof.
  intros Hne. unfold resolve. destruct (settled w !! q); [reflexivity |].
  cbn. apply lookup_insert_ne. exact Hne.
Qed.

Lemma resolve_settled_stable p q v v' w :
  settled w !! p = Some v -> settled (resolve q v' w) !! p = Some v.
Proof.
  intros Hp. unfold resolve. destruct (settled w !! q) eqn:E; [exact Hp |].
  cbn. destruct (decide (q = p)) as [->|Hne]; [congruence |].
  rewrite lookup_insert_ne by exact Hne. exact Hp.
Qed.

Lemma resolve_settles p v w : settled w !! p = None -> settled (resolve p v w) !! p = Some v.
Proof. intros Hp. unfold resolve. rewrite Hp. cbn. apply lookup_insert_eq. Qed.

Lemma invoke_settled_stable p v h m w :
  settled w !! p = Some v -> settled (invoke h m w) !! p = Some v.
Proof.
  intros Hp. destruct h as [mt q | rid q | c]; cbn [invoke].
  - apply resolve_settled_stable. rewrite off_settled. exact Hp.
  - destruct (answers rid m) as [[|]|]; try exact Hp.
    apply resolve_settled_stable. rewrite off_settled. exact Hp.
  - destruct (pushed_balance m) as [[[[] b]|]|]; exact Hp.
Qed.

Lemma invoke_settled_other p h m w :
  id_of h <> p -> settled (invoke h m w) !! p = settled w !! p.
Proof.
  intros Hne. destruct h as [mt q | rid q | c]; cbn [invoke id_of] in *.
  - rewrite resolve_settled_other by exact Hne. now rewrite off_settled.
  - destruct (answers rid m) as [[|]|]; try reflexivity.
    rewrite resolve_settled_other by exact Hne. now rewrite off_settled.
  - destruct (pushed_balance m) as [[[[] b]|]|]; reflexivity.
Qed.

(** Another handler's turn leaves a registered handler registered. *)
Lemma invoke_keeps_other h0 key0 h m w :
  h <> h0 -> h0 ∈ handlers_for (JStr key0) w -> h0 ∈ handlers_for (JStr key0) (invoke h m w).
Proof.
  intros Hne Hin.
  assert (Hoff : forall event, h0 ∈ handlers_for (JStr key0) (off event h w)).
  { intros event. rewrite off_handlers. case_bool_decide as E; [subst key0 | exact Hin].
    apply list_elem_of_filter. split; [congruence | exact Hin]. }
  destruct h as [mt q | rid q | c]; cbn [invoke].
  - rewrite resolve_handlers. apply Hoff.
  - destruct (answers rid m) as [[|]|]; try exact Hin.
    rewrite resolve_handlers. apply Hoff.
  - destruct (pushed_balance m) as [[[[] b]|]|]; exact Hin.
Qed.

Section Waiter.

Variables (p : nat) (h0 : Handler) (key0 : string).
Hypothesis Hkey : own_key h0 = Some key0.
Hypothesis Hid : id_of h0 = p.

(** The waiter's own handler, on its turn, is unregistered afterwards
    unless it declined the message. *)
Lemma invoke_own_gone m w :
  settled (invoke h0 m w) !! p = settled w !! p \/
  h0 ∉ handlers_for (JStr key0) (invoke h0 m w).
Proof.
  assert (Hoff : h0 ∉ handlers_for (JStr key0) (off key0 h0 w)).
  { rewrite off_handlers, bool_decide_eq_true_2 by reflexivity.
    intros Hin. apply list_elem_of_filter in Hin. destruct Hin as [Hne _]. congruence. }
  destruct h0 as [mt q | rid q | c]; cbn [invoke own_key id_of] in *.
  - injection Hkey as ->. right. rewrite resolve_handlers. exact Hoff.
  - injection Hkey as <-. destruct (answers rid m) as [[|]|]; auto.
    right. rewrite resolve_handlers. exact Hoff.
  - discriminate.
Qed.

Lemma invoke_pending_or_gone h k m w :
  h ∈ handlers_for (JStr k) w ->
  pending_or_gone p h0 key0 w -> pending_or_gone p h0 key0 (invoke h m w).
Proof.
  intros Hin [Ho Hpg]. split; [eapply owned_shrinks; [apply invoke_shrinks | exact Ho] |].
  destruct Hpg as [Hp | Hgone].
  - destruct (decide (id_of h = p)) as [Hidh | Hne].
    + destruct (owned_carrier _ _ _ _ _ _ Ho Hin Hidh) as [-> ->].
      destruct (invoke_own_gone m w) as [Heq | Hg]; [left; congruence | right; exact Hg].
    + left. rewrite invoke_settled_other by exact Hne. exact Hp.
  - right. intros Hin'. apply Hgone. eapply invoke_shrinks. exact Hin'.
Qed.

Lemma forEach_pending_or_gone key m snapshot : forall w,
  pending_or_gone p h0 key0 w -> pending_or_gone p h0 key0 (forEach invoke key snapshot m w).
Proof.
  induction snapshot as [|h rest IH]; intros w Hw; [exact Hw |].
  cbn [forEach]. apply IH. case_bool_decide as Hin; [| exact Hw].
  destruct (handlers_for_elem _ _ _ Hin) as (k & hs & -> & _ & _).
  eapply invoke_pending_or_gone; eassumption.
Qed.

Lemma same_registry_pending_or_gone w w' :
  same_registry w w' -> pending_or_gone p h0 key0 w -> pending_or_gone p h0 key0 w'.
Proof.
  intros Hr [Ho Hpg]. pose proof Hr as (Hh & Hs & _).
  split; [eapply owned_shrinks; [apply same_registry_shrinks; exact Hr | exact Ho] |].
  unfold handlers_for. rewrite Hh, Hs. exact Hpg.
Qed.

Lemma deliver_pending_or_gone ev w :
  pending_or_gone p h0 key0 w -> pending_or_gone p h0 key0 (deliver ev w).
Proof.
  intros Hw. unfold deliver. set (w1 := set_clock _ w).
  assert (Hw1 : pending_or_gone p h0 key0 w1) by exact Hw.
  destruct (what ev) as [i | i | i | i data | id].
  - destruct (state_of i w1) as [[]|]; try exact Hw1.
    eapply same_registry_pending_or_gone; [| exact Hw1].
    eapply same_registry_trans; [apply set_readyState_registry | apply handleOpen_registry].
  - destruct (state_of i w1) as [[]|]; try exact Hw1;
      (eapply same_registry_pending_or_gone; [| exact Hw1];
       eapply same_registry_trans; [apply set_readyState_registry | apply handleClose_registry]).
  - exact Hw1.
  - destruct (state_of i w1) as [[]|]; try exact Hw1.
    unfold handleMessage. destruct data as [m|]; [| exact Hw1].
    destruct (getMessageType m); [| exact Hw1].
    apply forEach_pending_or_gone, forEach_pending_or_gone, Hw1.
  - destruct (timers w1 !! id); [| exact Hw1].
    eapply same_registry_pending_or_gone; [| exact Hw1].
    eapply same_registry_trans; [| apply connect_registry]. repeat split; cbn; lia.
Qed.

Lemma until_settled_pending_or_gone deadline evs : forall w r evs' w',
  pending_or_gone p h0 key0 w ->
  until_settled p deadline evs w = (r, evs', w') ->
  pending_or_gone p h0 key0 w' /\ (forall v, r = Some v -> settled w' !! p = Some v).
Proof.
  induction evs as [|ev rest IH]; intros w r evs' w' Hw; cbn [until_settled].
  - intros [= <- _ <-]. split; [exact Hw | discriminate].
  - destruct (deadline <=? at_ms ev); [intros [= <- _ <-]; split; [exact Hw | discriminate] |].
    pose proof (deliver_pending_or_gone ev w Hw) as Hw1.
    destruct (settled (deliver ev w) !! p) as [v|] eqn:E.
    + intros [= <- _ <-]. split; [exact Hw1 |]. intros v' [= <-]. exact E.
    + apply IH. exact Hw1.
Qed.

(** Once the wait is over, nothing registered carries the waiter's
    identity. *)
Lemma wait_over_no_carrier deadline evs w r evs' w' :
  waiting p h0 key0 w ->
  until_settled p deadline evs w = (r, evs', w') ->
  ~ carries p (match r with Some _ => w' | None => off key0 h0 w' end).
Proof.
  intros [Hp Ho] Hrun.
  destruct (until_settled_pending_or_gone deadline evs w r evs' w') as [[Ho' Hpg] Hr];
    [split; [exact Ho | left; exact Hp] | exact Hrun |].
  destruct r as [v|].
  - intros (k & h & Hin & Hidh).
    destruct (owned_carrier _ _ _ _ _ _ Ho' Hin Hidh) as [-> ->].
    destruct Hpg as [Hnone | Hgone]; [| contradiction].
    rewrite (Hr v eq_refl) in Hnone. discriminate.
  - intros (k & h & Hin & Hidh).
    pose proof (off_shrinks key0 h0 w' k h Hin) as Hin'.
    destruct (owned_carrier _ _ _ _ _ _ Ho' Hin' Hidh) as [-> ->].
    rewrite off_handlers, bool_decide_eq_true_2 in Hin by reflexivity.
    apply list_elem_of_filter in Hin. destruct Hin as [Hne _]. congruence.
Qed.

End Waiter.

Section Arrival.

Variables (p : nat) (h0 : Handler) (key0 : string) (m : jsval).
Hypothesis Hkey : own_key h0 = Some key0.
Hypothesis Hid : id_of h0 = p.
Hypothesis Hacc : accepts h0 m.

Lemma invoke_own_done w :
  settled w !! p = None -> settled (invoke h0 m w) !! p = Some m.
Proof.
  intros Hp. destruct h0 as [mt q | rid q | c]; cbn [invoke accepts id_of] in *.
  - subst q. apply resolve_settles. now rewrite off_settled.
  - subst q. rewrite Hacc. apply resolve_settles. now rewrite off_settled.
  - contradiction.
Qed.

Lemma invoke_pending_or_done h k w :
  h ∈ handlers_for (JStr k) w ->
  pending_or_done p h0 key0 m w ->
  pending_or_done p h0 key0 m (invoke h m w) /\
  (h = h0 -> settled (invoke h m w) !! p = Some m).
Proof.
  intros Hin [Ho Hpd].
  assert (Ho' : owned p h0 key0 (invoke h m w))
    by (eapply owned_shrinks; [apply invoke_shrinks | exact Ho]).
  destruct Hpd as [[Hp Hreg] | Hdone].
  - destruct (decide (h = h0)) as [-> | Hne].
    + pose proof (invoke_own_done w Hp) as Hs. split; [split; [exact Ho' | right; exact Hs] | auto].
    + split; [| intros; contradiction]. split; [exact Ho' |]. left. split.
      * rewrite invoke_settled_other; [exact Hp |]. intros Hidh.
        destruct (owned_carrier _ _ _ _ _ _ Ho Hin Hidh) as [-> _]. contradiction.
      * apply invoke_keeps_other; assumption.
  - pose proof (invoke_settled_stable p m h m w Hdone) as Hs.
    split; [split; [exact Ho' | right; exact Hs] | auto].
Qed.

Lemma forEach_settled_stable key v m' snapshot : forall w,
  settled w !! p = Some v -> settled (forEach invoke key snapshot m' w) !! p = Some v.
Proof.
  induction snapshot as [|h rest IH]; intros w Hp; [exact Hp |].
  cbn [forEach]. apply IH. case_bool_decide; [now apply invoke_settled_stable | exact Hp].
Qed.

Lemma forEach_pending_or_done key snapshot : forall w,
  pending_or_done p h0 key0 m w ->
  pending_or_done p h0 key0 m (forEach invoke key snapshot m w) /\
  (key = JStr key0 -> h0 ∈ snapshot -> settled (forEach invoke key snapshot m w) !! p = Some m).
Proof.
  induction snapshot as [|h rest IH]; intros w Hw.
  - split; [exact Hw |]. intros _ Hin. now apply elem_of_nil in Hin.
  - cbn [forEach].
    set (w1 := if bool_decide (h ∈ handlers_for key w) then invoke h m w else w).
    assert (Hw1 : pending_or_done p h0 key0 m w1 /\
                  (key = JStr key0 -> h = h0 -> settled w1 !! p = Some m)).
    { subst w1. case_bool_decide as Hin.
      - destruct (handlers_for_elem _ _ _ Hin) as (k & hs & -> & _ & _).
        destruct (invoke_pending_or_done h k w Hin Hw) as [H1 H2]. split; [exact H1 | auto].
      - split; [exact Hw |]. intros -> ->.
        destruct Hw as [_ [[_ Hreg] | Hdone]]; [contradiction | exact Hdone]. }
    destruct Hw1 as [Hw1 Hhead]. destruct (IH w1 Hw1) as [Hfin Htail].
    split; [exact Hfin |]. intros Hk Hin. apply elem_of_cons in Hin.
    destruct Hin as [-> | Hin]; [| now apply Htail].
    apply forEach_settled_stable. now apply Hhead.
Qed.

(** A message the waiter's handler accepts, routed to the waiter's key,
    resolves the waiter's promise. *)
Lemma handleMessage_settles w :
  waiting p h0 key0 w -> h0 ∈ handlers_for (JStr key0) w ->
  (getMessageType m = Return (JStr key0) \/
   (key0 = "message" /\ exists key, getMessageType m = Return key)) ->
  settled (handleMessage invoke (Some m) w) !! p = Some m.
Proof.
  intros [Hp Ho] Hreg Hroute. unfold handleMessage.
  assert (Hw : pending_or_done p h0 key0 m w) by (split; [exact Ho | left; split; assumption]).
  destruct Hroute as [Htype | [Hk0 (key & Htype)]]; rewrite Htype.
  - apply forEach_settled_stable.
    apply (proj2 (forEach_pending_or_done (JStr key0) _ w Hw)); [reflexivity | exact Hreg].
  - destruct (forEach_pending_or_done key (handlers_for key w) w Hw) as [Hw1 _].
    set (w1 := forEach invoke key (handlers_for key w) m w) in *.
    destruct (forEach_pending_or_done (JStr "message") (handlers_for (JStr "message") w1) w1 Hw1)
      as [_ Hfin].
    destruct Hw1 as [_ [[_ Hreg1] | Hdone]].
    + apply Hfin; [now rewrite Hk0 | now rewrite <- Hk0].
    + now apply forEach_settled_stable.
Qed.

End Arrival.

(** The tasks [pre], run in order. *)
Lemma until_settled_skip p h0 key0 deadline pre tl : forall w,
  waiting p h0 key0 w ->
  Forall (fun e => at_ms e < deadline /\ quiet p h0 key0 e) pre ->
  until_settled p deadline (pre ++ tl) w
  = until_settled p deadline tl (foldl (fun w e => deliver e w) w pre) /\
  waiting p h0 key0 (foldl (fun w e => deliver e w) w pre).
Proof.
  induction pre as [|e pre IH]; intros w Hw Hall; [split; [reflexivity | exact Hw] |].
  apply Forall_cons in Hall. destruct Hall as [[Hlt Hq] Hall].
  cbn [app until_settled foldl].
  destruct (Z.leb_spec deadline (at_ms e)) as [|_]; [lia |].
  pose proof (deliver_waiting p h0 key0 e w Hq Hw) as Hw1.
  rewrite (proj1 Hw1). apply IH; assumption.
Qed.

Lemma run_messages_transport pre : forall w,
  Forall is_message pre ->
  same_transport w (foldl (fun w e => deliver e w) w pre) /\
  clock w <= clock (foldl (fun w e => deliver e w) w pre).
Proof.
  induction pre as [|e pre IH]; intros w Hall; [split; [apply same_transport_refl | cbn; lia] |].
  apply Forall_cons in Hall. destruct Hall as [He Hall]. cbn [foldl].
  destruct (deliver_message_transport e w He) as [Ht Hc].
  destruct (IH (deliver e w) Hall) as [Ht' Hc'].
  split; [eapply same_transport_trans; eassumption | lia].
Qed.

End DispatchFacts.

(** ** Further properties: disconnecting and logging out *)

Section DisconnectFacts.
Import WebSocketManager.

(** X3: [disconnect()] is a hard reset. Afterwards the manager is not
    connected and reports DISCONNECTED, the pending reconnection timer is
    cancelled, the attempt counter is 0 and the queue is empty; the queued
    messages were dropped, not sent; the registered handlers stay; a
    second [disconnect()] changes nothing. *)
Theorem disconnect_resets (w : World) :
  isConnected (disconnect w) = false /\
  getState (disconnect w) = "DISCONNECTED" /\
  ws (disconnect w) = None /\
  messageQueue (disconnect w) = [] /\
  wire (disconnect w) = wire w /\
  reconnectAttempts (disconnect w) = 0 /\
  reconnectTimeout (disconnect w) = None /\
  (forall id, reconnectTimeout w = Some id -> timers (disconnect w) !! id = None) /\
  messageHandlers (disconnect w) = messageHandlers w /\
  disconnect (disconnect w) = disconnect w.
Proof.
  destruct w as [clk socks upc wr tms sto ent stl nid ws0 ra mq mh rt aip ap bc].
  unfold disconnect, isConnected, getState, readyState_is, socket; cbn.
  destruct rt as [id|]; destruct ws0 as [i|]; cbn;
    try (destruct (socks !! i) as [s|] eqn:Es; cbn);
    repeat split; try reflexivity; try discriminate;
    try (intros id' [= <-]; apply lookup_delete_eq).
Qed.

End DisconnectFacts.

Section LogoutFacts.
Import WebSocketManager.

(** X4: [logout()] does not keep the client logged out. It closes the
    socket and clears the guard, so [isAuthenticated()] is false; but the
    close event of that socket reaches [handleClose], which arms a
    reconnection after 2000 ms; when the timer fires a new socket is
    created, and as soon as it opens [isAuthenticated()] is true again,
    without any handshake. *)
Theorem logout_reconnects (i : nat) (s : Socket) (t1 t2 t3 : Z) (w : World) :
  ws w = Some i -> sockets w !! i = Some s -> readyState s <> CLOSED ->
  head (upcoming w) <> Some None ->
  let w1 := AuthManager.logout w in
  let w2 := deliver {| at_ms := t1; what := SocketClosed i |} w1 in
  let w3 := deliver {| at_ms := t2; what := TimerFired (nextId w) |} w2 in
  let w4 := deliver {| at_ms := t3; what := SocketOpened (length (sockets w)) |} w3 in
  AuthManager.isAuthenticated w1 = false /\
  (reconnectTimeout w2 = Some (nextId w) /\ timers w2 !! nextId w = Some 2000) /\
  (ws w3 = Some (length (sockets w)) /\ getState w3 = "CONNECTING") /\
  AuthManager.isAuthenticated w4 = true.
Proof.
  intros Hws Hs Hst Hup w1 w2 w3 w4.
  destruct w as [clk socks upc wr tms sto ent stl nid ws0 ra mq mh rt aip ap bc].
  cbn in Hws, Hs, Hup. subst ws0. cbn [nextId sockets] in *.
  assert (Hlt : (i < length socks)%nat) by (eapply lookup_lt_Some; exact Hs).
  set (closing := {| readyState := match readyState s with CLOSED => CLOSED | _ => CLOSING end;
                     script := script s |}).
  assert (Hclosing : readyState closing = CLOSING)
    by (subst closing; cbn; destruct (readyState s); congruence).
  assert (Hscript : script closing = script s) by reflexivity.
  set (tms1 := match rt with Some id => delete id tms | None => tms end).
  assert (E1 : w1 = {| clock := clk; sockets := <[i := closing]> socks; upcoming := upc;
                       wire := wr; timers := tms1; storage := sto; entropy := ent;
                       settled := stl; nextId := nid; ws := None; reconnectAttempts := 0;
                       messageQueue := []; messageHandlers := mh; reconnectTimeout := None;
                       authInProgress := false; authPromise := None; balanceCache := bc |}).
  { subst w1 tms1 closing. unfold AuthManager.logout, disconnect. cbn.
    destruct rt; cbn; rewrite Hs; reflexivity. }
  clearbody closing tms1.
  assert (E2 : w2 = {| clock := Z.max clk t1;
                       sockets := <[i := {| readyState := CLOSED; script := script s |}]> socks;
                       upcoming := upc;
                       wire := wr; timers := <[nid := 2000]> tms1; storage := sto; entropy := ent;
                       settled := stl; nextId := S nid; ws := None; reconnectAttempts := 1;
                       messageQueue := []; messageHandlers := mh; reconnectTimeout := Some nid;
                       authInProgress := false; authPromise := None; balanceCache := bc |}).
  { subst w2. rewrite E1. unfold deliver, state_of. cbn.
    rewrite list_lookup_insert_eq by exact Hlt. cbn. rewrite Hclosing.
    unfold handleClose, set_readyState. cbn.
    rewrite list_lookup_insert_eq by exact Hlt. cbn.
    rewrite list_insert_insert_eq, Hscript. reflexivity. }
  set (sc := match upc with Some sc :: _ => sc | _ => [] end).
  set (closed := {| readyState := CLOSED; script := script s |}) in *.
  assert (E3 : w3 = {| clock := Z.max (Z.max clk t1) t2;
                       sockets := <[i := closed]> socks ++ [{| readyState := CONNECTING; script := sc |}];
                       upcoming := tail upc;
                       wire := wr; timers := delete nid (<[nid := 2000]> tms1);
                       storage := sto; entropy := ent;
                       settled := stl; nextId := S nid; ws := Some (length socks);
                       reconnectAttempts := 1;
                       messageQueue := []; messageHandlers := mh; reconnectTimeout := Some nid;
                       authInProgress := false; authPromise := None; balanceCache := bc |}).
  { subst w3. rewrite E2. unfold deliver. cbn.
    rewrite lookup_insert_eq. unfold connect, isConnected, readyState_is, socket. cbn.
    subst sc. rewrite length_insert.
    destruct upc as [|[sc0|] rest]; cbn; [reflexivity | reflexivity |].
    exfalso. apply Hup. reflexivity. }
  assert (Hnew : (<[i := closed]> socks ++ [{| readyState := CONNECTING; script := sc |}])%list
                   !! length socks = Some {| readyState := CONNECTING; script := sc |}).
  { rewrite lookup_app_r by (rewrite length_insert; lia).
    rewrite length_insert, Nat.sub_diag. reflexivity. }
  split.
  { rewrite E1. reflexivity. }
  split.
  { rewrite E2. cbn. split; [reflexivity | apply lookup_insert_eq]. }
  split.
  { rewrite E3. unfold getState, socket. cbn. rewrite Hnew. split; reflexivity. }
  subst w4. rewrite E3. unfold deliver, state_of. cbn. rewrite Hnew. cbn.
  unfold handleOpen, set_readyState, flushMessageQueue. cbn. rewrite Hnew. cbn.
  unfold AuthManager.isAuthenticated, isConnected, readyState_is, socket. cbn.
  rewrite list_lookup_insert_eq by (rewrite length_app, length_insert; cbn; lia).
  reflexivity.
Qed.
End LogoutFacts.

Lemma logout_reconnects_witness :
  AuthManager.isAuthenticated connected_world = true /\
  AuthManager.isAuthenticated (AuthManager.logout connected_world) = false /\
  AuthManager.isAuthenticated
    (deliver {| at_ms := 2030; what := SocketOpened 1 |}
       (deliver {| at_ms := 2010; what := TimerFired 1 |}
          (deliver {| at_ms := 10; what := SocketClosed 0 |}
             (AuthManager.logout connected_world)))) = true.
Proof.
  split; [reflexivity |].
  destruct (logout_reconnects 0 {| readyState := OPEN; script := [] |} 10 2010 2030
              connected_world eq_refl eq_refl) as (H1 & _ & _ & H4).
  - discriminate.
  - discriminate.
  - split; [exact H1 | exact H4].
Defined.

(** ** Further properties: the connection state and the routing of messages *)

Section RoutingFacts.
Import WebSocketManager.

(** X5: [getState()] agrees with [isConnected()]: it reports CONNECTED
    exactly when the manager is connected, DISCONNECTED exactly when there
    is no socket or the socket is closed, and never UNKNOWN; after a
    [connect()] that created a socket it reports CONNECTING, and after a
    close event DISCONNECTED, also while a reconnection is scheduled. *)
Theorem getState_spec (w : World) :
  (getState w = "CONNECTED" <-> isConnected w = true) /\
  (getState w = "DISCONNECTED" <-> (socket w = None \/ readyState_is CLOSED w = true)) /\
  getState w <> "UNKNOWN" /\
  (isConnected w = false -> head (upcoming w) <> Some None ->
   getState (connect w) = "CONNECTING") /\
  getState (handleClose w) = "DISCONNECTED".
Proof.
  split; [| split; [| split; [| split]]].
  - unfold getState, isConnected, readyState_is.
    destruct (socket w) as [s|]; [| split; discriminate].
    destruct (readyState s); split; intros H; try discriminate; try reflexivity.
  - unfold getState, readyState_is.
    destruct (socket w) as [s|]; [| split; auto].
    destruct (readyState s); split; intros H; try discriminate; try reflexivity;
      try (destruct H as [H|H]; discriminate); auto.
  - unfold getState. destruct (socket w) as [s|]; [destruct (readyState s) |]; discriminate.
  - intros Hc Hup. unfold connect. rewrite Hc.
    destruct (upcoming w) as [|[sc|] rest]; [| | exfalso; apply Hup; reflexivity];
      unfold getState, socket; cbn;
      (rewrite lookup_app_r by lia); rewrite Nat.sub_diag; reflexivity.
  - unfold handleClose, getState, socket.
    destruct (scheduleReconnect_untouched (set_ws None w)) as (_ & _ & -> & _). reflexivity.
Qed.

Lemma truthy_method_cases res :
  (truthy res && isArray res = true -> exists items, res = JArr items) /\
  (forall items, truthy (JArr items) && isArray (JArr items) = true).
Proof.
  split; [| reflexivity].
  destruct res; cbn; rewrite ?andb_false_r; try discriminate. eauto.
Qed.

Lemma getMessageType_returns message :
  message <> JNull -> message <> JUndefined ->
  exists key, getMessageType message = Return key /\ truthy key = true.
Proof.
  intros Hnull Hundef. unfold getMessageType.
  assert (Hget : forall k, exists v, get message k = Return v).
  { intros k. destruct message; cbn; eauto; congruence. }
  destruct (Hget "res") as [res ->]. cbn [Js.bind].
  destruct (truthy res && isArray res) eqn:Earr.
  - destruct (proj1 (truthy_method_cases res) Earr) as [items ->].
    cbn [at_index Js.bind andb].
    destruct (truthy (default JUndefined (items !! 1%nat))) eqn:Em; [eauto |].
    destruct (Hget "type") as [ty ->]. cbn [Js.bind].
    destruct (truthy ty) eqn:Et; eauto.
  - cbn [Js.bind andb]. destruct (Hget "type") as [ty ->]. cbn [Js.bind].
    destruct (truthy ty) eqn:Et; eauto.
Qed.

Lemma getMessageType_method message items method :
  get message "res" = Return (JArr items) -> items !! 1%nat = Some method ->
  truthy method = true -> getMessageType message = Return method.
Proof.
  intros Hres Hm Ht. unfold getMessageType. rewrite Hres. cbn. rewrite Hm. cbn.
  rewrite Ht. reflexivity.
Qed.

Lemma getMessageType_generic message res ty :
  get message "res" = Return res ->
  (forall items method, res = JArr items -> items !! 1%nat = Some method ->
                        truthy method = false) ->
  get message "type" = Return ty ->
  getMessageType message = Return (if truthy ty then ty else JStr "unknown").
Proof.
  intros Hres Hno Hty. unfold getMessageType. rewrite Hres. cbn [Js.bind].
  destruct (truthy res && isArray res) eqn:Earr.
  - destruct (proj1 (truthy_method_cases res) Earr) as [items ->].
    cbn [at_index Js.bind andb].
    assert (Hm : truthy (default JUndefined (items !! 1%nat)) = false).
    { destruct (items !! 1%nat) as [method|] eqn:E; [| reflexivity].
      exact (Hno items method eq_refl E). }
    rewrite Hm, Hty. cbn [Js.bind]. destruct (truthy ty); reflexivity.
  - cbn [Js.bind andb]. rewrite Hty. cbn [Js.bind]. destruct (truthy ty); reflexivity.
Qed.

(** X6: routing never fails on a parsed message. For every message but
    [null] the type is found and is truthy: it is [res[1]] when [res] is an
    array with a truthy second element, whatever [type] says; otherwise it
    is [type] when that is truthy, and 'unknown' when it is not. On [null]
    the property access throws, the [catch] of [handleMessage] swallows it
    and no handler runs. A message whose type is not a string is handed to
    the handlers of 'message' only. *)
Theorem getMessageType_total (message : jsval) :
  (message <> JNull -> message <> JUndefined ->
     exists res ty key,
       get message "res" = Return res /\ get message "type" = Return ty /\
       getMessageType message = Return key /\ truthy key = true) /\
  (message = JNull \/ message = JUndefined ->
     (exists e, getMessageType message = Throw e) /\
     forall invoke w, handleMessage invoke (Some message) w = w) /\
  (forall items method,
     get message "res" = Return (JArr items) -> items !! 1%nat = Some method ->
     truthy method = true ->
     getMessageType message = Return method) /\
  (forall res ty,
     get message "res" = Return res ->
     (forall items method, res = JArr items -> items !! 1%nat = Some method ->
                           truthy method = false) ->
     get message "type" = Return ty ->
     (truthy ty = true -> getMessageType message = Return ty) /\
     (truthy ty = false -> getMessageType message = Return (JStr "unknown"))) /\
  (forall invoke w key,
     getMessageType message = Return key -> (forall k, key <> JStr k) ->
     handleMessage invoke (Some message) w
     = forEach invoke (JStr "message") (handlers_for (JStr "message") w) message w).
Proof.
  split; [| split; [| split; [| split]]].
  - intros Hnull Hundef.
    assert (Hget : forall k, exists v, get message k = Return v).
    { intros k. destruct message; cbn; eauto; congruence. }
    destruct (Hget "res") as [res Hres]. destruct (Hget "type") as [ty Hty].
    destruct (getMessageType_returns message Hnull Hundef) as (key & Hkey & Ht).
    exists res, ty, key. auto.
  - intros [-> | ->]; (split; [eexists; reflexivity | reflexivity]).
  - apply getMessageType_method.
  - intros res ty Hres Hno Hty.
    rewrite (getMessageType_generic message res ty Hres Hno Hty).
    split; intros ->; reflexivity.
  - intros invoke w key Hkey Hns. unfold handleMessage. rewrite Hkey.
    assert (Hnone : handlers_for key w = []).
    { destruct key; try reflexivity. exfalso. eapply Hns. reflexivity. }
    rewrite Hnone. reflexivity.
Qed.

End RoutingFacts.

(** ** Further properties: waiting for a message *)

Section WaitFacts.
Import WebSocketManager Closures.

(** The world in which a waiter with handler [h0] starts to wait. *)
Lemma registered_after_on key0 h0 w : h0 ∈ handlers_for (JStr key0) (on key0 h0 w).
Proof.
  rewrite on_handlers, bool_decide_eq_true_2 by reflexivity.
  case_bool_decide as Hin; [exact Hin |].
  apply elem_of_app. right. apply list_elem_of_singleton. reflexivity.
Qed.

Lemma on_shrinks_but key0 h0 w k h :
  h ∈ handlers_for (JStr k) (on key0 h0 w) -> h = h0 \/ h ∈ handlers_for (JStr k) w.
Proof.
  rewrite on_handlers. case_bool_decide as E; [subst k | auto].
  case_bool_decide as Hin; [auto |].
  rewrite elem_of_app, list_elem_of_singleton. tauto.
Qed.

(** The outcome of a wait, whichever way it ends. *)
Lemma wait_unregisters key0 h0 deadline evs w r evs' w1 :
  well_formed w -> own_key h0 = Some key0 -> id_of h0 = nextId w ->
  until_settled (nextId w) deadline evs (on key0 h0 (set_nextId (S (nextId w)) w))
    = (r, evs', w1) ->
  let w' := match r with Some _ => w1 | None => off key0 h0 w1 end in
  ~ carries (nextId w) w' /\ shrinks w w' /\ well_formed w'.
Proof.
  intros Hw Hkey Hid Hrun w'.
  pose proof (on_waiting h0 key0 w Hw Hid) as Hwait.
  pose proof (wait_over_no_carrier (nextId w) h0 key0 Hkey Hid deadline evs _ r evs' w1
                Hwait Hrun) as Hnc.
  fold w' in Hnc.
  assert (Hsh : shrinks (on key0 h0 (set_nextId (S (nextId w)) w)) w').
  { subst w'. pose proof (until_settled_shrinks _ _ _ _ _ _ _ Hrun) as Hs.
    destruct r; [exact Hs |]. eapply shrinks_trans; [exact Hs | apply off_shrinks]. }
  split; [exact Hnc |]. split.
  - intros k h Hin. pose proof (Hsh k h Hin) as Hin0.
    apply on_shrinks_but in Hin0. destruct Hin0 as [-> | Hin0]; [| exact Hin0].
    exfalso. apply Hnc. exists k, h0. split; [exact Hin | exact Hid].
  - subst w'.
    assert (Hw1 : well_formed w1).
    { eapply until_settled_well_formed; [| exact Hrun]. now apply on_fresh_well_formed. }
    destruct r; [exact Hw1 | now apply off_well_formed].
Qed.

(** X7: a wait never leaks its handler. Whether
    [waitForMessage] or [waitForBalanceResponse] ends with a message or
    with its timeout, no handler that carries the identity of the wait is
    registered afterwards, under any key, and no handler is registered that
    was not registered before the wait. *)
Theorem waits_unregister (w : World) :
  well_formed w ->
  (forall messageType timeout evs,
     let w' := (AuthManager.waitForMessage messageType timeout evs w).2 in
     ~ carries (nextId w) w' /\ shrinks w w') /\
  (forall requestId timeout evs,
     let w' := (BalanceManager.waitForBalanceResponse requestId timeout evs w).2 in
     ~ carries (nextId w) w' /\ shrinks w w').
Proof.
  intros Hw. split.
  - intros messageType timeout evs.
    unfold AuthManager.waitForMessage.
    destruct (until_settled _ _ evs _) as [[r evs'] w1] eqn:Hrun.
    destruct (wait_unregisters messageType (OneShot messageType (nextId w)) _ evs w r evs' w1
                Hw eq_refl eq_refl Hrun) as (H1 & H2 & _).
    destruct r; cbn; split; assumption.
  - intros requestId timeout evs.
    unfold BalanceManager.waitForBalanceResponse.
    destruct (until_settled _ _ evs _) as [[r evs'] w1] eqn:Hrun.
    destruct (wait_unregisters "message" (BalanceResponse requestId (nextId w)) _ evs w r evs' w1
                Hw eq_refl eq_refl Hrun) as (H1 & H2 & _).
    destruct r; cbn; split; assumption.
Qed.

End WaitFacts.

Lemma waits_unregister_witness :
  well_formed connected_world /\
  ~ carries (nextId connected_world)
      (AuthManager.waitForMessage "auth_challenge" 10000
         [message_at 100 bare_challenge] connected_world).2 /\
  ~ carries (nextId connected_world)
      (BalanceManager.waitForBalanceResponse 5 10000 [] connected_world).2.
Proof.
  split; [exact connected_world_well_formed |].
  destruct (waits_unregister connected_world connected_world_well_formed) as [Hm Hb].
  split.
  - exact (proj1 (Hm "auth_challenge" 10000 [message_at 100 bare_challenge])).
  - exact (proj1 (Hb 5 10000 [])).
Defined.

(** ** Further properties: the arrival of the awaited message *)

Section ListeningFacts.
Import WebSocketManager Closures.

Lemma answers_routed requestId m :
  answers requestId m = Return true -> exists key, getMessageType m = Return key.
Proof.
  intros Ha.
  destruct (getMessageType_returns m) as (key & Hk & _); [| | eauto];
    intros ->; discriminate.
Qed.

Section Listener.

Variables (p : nat) (h0 : Handler) (key0 : string).
Hypothesis Hid : id_of h0 = p.

Lemma invoke_listening h m w :
  inert p m h -> listening p h0 key0 w -> listening p h0 key0 (invoke h m w).
Proof.
  intros Hinert [Hw Hreg]. split; [now apply invoke_waiting |].
  destruct (decide (h = h0)) as [-> | Hne]; [| now apply invoke_keeps_other].
  destruct h0 as [mt q | rid q | c]; cbn [invoke inert id_of] in *.
  - contradiction.
  - destruct Hinert as [Hq | Hno]; [contradiction |].
    destruct (answers rid m) as [[|]|]; try exact Hreg. congruence.
  - destruct (pushed_balance m) as [[[[] b]|]|]; exact Hreg.
Qed.

Lemma forEach_listening key m snapshot : forall w,
  (key = JStr key0 -> inert p m h0) ->
  listening p h0 key0 w -> listening p h0 key0 (forEach invoke key snapshot m w).
Proof.
  induction snapshot as [|h rest IH]; intros w Hk Hw; [exact Hw |].
  cbn [forEach]. apply IH; [exact Hk |].
  case_bool_decide as Hin; [| exact Hw].
  apply invoke_listening; [| exact Hw].
  destruct (decide (id_of h = p)) as [Hidh | Hne]; [| now apply inert_other].
  destruct (handlers_for_elem _ _ _ Hin) as (k & hs & -> & Hlk & Hh).
  destruct Hw as [[_ Hown] _].
  destruct (Hown k hs h Hlk Hh Hidh) as (-> & ->). now apply Hk.
Qed.

Lemma same_registry_listening w w' :
  same_registry w w' -> listening p h0 key0 w -> listening p h0 key0 w'.
Proof.
  intros Hr [Hw Hreg]. split; [eapply waiting_same_registry; eassumption |].
  destruct Hr as (Hh & _). unfold handlers_for. rewrite Hh. exact Hreg.
Qed.

Lemma deliver_listening ev w :
  quiet p h0 key0 ev -> listening p h0 key0 w -> listening p h0 key0 (deliver ev w).
Proof.
  intros Hq Hw. unfold deliver. set (w1 := set_clock _ w).
  assert (Hw1 : listening p h0 key0 w1) by exact Hw.
  destruct (what ev) as [i | i | i | i data | id] eqn:E.
  - destruct (state_of i w1) as [[]|]; try exact Hw1.
    eapply same_registry_listening; [| exact Hw1].
    eapply same_registry_trans; [apply set_readyState_registry | apply handleOpen_registry].
  - destruct (state_of i w1) as [[]|]; try exact Hw1;
      (eapply same_registry_listening; [| exact Hw1];
       eapply same_registry_trans; [apply set_readyState_registry | apply handleClose_registry]).
  - exact Hw1.
  - destruct (state_of i w1) as [[]|]; try exact Hw1.
    destruct data as [m|]; [| exact Hw1].
    destruct (Hq i m E) as [Htype Hall]. unfold handleMessage.
    destruct (getMessageType m) as [T|] eqn:ET; [| exact Hw1].
    apply forEach_listening; [intros [= <-]; now apply Hall |].
    apply forEach_listening; [intros ->; now apply Htype | exact Hw1].
  - destruct (timers w1 !! id); [| exact Hw1].
    eapply same_registry_listening; [| exact Hw1].
    eapply same_registry_trans; [| apply connect_registry]. repeat split; cbn; lia.
Qed.

(** The wait runs through the quiet tasks that come before the deadline. *)
Lemma until_settled_through deadline pre tl : forall w,
  listening p h0 key0 w ->
  Forall (fun e => at_ms e < deadline /\ quiet p h0 key0 e) pre ->
  until_settled p deadline (pre ++ tl) w
  = until_settled p deadline tl (foldl (fun w e => deliver e w) w pre) /\
  listening p h0 key0 (foldl (fun w e => deliver e w) w pre).
Proof.
  induction pre as [|e pre IH]; intros w Hw Hall; [split; [reflexivity | exact Hw] |].
  apply Forall_cons in Hall. destruct Hall as [[Hlt Hq] Hall].
  cbn [app until_settled foldl].
  destruct (Z.leb_spec deadline (at_ms e)) as [|_]; [lia |].
  pose proof (deliver_listening e w Hq Hw) as Hw1.
  rewrite (proj1 (proj1 Hw1)). apply IH; assumption.
Qed.

Hypothesis Hkey : own_key h0 = Some key0.

(** The wait ends with the first message the handler accepts, when it
    arrives on an open socket before the deadline, after tasks that are
    quiet arrivals of messages. *)
Lemma until_settled_receives deadline pre ev rest i m w :
  listening p h0 key0 w ->
  state_of i w = Some OPEN ->
  Forall (fun e => is_message e /\ at_ms e < deadline /\ quiet p h0 key0 e) pre ->
  what ev = SocketMessage i (Some m) -> at_ms ev < deadline ->
  accepts h0 m ->
  (getMessageType m = Return (JStr key0) \/
   (key0 = "message" /\ exists key, getMessageType m = Return key)) ->
  exists w',
    until_settled p deadline (pre ++ ev :: rest) w = (Some m, rest, w') /\
    same_transport w w' /\ clock w <= clock w' /\ at_ms ev <= clock w' /\
    clock w' <= Z.max (clock w) deadline /\
    (pre = [] -> clock w' = Z.max (clock w) (at_ms ev)).
Proof.
  intros Hw Hopen Hpre Hev Hlt Hacc Hroute.
  destruct (until_settled_through deadline pre (ev :: rest) w Hw) as [Heq Hw1].
  { eapply Forall_impl; [exact Hpre |]. cbn. tauto. }
  set (w1 := foldl (fun w e => deliver e w) w pre) in *.
  destruct (run_messages_transport pre w) as [Ht1 Hc1].
  { eapply Forall_impl; [exact Hpre |]. cbn. tauto. }
  fold w1 in Ht1, Hc1.
  assert (Hc1' : clock w1 <= Z.max (clock w) deadline).
  { subst w1. clear Heq Hw1 Ht1 Hc1 Hw Hopen. revert w.
    induction pre as [|e pre IH]; intros w; cbn [foldl]; [lia |].
    apply Forall_cons in Hpre. destruct Hpre as [(He & Hlte & _) Hpre].
    specialize (IH Hpre (deliver e w)).
    destruct (deliver_message_transport e w He) as [_ Hc]. lia. }
  assert (Hopen1 : state_of i w1 = Some OPEN).
  { unfold state_of in *. destruct Ht1 as (-> & _). exact Hopen. }
  exists (deliver ev w1).
  assert (Hmsg : is_message ev) by (unfold is_message; now rewrite Hev).
  destruct (deliver_message_transport ev w1 Hmsg) as [Ht2 Hc2].
  assert (Hset : settled (deliver ev w1) !! p = Some m).
  { unfold deliver. rewrite Hev.
    change (state_of i (set_clock (Z.max (clock w1) (at_ms ev)) w1)) with (state_of i w1).
    rewrite Hopen1. destruct Hw1 as [Hwait Hreg].
    apply (handleMessage_settles p h0 key0 m Hkey Hid Hacc); [exact Hwait | exact Hreg | exact Hroute]. }
  split.
  - rewrite Heq. cbn [until_settled].
    destruct (Z.leb_spec deadline (at_ms ev)) as [|_]; [lia |].
    rewrite Hset. reflexivity.
  - split; [eapply same_transport_trans; eassumption |].
    split; [lia |]. split; [lia |]. split; [lia |].
    intros ->. exact Hc2.
Qed.

End Listener.

Lemma on_listening h0 key0 w :
  well_formed w -> id_of h0 = nextId w ->
  listening (nextId w) h0 key0 (on key0 h0 (set_nextId (S (nextId w)) w)).
Proof.
  intros Hw Hid. split; [now apply on_waiting | apply registered_after_on].
Qed.

End ListeningFacts.

(** ** Further properties: a wait that ends with its message *)

Section ReceiveFacts.
Import WebSocketManager Closures.

Lemma waitForMessage_arrival messageType timeout pre ev rest i m w :
  messageType <> "message" -> well_formed w -> state_of i w = Some OPEN ->
  Forall (fun e => is_message e /\ at_ms e < clock w + timeout) pre ->
  none_of_type messageType (clock w + timeout) pre ->
  what ev = SocketMessage i (Some m) -> at_ms ev < clock w + timeout ->
  getMessageType m = Return (JStr messageType) ->
  exists w',
    AuthManager.waitForMessage messageType timeout (pre ++ ev :: rest)%list w
      = (Return m, rest, w') /\
    same_transport (set_nextId (S (nextId w)) w) w' /\
    clock w <= clock w' /\ at_ms ev <= clock w' /\ clock w' <= Z.max (clock w) (clock w + timeout) /\
    (pre = [] -> clock w' = Z.max (clock w) (at_ms ev)) /\
    well_formed w' /\ shrinks w w'.
Proof.
  intros Hne Hw Hopen Hpre Hnone Hev Hlt Htype.
  unfold AuthManager.waitForMessage.
  set (p := nextId w). set (h0 := OneShot messageType p).
  set (w0 := on messageType h0 (set_nextId (S p) w)).
  change (clock w0) with (clock w).
  destruct (until_settled_receives p h0 messageType eq_refl eq_refl (clock w + timeout)
              pre ev rest i m w0) as (w' & Hrun & Ht & Hc1 & Hc2 & Hc3 & Hc4); try assumption.
  - now apply on_listening.
  - apply Forall_forall. intros e Hin.
    pose proof (proj1 (Forall_forall _ _) Hpre e Hin) as [Hm Hlte].
    split; [exact Hm |]. split; [exact Hlte |].
    intros j m' Hwhat. split.
    + intros Hty. exfalso. exact (Hnone e j m' Hin Hlte Hwhat Hty).
    + intros ->. congruence.
  - exact I.
  - left. exact Htype.
  - exists w'. rewrite Hrun.
    destruct (wait_unregisters messageType h0 (clock w + timeout) (pre ++ ev :: rest)%list w
                (Some m) rest w' Hw eq_refl eq_refl Hrun) as (_ & Hsh & Hwf).
    split; [reflexivity |]. split; [| tauto].
    eapply same_transport_trans; [| exact Ht]. repeat split.
Qed.

Lemma waitForBalanceResponse_arrival requestId timeout pre ev rest i m w :
  well_formed w -> state_of i w = Some OPEN ->
  Forall (fun e => is_message e /\ at_ms e < clock w + timeout) pre ->
  none_answers requestId (clock w + timeout) pre ->
  what ev = SocketMessage i (Some m) -> at_ms ev < clock w + timeout ->
  answers requestId m = Return true ->
  exists w',
    BalanceManager.waitForBalanceResponse requestId timeout (pre ++ ev :: rest)%list w
      = (Return m, rest, w') /\
    same_transport (set_nextId (S (nextId w)) w) w' /\
    clock w <= clock w' /\ at_ms ev <= clock w' /\ clock w' <= Z.max (clock w) (clock w + timeout) /\
    (pre = [] -> clock w' = Z.max (clock w) (at_ms ev)) /\
    well_formed w' /\ shrinks w w'.
Proof.
  intros Hw Hopen Hpre Hnone Hev Hlt Hans.
  unfold BalanceManager.waitForBalanceResponse.
  set (p := nextId w). set (h0 := BalanceResponse requestId p).
  set (w0 := on "message" h0 (set_nextId (S p) w)).
  change (clock w0) with (clock w).
  destruct (until_settled_receives p h0 "message" eq_refl eq_refl (clock w + timeout)
              pre ev rest i m w0) as (w' & Hrun & Ht & Hc1 & Hc2 & Hc3 & Hc4); try assumption.
  - now apply on_listening.
  - apply Forall_forall. intros e Hin.
    pose proof (proj1 (Forall_forall _ _) Hpre e Hin) as [Hm Hlte].
    split; [exact Hm |]. split; [exact Hlte |].
    intros j m' Hwhat.
    assert (Hinert : inert p m' h0) by (right; exact (Hnone e j m' Hin Hlte Hwhat)).
    split; intros _; exact Hinert.
  - right. split; [reflexivity | eapply answers_routed; exact Hans].
  - exists w'. rewrite Hrun.
    destruct (wait_unregisters "message" h0 (clock w + timeout) (pre ++ ev :: rest)%list w
                (Some m) rest w' Hw eq_refl eq_refl Hrun) as (_ & Hsh & Hwf).
    split; [reflexivity |]. split; [| tauto].
    eapply same_transport_trans; [| exact Ht]. repeat split.
Qed.

(** X13: [waitForMessage] resolves with the first message of the awaited
    type. When that message arrives on an open socket before the timeout,
    after any number of messages of other types, the wait returns it,
    having consumed the tasks up to and including it; it has sent nothing
    and queued nothing, and its handler is unregistered. *)
Theorem waitForMessage_receives messageType timeout pre ev rest i m w :
  messageType <> "message" -> well_formed w -> state_of i w = Some OPEN ->
  Forall (fun e => is_message e /\ at_ms e < clock w + timeout) pre ->
  none_of_type messageType (clock w + timeout) pre ->
  what ev = SocketMessage i (Some m) -> at_ms ev < clock w + timeout ->
  getMessageType m = Return (JStr messageType) ->
  exists w',
    AuthManager.waitForMessage messageType timeout (pre ++ ev :: rest)%list w
      = (Return m, rest, w') /\
    sockets w' = sockets w /\ wire w' = wire w /\ messageQueue w' = messageQueue w /\
    at_ms ev <= clock w' /\ shrinks w w'.
Proof.
  intros Hne Hw Hopen Hpre Hnone Hev Hlt Htype.
  destruct (waitForMessage_arrival messageType timeout pre ev rest i m w
              Hne Hw Hopen Hpre Hnone Hev Hlt Htype)
    as (w' & Hrun & Ht & _ & Hc & _ & _ & _ & Hsh).
  destruct Ht as (Hs & _ & Hwi & _ & _ & _ & _ & _ & _ & Hq & _).
  exists w'. repeat split; assumption.
Qed.

End ReceiveFacts.

Lemma waitForMessage_receives_witness :
  exists w',
    AuthManager.waitForMessage "auth_challenge" 10000
      [message_at 50 balance_push; message_at 100 full_challenge; message_at 200 success_message]
      connected_world
    = (Return full_challenge, [message_at 200 success_message], w') /\
    wire w' = wire connected_world.
Proof.
  destruct (waitForMessage_receives "auth_challenge" 10000 [message_at 50 balance_push]
              (message_at 100 full_challenge) [message_at 200 success_message] 0%nat
              full_challenge connected_world ltac:(discriminate) connected_world_well_formed
              eq_refl)
    as (w' & Hrun & _ & Hwire & _); try reflexivity.
  - constructor; [split; [exact I | reflexivity] | constructor].
  - intros ev i m Hin Hlt Hwhat.
    apply list_elem_of_singleton in Hin. subst ev. injection Hwhat as _ <-. discriminate.
  - exists w'. split; [exact Hrun | exact Hwire].
Defined.


(** ** Further properties: balance pushes and the cache *)

Section PushFacts.
Import WebSocketManager Closures BalanceManager.

Lemma scheduleReconnect_cache w : balanceCache (scheduleReconnect w) = balanceCache w.
Proof.
  unfold scheduleReconnect. destruct (_ <=? _); [reflexivity |].
  cbn. destruct (reconnectTimeout w); reflexivity.
Qed.

Lemma connect_cache w : balanceCache (connect w) = balanceCache w.
Proof.
  unfold connect. destruct (isConnected w); [reflexivity |].
  destruct (upcoming w) as [|[sc|] rest]; try reflexivity.
  now rewrite scheduleReconnect_cache.
Qed.

Lemma ws_send_cache frame w : balanceCache (ws_send frame w) = balanceCache w.
Proof.
  unfold ws_send, transmit. destruct (ws w); [| reflexivity].
  destruct (sockets w !! n); reflexivity.
Qed.

Lemma flush_loop_cache fuel : forall w, balanceCache (flush_loop fuel w) = balanceCache w.
Proof.
  induction fuel as [|fuel IH]; intros w; [reflexivity |].
  cbn [flush_loop]. destruct (messageQueue w) as [|message rest]; [reflexivity |].
  rewrite IH. unfold flush_turn. destruct (isConnected _); [| reflexivity].
  now rewrite ws_send_cache.
Qed.

Lemma send_cache message w : balanceCache (send message w) = balanceCache w.
Proof.
  unfold send. destruct (isConnected w); [apply ws_send_cache |].
  destruct (_ || _); [| reflexivity]. now rewrite connect_cache.
Qed.

Lemma set_readyState_cache i st w : balanceCache (set_readyState i st w) = balanceCache w.
Proof. unfold set_readyState. destruct (sockets w !! i); reflexivity. Qed.

Lemma invoke_handlers_listener c k h m w :
  BalanceUpdate c ∈ handlers_for (JStr k) w ->
  BalanceUpdate c ∈ handlers_for (JStr k) (invoke h m w).
Proof.
  intros Hin. destruct (decide (h = BalanceUpdate c)) as [-> | Hne].
  - cbn [invoke]. destruct (pushed_balance m) as [[[[] b]|]|]; exact Hin.
  - now apply invoke_keeps_other.
Qed.

(** A handler's turn on a message that is no well-formed push leaves the
    cache alone. *)
Lemma invoke_cache_unchanged h m w :
  (forall asset balance, pushed_balance m <> Return (Some (JStr asset, balance))) ->
  balanceCache (invoke h m w) = balanceCache w.
Proof.
  intros Hno. destruct h as [mt q | rid q | c]; cbn [invoke].
  - unfold resolve, off. destruct (messageHandlers w !! mt); cbn;
      match goal with |- context [settled ?x !! q] => destruct (settled x !! q) end; reflexivity.
  - destruct (answers rid m) as [[|]|]; try reflexivity.
    unfold resolve, off. destruct (messageHandlers w !! "message"); cbn;
      match goal with |- context [settled ?x !! q] => destruct (settled x !! q) end; reflexivity.
  - destruct (pushed_balance m) as [[[[] b]|]|] eqn:E; try reflexivity.
    exfalso. eapply Hno. reflexivity.
Qed.

Lemma forEach_cache_unchanged key m snapshot : forall w,
  (forall asset balance, pushed_balance m <> Return (Some (JStr asset, balance))) ->
  balanceCache (forEach invoke key snapshot m w) = balanceCache w.
Proof.
  induction snapshot as [|h rest IH]; intros w Hno; [reflexivity |].
  cbn [forEach]. rewrite IH by exact Hno.
  case_bool_decide; [now apply invoke_cache_unchanged | reflexivity].
Qed.

Section OnePush.

Variables (asset : string) (balance : jsval) (m : jsval) (now : Z)
          (cache0 : gmap string BalanceEntry).
Hypothesis Hpush : pushed_balance m = Return (Some (JStr asset, balance)).

Let cache1 : gmap string BalanceEntry :=
  <[asset := {| amount := balance; timestamp := now |}]> cache0.

Lemma invoke_cache h w :
  clock w = now ->
  balanceCache w = cache0 \/ balanceCache w = cache1 ->
  (balanceCache (invoke h m w) = cache0 \/ balanceCache (invoke h m w) = cache1) /\
  (balanceCache w = cache1 -> balanceCache (invoke h m w) = cache1) /\
  (forall c, h = BalanceUpdate c -> balanceCache (invoke h m w) = cache1).
Proof.
  intros Hc Hinv.
  assert (Hother : forall event q,
            balanceCache (resolve q m (off event h w)) = balanceCache w).
  { intros event q. unfold resolve, off. destruct (messageHandlers w !! event); cbn;
      match goal with |- context [settled ?x !! q] => destruct (settled x !! q) end; reflexivity. }
  destruct h as [mt q | rid q | c]; cbn [invoke].
  - rewrite Hother. split; [exact Hinv |]. split; [auto | discriminate].
  - destruct (answers rid m) as [[|]|]; rewrite ?Hother;
      (split; [exact Hinv |]; split; [auto | discriminate]).
  - rewrite Hpush. cbn [balanceCache set_balanceCache]. rewrite Hc.
    assert (Hone : <[asset := {| amount := balance; timestamp := now |}]> (balanceCache w)
                   = cache1).
    { destruct Hinv as [-> | ->]; [reflexivity |]. subst cache1. apply insert_insert_eq. }
    rewrite Hone. auto.
Qed.

Lemma forEach_cache k c snapshot : forall w,
  clock w = now ->
  balanceCache w = cache0 \/ balanceCache w = cache1 ->
  BalanceUpdate c ∈ handlers_for (JStr k) w ->
  let w' := forEach invoke (JStr k) snapshot m w in
  (balanceCache w' = cache0 \/ balanceCache w' = cache1) /\
  (balanceCache w = cache1 -> balanceCache w' = cache1) /\
  (BalanceUpdate c ∈ snapshot -> balanceCache w' = cache1) /\
  BalanceUpdate c ∈ handlers_for (JStr k) w'.
Proof.
  induction snapshot as [|h rest IH]; intros w Hc Hinv Hreg.
  - cbn. repeat split; auto. intros Hin. now apply elem_of_nil in Hin.
  - cbn [forEach].
    set (w1 := if bool_decide (h ∈ handlers_for (JStr k) w) then invoke h m w else w).
    assert (H1 : clock w1 = now /\
                 (balanceCache w1 = cache0 \/ balanceCache w1 = cache1) /\
                 (balanceCache w = cache1 -> balanceCache w1 = cache1) /\
                 (h = BalanceUpdate c -> balanceCache w1 = cache1) /\
                 BalanceUpdate c ∈ handlers_for (JStr k) w1).
    { subst w1. case_bool_decide as Hin.
      - destruct (invoke_cache h w Hc Hinv) as (Ha & Hb & Hd).
        split; [now rewrite invoke_clock |]. split; [exact Ha |]. split; [exact Hb |].
        split; [intros ->; eapply Hd; reflexivity | now apply invoke_handlers_listener].
      - split; [exact Hc |]. split; [exact Hinv |]. split; [auto |].
        split; [intros ->; contradiction | exact Hreg]. }
    destruct H1 as (Hc1 & Hinv1 & Hst1 & Hh1 & Hreg1).
    destruct (IH w1 Hc1 Hinv1 Hreg1) as (Ha & Hb & Hd & He).
    split; [exact Ha |]. split; [auto |]. split; [| exact He].
    intros Hin. apply elem_of_cons in Hin. destruct Hin as [<- | Hin]; auto.
Qed.

End OnePush.

Lemma forEach_cache_any asset balance m snapshot key : forall w,
  pushed_balance m = Return (Some (JStr asset, balance)) ->
  balanceCache w = <[asset := {| amount := balance; timestamp := clock w |}]> (balanceCache w) ->
  balanceCache (forEach invoke key snapshot m w) = balanceCache w.
Proof.
  induction snapshot as [|h rest IH]; intros w Hpush Hfix; [reflexivity |].
  cbn [forEach].
  set (w1 := if bool_decide (h ∈ handlers_for key w) then invoke h m w else w).
  assert (H1 : balanceCache w1 = balanceCache w /\ clock w1 = clock w).
  { subst w1. case_bool_decide; [| split; reflexivity].
    split; [| apply invoke_clock].
    destruct (invoke_cache asset balance m (clock w) (balanceCache w) Hpush h w eq_refl)
      as (_ & Hb & _); [left; reflexivity |].
    rewrite Hb; [symmetry; exact Hfix | exact Hfix]. }
  destruct H1 as [Hb1 Hc1]. rewrite IH; [exact Hb1 | exact Hpush |].
  rewrite Hb1, Hc1. exact Hfix.
Qed.

(** X8: a balance push warms the cache, and only a well-formed push does.
    When a balance_update message with a truthy asset name and a truthy
    balance arrives on an open socket while the listener of the balance
    manager is registered, the cache holds that balance for the asset,
    stamped with the time of arrival; [getCachedBalance] returns it and
    [getUnifiedBalance] answers from it without consuming a task or
    touching the world. Any other task (a push whose asset or balance is
    missing or falsy, such as the number 0, another message, the opening
    or closing of a socket, a timer) leaves the cache as it was. *)
Theorem push_updates_cache (w : World) :
  (forall c i t m asset balance,
     BalanceUpdate c ∈ handlers_for (JStr "balance_update") w ->
     state_of i w = Some OPEN ->
     getMessageType m = Return (JStr "balance_update") ->
     pushed_balance m = Return (Some (JStr asset, balance)) ->
     let w' := deliver {| at_ms := t; what := SocketMessage i (Some m) |} w in
     balanceCache w'
       = <[asset := {| amount := balance; timestamp := Z.max (clock w) t |}]> (balanceCache w) /\
     getCachedBalance asset w' = Some balance /\
     (forall evs, getUnifiedBalance asset false evs w' = (balance, evs, w'))) /\
  (forall ev,
     (forall i m asset balance,
        what ev = SocketMessage i (Some m) ->
        pushed_balance m <> Return (Some (JStr asset, balance))) ->
     balanceCache (deliver ev w) = balanceCache w).
Proof.
  split.
  - intros c i t m asset balance Hreg Hopen Htype Hpush w'.
    assert (Hcache : balanceCache w'
              = <[asset := {| amount := balance; timestamp := Z.max (clock w) t |}]>
                  (balanceCache w)).
    { subst w'. unfold deliver. cbn [what at_ms].
      set (w1 := set_clock (Z.max (clock w) t) w).
      change (state_of i w1) with (state_of i w). rewrite Hopen.
      unfold handleMessage. rewrite Htype.
      destruct (forEach_cache asset balance m (Z.max (clock w) t) (balanceCache w) Hpush
                  "balance_update" c (handlers_for (JStr "balance_update") w1) w1)
        as (_ & _ & Hd & _); [reflexivity | left; reflexivity | exact Hreg |].
      set (w2 := forEach invoke (JStr "balance_update") _ m w1) in *.
      rewrite (forEach_cache_any asset balance m _ (JStr "message") w2 Hpush).
      + apply Hd. exact Hreg.
      + subst w2. rewrite forEach_clock. rewrite (Hd Hreg). cbn [clock set_clock w1].
        symmetry. apply insert_insert_eq. }
    assert (Hclock : clock w' = Z.max (clock w) t).
    { subst w'. apply (deliver_message_transport {| at_ms := t; what := SocketMessage i (Some m) |}).
      exact I. }
    assert (Hfresh : fresh_entry asset w'
                     = Some {| amount := balance; timestamp := Z.max (clock w) t |}).
    { unfold fresh_entry. rewrite Hcache, lookup_insert_eq. cbn [timestamp].
      rewrite Hclock, Z.sub_diag. reflexivity. }
    split; [exact Hcache |]. split.
    + unfold getCachedBalance. rewrite Hfresh. reflexivity.
    + intros evs. unfold getUnifiedBalance. rewrite Hfresh. reflexivity.
  - intros ev Hno. unfold deliver. set (w1 := set_clock _ w).
    destruct (what ev) as [i | i | i | i data | id] eqn:E.
    + destruct (state_of i w1) as [[]|]; try reflexivity.
      unfold handleOpen, flushMessageQueue.
      rewrite flush_loop_cache. cbn [balanceCache set_reconnectAttempts].
      now rewrite set_readyState_cache.
    + destruct (state_of i w1) as [[]|]; try reflexivity;
        unfold handleClose; rewrite scheduleReconnect_cache; cbn [balanceCache set_ws];
        now rewrite set_readyState_cache.
    + reflexivity.
    + destruct (state_of i w1) as [[]|]; try reflexivity.
      unfold handleMessage. destruct data as [m|]; [| reflexivity].
      destruct (getMessageType m); [| reflexivity].
      rewrite !forEach_cache_unchanged; [reflexivity | |];
        intros asset balance; eapply Hno; reflexivity.
    + destruct (timers w1 !! id); [| reflexivity]. now rewrite connect_cache.
Qed.

End PushFacts.

Lemma push_updates_cache_witness :
  BalanceManager.getCachedBalance "usd" (deliver (message_at 100 balance_push) connected_world)
    = Some (JStr "7") /\
  balanceCache (deliver (message_at 100 zero_push) connected_world)
    = balanceCache connected_world.
Proof.
  destruct (push_updates_cache connected_world) as [Hgood Hbad]. split.
  - refine (proj1 (proj2 (Hgood 0%nat 0%nat 100 balance_push "usd" (JStr "7") _ eq_refl eq_refl eq_refl))).
    vm_compute. apply list_elem_of_here.
  - apply Hbad. intros i m asset balance [= _ <-]. vm_compute. discriminate.
Defined.

(** ** Further properties: a refresh that is answered *)

Section RefreshFacts.
Import WebSocketManager Closures BalanceManager.

(** A send on an open socket that stays open. *)
Lemma send_steady message i s w :
  ws w = Some i -> sockets w !! i = Some s -> readyState s = OPEN -> steady 1 s ->
  wire (send message w) = (wire w ++ [frame message])%list /\
  messageQueue (send message w) = messageQueue w /\
  ws (send message w) = Some i /\
  state_of i (send message w) = Some OPEN /\
  (exists s', sockets (send message w) !! i = Some s' /\ readyState s' = OPEN /\
              script s' = tail (script s)) /\
  clock (send message w) = clock w /\ nextId (send message w) = nextId w /\
  balanceCache (send message w) = balanceCache w /\
  authInProgress (send message w) = authInProgress w /\
  authPromise (send message w) = authPromise w.
Proof.
  intros Hws Hs Hst Hsteady. unfold send.
  rewrite (isConnected_open w i s Hws Hs Hst).
  unfold ws_send. rewrite Hws. unfold transmit. rewrite Hs.
  set (s' := match script s with
             | st :: more => {| readyState := st; script := more |}
             | [] => s
             end).
  assert (Hs' : readyState s' = OPEN /\ script s' = tail (script s)).
  { subst s'. unfold steady in Hsteady. destruct (script s) as [|st more] eqn:E.
    - rewrite E. split; [exact Hst | reflexivity].
    - cbn in Hsteady. apply Forall_cons in Hsteady. destruct Hsteady as [-> _].
      split; reflexivity. }
  assert (Hlook : <[i := s']> (sockets w) !! i = Some s').
  { apply list_lookup_insert_eq. eapply lookup_lt_Some. exact Hs. }
  unfold state_of. cbn. rewrite Hlook. cbn. rewrite (proj1 Hs').
  split; [reflexivity |]. split; [reflexivity |]. split; [exact Hws |].
  split; [reflexivity |]. split; [exists s'; tauto |].
  repeat split.
Qed.

Lemma answered_has_res requestId m :
  answers requestId m = Return true ->
  truthy m = true /\ exists res, get m "res" = Return res /\ truthy res = true.
Proof.
  unfold answers. destruct m; cbn; try discriminate.
  destruct (truthy (default JUndefined (lookup_field "res" fields))) eqn:E; [| discriminate].
  intros _. split; [reflexivity |]. eauto.
Qed.

(** X9: a refresh that is answered. When the cache misses (or a refresh
    is forced) on an open socket that stays open, and the first message
    that answers the request arrives within 10000 ms, after any number of
    other messages, carrying a payload: [getUnifiedBalance] returns the
    reported balance ('0' when the payload has none), having transmitted
    exactly one frame, the get_balance request; the balance is cached with
    the time of arrival; an immediate second call is answered from the
    cache without any traffic; and the entry is served for the 30000 ms
    that follow, not after. *)
Theorem getUnifiedBalance_refreshes asset forceRefresh pre ev rest i s m res payload reported w :
  well_formed w ->
  ws w = Some i -> sockets w !! i = Some s -> readyState s = OPEN -> steady 1 s ->
  (forceRefresh = true \/ fresh_entry asset w = None) ->
  Forall (fun e => is_message e /\ at_ms e < clock w + 10000) pre ->
  none_answers (clock w) (clock w + 10000) pre ->
  what ev = SocketMessage i (Some m) -> at_ms ev < clock w + 10000 ->
  answers (clock w) m = Return true ->
  get m "res" = Return res -> at_index res 2 = Return payload -> truthy payload = true ->
  get payload "balance" = Return reported ->
  let balance := if truthy reported then reported else JStr "0" in
  exists w',
    getUnifiedBalance asset forceRefresh (pre ++ ev :: rest)%list w = (balance, rest, w') /\
    wire w' = (wire w ++ [JSON.stringify (balance_request asset (clock w))])%list /\
    messageQueue w' = messageQueue w /\
    getCachedBalance asset w' = Some balance /\
    (forall evs, getUnifiedBalance asset false evs w' = (balance, evs, w')) /\
    (forall t, getCachedBalance asset (set_clock t w')
               = if t - clock w' <? 30000 then Some balance else None).
Proof.
  intros Hw Hws Hs Hst Hsteady Hmiss Hpre Hnone Hev Hlt Hans Hres Hpay Htp Hrep balance.
  destruct (send_steady (balance_request asset (clock w)) i s w Hws Hs Hst Hsteady)
    as (Hwire & Hq & _ & Hopen & _ & Hclock & _ & Hcache & _).
  set (ws1 := send (balance_request asset (clock w)) w) in *.
  destruct (waitForBalanceResponse_arrival (clock w) 10000 pre ev rest i m ws1)
    as (w1 & Hwait & Ht & _).
  { now apply send_well_formed. }
  { exact Hopen. }
  { rewrite Hclock. exact Hpre. }
  { rewrite Hclock. exact Hnone. }
  { exact Hev. }
  { rewrite Hclock. exact Hlt. }
  { exact Hans. }
  destruct (answered_has_res _ _ Hans) as [Htm (res' & Hres' & Htr)].
  rewrite Hres in Hres'. injection Hres' as <-.
  assert (Hlacks : AuthManager.lacks_payload m = Return false).
  { unfold AuthManager.lacks_payload. rewrite Htm, Hres. cbn. rewrite Htr, Hpay. cbn.
    rewrite Htp. reflexivity. }
  set (w' := set_balanceCache
               (<[asset := {| amount := balance; timestamp := clock w1 |}]> (balanceCache w1)) w1).
  assert (Hpull : pull asset (pre ++ ev :: rest)%list w = (Return balance, rest, w')).
  { rewrite pull_unfold. fold ws1. rewrite Hwait, Hlacks, Hres. cbn [Js.bind].
    rewrite Hpay. cbn [Js.bind]. rewrite Hrep. reflexivity. }
  assert (Hfresh : forall t, fresh_entry asset (set_clock t w')
                     = if t - clock w' <? 30000
                       then Some {| amount := balance; timestamp := clock w1 |} else None).
  { intros t. unfold fresh_entry. cbn. rewrite lookup_insert_eq. reflexivity. }
  exists w'. split; [| split; [| split; [| split; [| split]]]].
  - unfold getUnifiedBalance.
    assert (Hm : (if forceRefresh then None else fresh_entry asset w) = None)
      by (destruct Hmiss as [-> | ->]; [reflexivity | destruct forceRefresh; reflexivity]).
    rewrite Hm, Hpull. reflexivity.
  - destruct Ht as (_ & _ & Hw1 & _). cbn. rewrite Hw1. exact Hwire.
  - destruct Ht as (_ & _ & _ & _ & _ & _ & _ & _ & _ & Hq1 & _). cbn. rewrite Hq1. exact Hq.
  - unfold getCachedBalance. specialize (Hfresh (clock w')).
    rewrite Z.sub_diag in Hfresh. cbn in Hfresh. 
    change (set_clock (clock w1) w') with w' in Hfresh. rewrite Hfresh. reflexivity.
  - intros evs. unfold getUnifiedBalance. specialize (Hfresh (clock w')).
    rewrite Z.sub_diag in Hfresh. cbn in Hfresh.
    change (set_clock (clock w1) w') with w' in Hfresh. rewrite Hfresh. reflexivity.
  - intros t. unfold getCachedBalance. rewrite Hfresh. destruct (_ <? _); reflexivity.
Qed.

End RefreshFacts.

Lemma getUnifiedBalance_refreshes_witness :
  exists w',
    BalanceManager.getUnifiedBalance "usd" false [message_at 100 balance_answer]
      connected_world = (JStr "42", [], w') /\
    BalanceManager.getUnifiedBalance "usd" false [] w' = (JStr "42", [], w').
Proof.
  destruct (getUnifiedBalance_refreshes "usd" false [] (message_at 100 balance_answer) []
              0%nat {| readyState := OPEN; script := [] |} balance_answer
              (JArr [JNum 5; JStr "get_balance"; JObj [("balance", JStr "42")]])
              (JObj [("balance", JStr "42")]) (JStr "42") connected_world
              connected_world_well_formed eq_refl eq_refl eq_refl)
    as (w' & Hcall & _ & _ & _ & Hagain & _).
  - constructor.
  - right. reflexivity.
  - constructor.
  - intros ev i m Hin. apply elem_of_nil in Hin. contradiction.
  - reflexivity.
  - vm_compute. reflexivity.
  - reflexivity.
  - reflexivity.
  - reflexivity.
  - reflexivity.
  - reflexivity.
  - exists w'. split; [exact Hcall | apply Hagain].
Defined.

(** ** Further properties: the clock, and waiting for the connection *)

Section ClockFacts.
Import WebSocketManager AuthManager.

Lemma scheduleReconnect_clock w : clock (scheduleReconnect w) = clock w.
Proof.
  unfold scheduleReconnect. destruct (_ <=? _); [reflexivity |].
  cbn. destruct (reconnectTimeout w); reflexivity.
Qed.

Lemma connect_clock w : clock (connect w) = clock w.
Proof.
  unfold connect. destruct (isConnected w); [reflexivity |].
  destruct (upcoming w) as [|[sc|] rest]; try reflexivity.
  now rewrite scheduleReconnect_clock.
Qed.

Lemma ws_send_clock frame w : clock (ws_send frame w) = clock w.
Proof.
  unfold ws_send, transmit. destruct (ws w); [| reflexivity].
  destruct (sockets w !! n); reflexivity.
Qed.

Lemma flush_loop_clock fuel : forall w, clock (flush_loop fuel w) = clock w.
Proof.
  induction fuel as [|fuel IH]; intros w; [reflexivity |].
  cbn [flush_loop]. destruct (messageQueue w) as [|message rest]; [reflexivity |].
  rewrite IH. unfold flush_turn. destruct (isConnected _); [| reflexivity].
  now rewrite ws_send_clock.
Qed.

Lemma set_readyState_clock i st w : clock (set_readyState i st w) = clock w.
Proof. unfold set_readyState. destruct (sockets w !! i); reflexivity. Qed.

(** A task moves the clock to its time, never back. *)
Lemma deliver_clock ev w : clock (deliver ev w) = Z.max (clock w) (at_ms ev).
Proof.
  unfold deliver. set (w1 := set_clock _ w).
  change (Z.max (clock w) (at_ms ev)) with (clock w1).
  destruct (what ev) as [i | i | i | i data | id].
  - destruct (state_of i w1) as [[]|]; try reflexivity.
    unfold handleOpen, flushMessageQueue. rewrite flush_loop_clock.
    cbn [clock set_reconnectAttempts]. apply set_readyState_clock.
  - destruct (state_of i w1) as [[]|]; try reflexivity;
      unfold handleClose; rewrite scheduleReconnect_clock; cbn [clock set_ws];
      apply set_readyState_clock.
  - reflexivity.
  - destruct (state_of i w1) as [[]|]; try reflexivity. apply handleMessage_clock.
  - destruct (timers w1 !! id); [| reflexivity]. now rewrite connect_clock.
Qed.

Lemma deliver_until_clock t evs : forall w evs' w',
  deliver_until t evs w = (evs', w') -> clock w <= clock w' <= Z.max (clock w) t.
Proof.
  induction evs as [|ev rest IH]; intros w evs' w'; cbn [deliver_until].
  - intros [= _ <-]. lia.
  - destruct (Z.ltb_spec (at_ms ev) t) as [Hlt|_]; [| intros [= _ <-]; lia].
    intros H. apply IH in H. rewrite deliver_clock in H. lia.
Qed.

Lemma checkConnection_bounds polls startTime timeout : forall evs w,
  timeout < clock w - startTime + 100 * Z.of_nat polls ->
  let '(o, _, w') := checkConnection polls startTime timeout evs w in
  clock w <= clock w' /\
  (clock w' = clock w \/ clock w' - startTime <= timeout + 100) /\
  match o with
  | Return _ => isConnected w' = true
  | Throw e => e = ErrorObj "WebSocket connection timeout" /\
               isConnected w' = false /\ timeout < clock w' - startTime
  end.
Proof.
  induction polls as [|polls IH]; intros evs w Hfuel; cbn [checkConnection].
  - destruct (isConnected w) eqn:Hc; [split; [lia | split; [auto | exact Hc]] |].
    destruct (Z.ltb_spec timeout (clock w - startTime)) as [Hlt|Hge]; [| lia].
    split; [lia |]. split; [auto |]. repeat split; assumption.
  - destruct (isConnected w) eqn:Hc; [split; [lia | split; [auto | exact Hc]] |].
    destruct (Z.ltb_spec timeout (clock w - startTime)) as [Hlt|Hge].
    { split; [lia |]. split; [auto |]. repeat split; assumption. }
    destruct (deliver_until (clock w + 100) evs w) as [evs1 w1] eqn:E.
    pose proof (deliver_until_clock _ _ _ _ _ E) as Hc1.
    set (w2 := set_clock (Z.max (clock w1) (clock w + 100)) w1).
    assert (Hclock2 : clock w2 = clock w + 100) by (subst w2; cbn; lia).
    specialize (IH evs1 w2).
    destruct (checkConnection polls startTime timeout evs1 w2) as [[o evs'] w'].
    destruct IH as (Hle & Hstep & Hres); [rewrite Hclock2; lia |].
    split; [lia |]. split; [right; lia | exact Hres].
Qed.

(** X12: [waitForConnection(timeout)] resolves only when the manager is
    connected, and otherwise rejects with 'WebSocket connection timeout'
    once more than [timeout] ms have passed: it polls every 100 ms, so it
    gives up later than [timeout] and no later than [timeout + 100] ms
    after the call. *)
Theorem waitForConnection_bounds (timeout : Z) (evs : list Event) (w : World) :
  0 <= timeout ->
  let '(o, _, w') := waitForConnection timeout evs w in
  clock w <= clock w' <= clock w + timeout + 100 /\
  match o with
  | Return _ => isConnected w' = true
  | Throw e => e = ErrorObj "WebSocket connection timeout" /\
               isConnected w' = false /\ clock w + timeout < clock w'
  end.
Proof.
  intros Ht. unfold waitForConnection.
  pose proof (checkConnection_bounds (Z.to_nat (timeout / 100) + 2) (clock w) timeout evs w) as H.
  destruct (checkConnection _ _ _ evs w) as [[o evs'] w'].
  destruct H as (Hle & Hstep & Hres).
  { assert (0 <= timeout / 100) by (apply Z.div_pos; lia).
    rewrite Nat2Z.inj_add, Z2Nat.id by assumption.
    pose proof (Z.mul_div_le timeout 100 ltac:(lia)).
    pose proof (Z.mod_pos_bound timeout 100 ltac:(lia)).
    pose proof (Z.div_mod timeout 100 ltac:(lia)). cbn. lia. }
  split; [lia |].
  destruct o as [[]|e]; [exact Hres |].
  destruct Hres as (He & Hc & Hlt). repeat split; try assumption. lia.
Qed.

End ClockFacts.

Lemma waitForConnection_bounds_witness :
  0 <= 5000 /\
  exists w',
    AuthManager.waitForConnection 5000 [] (WebSocketManager.connect (startup 0 [] [] ∅))
      = (Throw (ErrorObj "WebSocket connection timeout"), [], w') /\
    0 + 5000 < clock w' <= 0 + 5000 + 100.
Proof.
  split; [lia |].
  pose proof (waitForConnection_bounds 5000 [] (WebSocketManager.connect (startup 0 [] [] ∅))
                ltac:(lia)) as H.
  destruct (AuthManager.waitForConnection 5000 [] (WebSocketManager.connect (startup 0 [] [] ∅)))
    as [[o evs'] w'] eqn:E.
  assert (Ho : o = Throw (ErrorObj "WebSocket connection timeout") /\ evs' = [])
    by (vm_compute in E; injection E as <- <- _; split; reflexivity).
  destruct Ho as [-> ->]. exists w'. split; [reflexivity |].
  destruct H as (Hle & _ & _ & Hlt). split; [exact Hlt | exact (proj2 Hle)].
Defined.

(** ** Further properties: the handshake from request to confirmation *)

Section HappyPath.
Import WebSocketManager AuthManager.
Context `{sdk : Nitrolite}.

Lemma steady_mono n k s : (k <= n)%nat -> steady n s -> steady k s.
Proof.
  unfold steady. intros Hle H.
  replace (take k (script s)) with (take k (take n (script s)))
    by (rewrite take_take; f_equal; lia).
  now apply Forall_take.
Qed.

Lemma steady_tail n s s' :
  steady (S n) s -> script s' = tail (script s) -> steady n s'.
Proof.
  unfold steady. intros H ->. destruct (script s) as [|st more]; cbn in *.
  - rewrite take_nil. constructor.
  - apply Forall_cons in H. tauto.
Qed.

(** A wait that ends with a value has consumed a prefix of the tasks, and
    the clock stands where the last of them left it. *)
Lemma until_settled_clock p deadline : forall evs w value rest w',
  until_settled p deadline evs w = (Some value, rest, w') ->
  exists consumed, evs = (consumed ++ rest)%list /\ clock w' = latest (clock w) consumed.
Proof.
  induction evs as [|ev evs IH]; intros w value rest w' H; cbn [until_settled] in H;
    [discriminate |].
  destruct (deadline <=? at_ms ev); [discriminate |].
  destruct (settled (deliver ev w) !! p) as [v|] eqn:E.
  - injection H as <- <- <-. exists [ev]. split; [reflexivity |].
    cbn. apply deliver_clock.
  - destruct (IH _ _ _ _ H) as (consumed & -> & Hc).
    exists (ev :: consumed). split; [reflexivity |].
    rewrite Hc, deliver_clock. reflexivity.
Qed.

Lemma waitForMessage_clock messageType timeout pre ev rest m w w' :
  waitForMessage messageType timeout (pre ++ ev :: rest)%list w = (Return m, rest, w') ->
  clock w' = latest (clock w) (pre ++ [ev]).
Proof.
  unfold waitForMessage.
  destruct (until_settled _ _ _ _) as [[[value|] evs'] w1] eqn:E; [| discriminate].
  intros [= -> -> ->].
  destruct (until_settled_clock _ _ _ _ _ _ _ E) as (consumed & Heq & Hc).
  replace (pre ++ ev :: rest)%list with ((pre ++ [ev]) ++ rest)%list in Heq
    by (rewrite <- app_assoc; reflexivity).
  apply app_inv_tail in Heq. subst consumed. exact Hc.
Qed.

Lemma authenticate_confirmed sessionKey walletClient userAddress
    i s preC evC preS evS rest challenge challengeMessage confirmation res request verify w :
  authInProgress w = false -> well_formed w ->
  ws w = Some i -> sockets w !! i = Some s -> readyState s = OPEN -> steady 2 s ->
  createAuthRequestMessage (authParams_of sessionKey userAddress) (clock w) = Return request ->
  Forall (fun e => is_message e /\ at_ms e < clock w + 10000) preC ->
  none_of_type "auth_challenge" (clock w + 10000) preC ->
  what evC = SocketMessage i (Some challenge) -> at_ms evC < clock w + 10000 ->
  getMessageType challenge = Return (JStr "auth_challenge") ->
  lacks_payload challenge = Return false ->
  challenge_message_of challenge = Return challengeMessage ->
  createAuthVerifyMessageFromChallenge
    (createEIP712AuthMessageSigner walletClient (authParams_of sessionKey userAddress)
       "YellowPay Extension")
    challengeMessage (latest (clock w) (preC ++ [evC])) = Return verify ->
  Forall (fun e => is_message e /\ at_ms e < latest (clock w) (preC ++ [evC]) + 10000) preS ->
  none_of_type "auth_success" (latest (clock w) (preC ++ [evC]) + 10000) preS ->
  what evS = SocketMessage i (Some confirmation) ->
  at_ms evS < latest (clock w) (preC ++ [evC]) + 10000 ->
  getMessageType confirmation = Return (JStr "auth_success") ->
  get confirmation "res" = Return res -> truthy res = true ->
  exists w',
    authenticate sessionKey walletClient userAddress
      (preC ++ evC :: preS ++ evS :: rest)%list w
      = (Own (settle (session_of res)), rest, w') /\
    wire w' = (wire w ++ [request; verify])%list /\
    messageQueue w' = messageQueue w /\
    authInProgress w' = false /\ authPromise w' = None /\
    isAuthenticated w' = true /\
    shrinks w w'.
Proof.
  intros Hidle Hw Hws Hs Hst Hsteady Hreq HpreC HnoneC HevC HltC HtyC HlpC HcmC Hver
    HpreS HnoneS HevS HltS HtyS Hres Htres.
  set (tC := latest (clock w) (preC ++ [evC])) in *.
  set (evs := (preC ++ evC :: preS ++ evS :: rest)%list).
  assert (Hsteady1 : steady 1 s) by (eapply steady_mono; [| exact Hsteady]; lia).
  (* the guard *)
  set (wg := take_guard w).
  assert (Hwg : well_formed wg) by now apply take_guard_well_formed.
  (* step 1: the request goes out *)
  destruct (send_steady (JStr request) i s wg Hws Hs Hst Hsteady1)
    as (Hwire1 & Hq1 & Hws1 & Hopen1 & (s1 & Hs1 & Hst1 & Hsc1) & Hclock1 & _).
  set (w1 := send (JStr request) wg) in *.
  assert (Hw1 : well_formed w1) by now apply send_well_formed.
  assert (Hclock1' : clock w1 = clock w) by (rewrite Hclock1; reflexivity).
  assert (Hsend : sendAuthRequest (authParams_of sessionKey userAddress) evs wg
                  = (Return tt, evs, w1)).
  { unfold sendAuthRequest, EventLoop.bind, read, act, lift, ret.
    change (isConnected wg) with (isConnected w).
    rewrite (isConnected_open w i s Hws Hs Hst).
    change (clock wg) with (clock w). rewrite Hreq. reflexivity. }
  (* step 2: the challenge comes in *)
  destruct (waitForMessage_arrival "auth_challenge" 10000 preC evC (preS ++ evS :: rest)%list
              i challenge w1)
    as (w2 & Hwait2 & Ht2 & _ & _ & _ & _ & Hw2 & Hsh2);
    try assumption; try discriminate; try (rewrite Hclock1'; assumption).
  assert (Hclock2 : clock w2 = tC).
  { rewrite (waitForMessage_clock _ _ _ _ _ _ _ _ Hwait2), Hclock1'. reflexivity. }
  assert (Hrecv : receiveChallenge evs w1
                  = (Return challengeMessage, (preS ++ evS :: rest)%list, w2)).
  { unfold receiveChallenge, EventLoop.bind, lift, throw. subst evs.
    rewrite Hwait2, HlpC, HcmC. reflexivity. }
  (* step 3: the signed challenge goes out *)
  pose proof Ht2 as (Hsock2 & _ & Hwire2 & _ & _ & _ & _ & Hws2 & _ & Hq2 & _ & Hau2 & Hap2).
  cbn [sockets wire ws messageQueue authInProgress authPromise set_nextId] in
    Hsock2, Hwire2, Hws2, Hq2, Hau2, Hap2.
  assert (Hs2 : sockets w2 !! i = Some s1) by (rewrite Hsock2; exact Hs1).
  assert (Hws2' : ws w2 = Some i) by (rewrite Hws2; exact Hws1).
  assert (Hsteady2 : steady 1 s1) by (eapply steady_tail; eassumption).
  destruct (send_steady (JStr verify) i s1 w2 Hws2' Hs2 Hst1 Hsteady2)
    as (Hwire3 & Hq3 & Hws3 & Hopen3 & (s3 & Hs3 & Hst3 & _) & Hclock3 & _ & _ & Hau3 & Hap3).
  set (w3 := send (JStr verify) w2) in *.
  assert (Hw3 : well_formed w3) by now apply send_well_formed.
  assert (Hclock3' : clock w3 = tC) by (rewrite Hclock3; exact Hclock2).
  assert (Hverify : sendAuthVerify walletClient (authParams_of sessionKey userAddress)
                      challengeMessage (preS ++ evS :: rest)%list w2
                    = (Return tt, (preS ++ evS :: rest)%list, w3)).
  { unfold sendAuthVerify, EventLoop.bind, read, act, lift.
    rewrite Hclock2, Hver. reflexivity. }
  (* step 4: the confirmation comes in *)
  destruct (waitForMessage_arrival "auth_success" 10000 preS evS rest i confirmation w3)
    as (w4 & Hwait4 & Ht4 & _ & _ & _ & _ & Hw4 & Hsh4);
    try assumption; try discriminate; try (rewrite Hclock3'; assumption).
  assert (Htc : truthy confirmation = true).
  { destruct confirmation; cbn in Hres; try discriminate; try reflexivity;
      injection Hres as <-; discriminate. }
  assert (Hsucc : receiveSuccess (preS ++ evS :: rest)%list w3 = (session_of res, rest, w4)).
  { unfold receiveSuccess, EventLoop.bind, lift, throw.
    rewrite Hwait4. unfold lacks_res. rewrite Htc, Hres. cbn. rewrite Htres. reflexivity. }
  pose proof Ht4 as (Hsock4 & _ & Hwire4 & _ & _ & _ & _ & Hws4 & _ & Hq4 & _).
  cbn [sockets wire ws messageQueue set_nextId] in Hsock4, Hwire4, Hws4, Hq4.
  exists (release_guard w4).
  split; [| split; [| split; [| split; [| split; [| split]]]]].
  - unfold authenticate. rewrite Hidle. unfold runHandshake, _performAuthentication, handshake.
    fold wg. unfold EventLoop.bind at 1. fold evs. rewrite Hsend.
    unfold EventLoop.bind at 1. rewrite Hrecv.
    unfold EventLoop.bind at 1. rewrite Hverify. rewrite Hsucc. reflexivity.
  - cbn. rewrite Hwire4, Hwire3, Hwire2, Hwire1. cbn. rewrite <- app_assoc. reflexivity.
  - cbn. rewrite Hq4, Hq3, Hq2, Hq1. reflexivity.
  - reflexivity.
  - reflexivity.
  - unfold isAuthenticated. cbn [authInProgress release_guard set_authPromise set_authInProgress].
    rewrite andb_true_r.
    apply (isConnected_open _ i s3); cbn; [rewrite Hws4; exact Hws3 | rewrite Hsock4; exact Hs3 | exact Hst3].
  - intros k h Hin.
    apply (same_registry_shrinks wg w1 (send_registry _ _) k h), (Hsh2 k h),
      (same_registry_shrinks w2 w3 (send_registry _ _) k h), (Hsh4 k h).
    exact Hin.
Qed.


(** X10: the handshake that succeeds. Called while no handshake is in
    flight, on an open socket that stays open, when the SDK builds the
    request, the first auth_challenge arrives within 10000 ms of the call
    and carries a payload, the SDK signs its challenge message, and the
    first auth_success arrives within 10000 ms of the challenge with an
    object as its payload, whatever messages of other types arrive before
    or between the two: [authenticate] returns success with the balance of
    that payload, having consumed the tasks up to the confirmation and
    transmitted the request and then the signed challenge and nothing
    else; the guard is released, the manager reports authenticated, and no
    handler of the handshake is left registered. *)
Theorem authenticate_succeeds sessionKey walletClient userAddress
    i s preC evC preS evS rest challenge challengeMessage confirmation res data sid reported
    request verify w :
  authInProgress w = false -> well_formed w ->
  ws w = Some i -> sockets w !! i = Some s -> readyState s = OPEN -> steady 2 s ->
  createAuthRequestMessage (authParams_of sessionKey userAddress) (clock w) = Return request ->
  Forall (fun e => is_message e /\ at_ms e < clock w + 10000) preC ->
  none_of_type "auth_challenge" (clock w + 10000) preC ->
  what evC = SocketMessage i (Some challenge) -> at_ms evC < clock w + 10000 ->
  getMessageType challenge = Return (JStr "auth_challenge") ->
  lacks_payload challenge = Return false ->
  challenge_message_of challenge = Return challengeMessage ->
  createAuthVerifyMessageFromChallenge
    (createEIP712AuthMessageSigner walletClient (authParams_of sessionKey userAddress)
       "YellowPay Extension")
    challengeMessage (latest (clock w) (preC ++ [evC])) = Return verify ->
  Forall (fun e => is_message e /\ at_ms e < latest (clock w) (preC ++ [evC]) + 10000) preS ->
  none_of_type "auth_success" (latest (clock w) (preC ++ [evC]) + 10000) preS ->
  what evS = SocketMessage i (Some confirmation) ->
  at_ms evS < latest (clock w) (preC ++ [evC]) + 10000 ->
  getMessageType confirmation = Return (JStr "auth_success") ->
  get confirmation "res" = Return res -> truthy res = true ->
  at_index res 2 = Return data ->
  get data "session_id" = Return sid -> get data "balance" = Return reported ->
  exists w',
    authenticate sessionKey walletClient userAddress
      (preC ++ evC :: preS ++ evS :: rest)%list w
      = (Own {| success := true; balance := Some reported; error := None |}, rest, w') /\
    wire w' = (wire w ++ [request; verify])%list /\
    messageQueue w' = messageQueue w /\
    authInProgress w' = false /\ authPromise w' = None /\
    isAuthenticated w' = true /\
    shrinks w w'.
Proof.
  intros Hidle Hw Hws Hs Hst Hsteady Hreq HpreC HnoneC HevC HltC HtyC HlpC HcmC Hver
    HpreS HnoneS HevS HltS HtyS Hres Htres Hdata Hsid Hbal.
  destruct (authenticate_confirmed sessionKey walletClient userAddress i s preC evC preS evS
              rest challenge challengeMessage confirmation res request verify w)
    as (w' & Hcall & Hrest); try assumption.
  exists w'. split; [| exact Hrest].
  rewrite Hcall. unfold session_of. rewrite Hdata. cbn. rewrite Hsid. cbn. rewrite Hbal.
  reflexivity.
Qed.

(** X11: a confirmation without a payload is a failure. When the
    handshake runs as above, with any messages of other types before the
    challenge and between challenge and confirmation, but the auth_success
    message has no third element in [res] (or [null]), reading
    [session_id] from it throws: the call returns the failure result whose
    error is the text of that TypeError, not 'Invalid auth_success
    response', although both frames of the handshake were sent; and
    [isAuthenticated()] is true all the same. *)
Theorem confirmation_without_payload sessionKey walletClient userAddress
    i s preC evC preS evS rest challenge challengeMessage confirmation res data
    request verify w :
  authInProgress w = false -> well_formed w ->
  ws w = Some i -> sockets w !! i = Some s -> readyState s = OPEN -> steady 2 s ->
  createAuthRequestMessage (authParams_of sessionKey userAddress) (clock w) = Return request ->
  Forall (fun e => is_message e /\ at_ms e < clock w + 10000) preC ->
  none_of_type "auth_challenge" (clock w + 10000) preC ->
  what evC = SocketMessage i (Some challenge) -> at_ms evC < clock w + 10000 ->
  getMessageType challenge = Return (JStr "auth_challenge") ->
  lacks_payload challenge = Return false ->
  challenge_message_of challenge = Return challengeMessage ->
  createAuthVerifyMessageFromChallenge
    (createEIP712AuthMessageSigner walletClient (authParams_of sessionKey userAddress)
       "YellowPay Extension")
    challengeMessage (latest (clock w) (preC ++ [evC])) = Return verify ->
  Forall (fun e => is_message e /\ at_ms e < latest (clock w) (preC ++ [evC]) + 10000) preS ->
  none_of_type "auth_success" (latest (clock w) (preC ++ [evC]) + 10000) preS ->
  what evS = SocketMessage i (Some confirmation) ->
  at_ms evS < latest (clock w) (preC ++ [evC]) + 10000 ->
  getMessageType confirmation = Return (JStr "auth_success") ->
  get confirmation "res" = Return res -> truthy res = true ->
  at_index res 2 = Return data -> (data = JUndefined \/ data = JNull) ->
  exists w',
    authenticate sessionKey walletClient userAddress
      (preC ++ evC :: preS ++ evS :: rest)%list w
      = (Own {| success := false; balance := None;
                error := Some ("Cannot read properties of "
                               ++ (if JSON.is_undefined data then "undefined" else "null")
                               ++ " (reading 'session_id')") |}, rest, w') /\
    wire w' = (wire w ++ [request; verify])%list /\
    isAuthenticated w' = true.
Proof.
  intros Hidle Hw Hws Hs Hst Hsteady Hreq HpreC HnoneC HevC HltC HtyC HlpC HcmC Hver
    HpreS HnoneS HevS HltS HtyS Hres Htres Hdata Hnone.
  destruct (authenticate_confirmed sessionKey walletClient userAddress i s preC evC preS evS
              rest challenge challengeMessage confirmation res request verify w)
    as (w' & Hcall & Hwire & _ & _ & _ & Hauth & _); try assumption.
  exists w'. split; [| split; assumption].
  rewrite Hcall. unfold session_of. rewrite Hdata.
  destruct Hnone as [-> | ->]; reflexivity.
Qed.

End HappyPath.

Lemma quiet_pushes (t deadline : Z) (messageType : string) :
  t < deadline -> messageType <> "balance_update" ->
  Forall (fun e => is_message e /\ at_ms e < deadline) [message_at t balance_push] /\
  none_of_type messageType deadline [message_at t balance_push].
Proof.
  intros Hlt Hne. split.
  - constructor; [split; [exact I | exact Hlt] | constructor].
  - intros ev i m Hin _ Hwhat.
    apply list_elem_of_singleton in Hin. subst ev. injection Hwhat as _ <-.
    intros [= H]. apply Hne. symmetry. exact H.
Qed.

Lemma authenticate_succeeds_witness :
  exists w',
    AuthManager.authenticate (sdk := signing_sdk) sample_key tt "0xUser"
      [message_at 50 balance_push; message_at 100 full_challenge;
       message_at 150 balance_push; message_at 200 success_message] connected_world
    = (AuthManager.Own {| AuthManager.success := true;
                          AuthManager.balance := Some (JStr "250");
                          AuthManager.error := None |}, [], w') /\
    length (wire w') = 2%nat.
Proof.
  destruct (quiet_pushes 50 (clock connected_world + 10000) "auth_challenge")
    as [HpreC HnoneC]; [reflexivity | discriminate |].
  destruct (quiet_pushes 150
              (latest (clock connected_world)
                 ([message_at 50 balance_push] ++ [message_at 100 full_challenge]) + 10000)
              "auth_success") as [HpreS HnoneS]; [reflexivity | discriminate |].
  destruct (authenticate_succeeds (sdk := signing_sdk) sample_key tt "0xUser" 0%nat
              {| readyState := OPEN; script := [] |}
              [message_at 50 balance_push] (message_at 100 full_challenge)
              [message_at 150 balance_push] (message_at 200 success_message) []
              full_challenge (JStr "c-1") success_message
              (JArr [JNum 2; JStr "auth_success";
                     JObj [("session_id", JStr "s1"); ("balance", JStr "250")]])
              (JObj [("session_id", JStr "s1"); ("balance", JStr "250")])
              (JStr "s1") (JStr "250")
              ("auth_request " ++ "0xUser") ("auth_verify " ++ JSON.stringify (JStr "c-1"))
              connected_world eq_refl connected_world_well_formed eq_refl eq_refl eq_refl)
    as (w' & Hcall & Hwire & _); try assumption; try reflexivity.
  - constructor.
  - exists w'. split; [exact Hcall |]. rewrite Hwire. reflexivity.
Defined.

Lemma confirmation_without_payload_witness :
  exists w',
    AuthManager.authenticate (sdk := signing_sdk) sample_key tt "0xUser"
      [message_at 50 balance_push; message_at 100 full_challenge;
       message_at 150 balance_push; message_at 200 bare_success] connected_world
    = (AuthManager.Own {| AuthManager.success := false; AuthManager.balance := None;
                          AuthManager.error :=
                            Some "Cannot read properties of undefined (reading 'session_id')" |},
       [], w') /\
    AuthManager.isAuthenticated w' = true.
Proof.
  destruct (quiet_pushes 50 (clock connected_world + 10000) "auth_challenge")
    as [HpreC HnoneC]; [reflexivity | discriminate |].
  destruct (quiet_pushes 150
              (latest (clock connected_world)
                 ([message_at 50 balance_push] ++ [message_at 100 full_challenge]) + 10000)
              "auth_success") as [HpreS HnoneS]; [reflexivity | discriminate |].
  destruct (confirmation_without_payload (sdk := signing_sdk) sample_key tt "0xUser" 0%nat
              {| readyState := OPEN; script := [] |}
              [message_at 50 balance_push] (message_at 100 full_challenge)
              [message_at 150 balance_push] (message_at 200 bare_success) []
              full_challenge (JStr "c-1") bare_success
              (JArr [JNum 2; JStr "auth_success"]) JUndefined
              ("auth_request " ++ "0xUser") ("auth_verify " ++ JSON.stringify (JStr "c-1"))
              connected_world eq_refl connected_world_well_formed eq_refl eq_refl eq_refl)
    as (w' & Hcall & _ & Hauth); try assumption; try reflexivity.
  - constructor.
  - left. reflexivity.
  - exists w'. split; [exact Hcall | exact Hauth].
Defined.

(** ** The challenge field *)

Section AbsentChallenge.
Import WebSocketManager AuthManager.
Context `{sdk : Nitrolite}.



End AbsentChallenge.


(** ** isAuthenticated and the guard of authenticate *)

Section FlagFacts.
Import WebSocketManager AuthManager.











End FlagFacts.


(** ** Further properties: passwords *)

Section PasswordFacts.
Import SessionKeyManager.

Lemma append_nil_r s : s ++ EmptyString = s.
Proof.
  induction s as [|c s IH]; [reflexivity |].
  change (String c (s ++ EmptyString) = String c s). now rewrite IH.
Qed.

Lemma append_assoc s t u : (s ++ t) ++ u = s ++ (t ++ u).
Proof.
  induction s as [|c s IH]; [reflexivity |].
  change (String c ((s ++ t) ++ u) = String c (s ++ (t ++ u))). now rewrite IH.
Qed.

Lemma fold_chars {A} (f : A -> string) (g : A -> ascii) l : forall init,
  (forall i, f i = String (g i) EmptyString) ->
  fold_left (fun acc i => acc ++ f i) l init = init ++ Text.text (map g l).
Proof.
  induction l as [|a l IH]; intros init Hf; cbn [fold_left map].
  - change (Text.text []) with EmptyString. now rewrite append_nil_r.
  - rewrite IH by exact Hf. rewrite append_assoc, Hf. reflexivity.
Qed.

(** The character at a position of the charset. *)
Lemma charset_at_char k :
  (k < 70)%N ->
  exists c, charset_at k = String c EmptyString /\ Text.chars charset !! N.to_nat k = Some c.
Proof.
  intros Hk. unfold charset_at.
  destruct (Text.chars charset !! N.to_nat k) as [c|] eqn:E; [eauto |].
  apply lookup_ge_None in E. vm_compute length in E. lia.
Qed.

Lemma charset_classes k c :
  Text.chars charset !! N.to_nat k = Some c -> char_class c = class_of k.
Proof.
  intros E.
  assert (Hall : forallb (fun i => match Text.chars charset !! i with
                                   | Some c => (char_class c =? class_of (N.of_nat i))%N
                                   | None => true
                                   end) (seq 0 70) = true) by (vm_compute; reflexivity).
  rewrite forallb_forall in Hall.
  assert (Hlt : (N.to_nat k < 70)%nat).
  { apply lookup_lt_Some in E. vm_compute length in E. exact E. }
  specialize (Hall (N.to_nat k)). rewrite E, N2Nat.id in Hall.
  apply N.eqb_eq, Hall, in_seq. lia.
Qed.

Lemma picked_lt random i : (picked random i < 70)%N.
Proof. unfold picked. apply N.mod_lt. discriminate. Qed.

Lemma pick_char_lookup random i :
  Text.chars charset !! N.to_nat (picked random i) = Some (pick_char random i).
Proof.
  destruct (charset_at_char _ (picked_lt random i)) as (c & _ & Hl).
  unfold pick_char. rewrite Hl. reflexivity.
Qed.

Lemma generatePassword_chars random :
  generatePassword random = Text.text (map (pick_char random) (seq 0 16)).
Proof.
  unfold generatePassword.
  rewrite (fold_chars _ (pick_char random)); [reflexivity |].
  intros i. change (N.of_nat (String.length charset)) with 70%N.
  fold (picked random i).
  destruct (charset_at_char _ (picked_lt random i)) as (c & -> & Hl).
  unfold pick_char. rewrite Hl. reflexivity.
Qed.

Lemma char_class_ranges c :
  in_range "a" "z" c = (char_class c =? 0)%N /\
  in_range "A" "Z" c = (char_class c =? 1)%N /\
  in_range "0" "9" c = (char_class c =? 2)%N.
Proof.
  unfold in_range, char_class.
  change (N_of_ascii "a") with 97%N. change (N_of_ascii "z") with 122%N.
  change (N_of_ascii "A") with 65%N. change (N_of_ascii "Z") with 90%N.
  change (N_of_ascii "0") with 48%N. change (N_of_ascii "9") with 57%N.
  generalize (N_of_ascii c). intros n.
  destruct (N.leb_spec 97 n), (N.leb_spec n 122), (N.leb_spec 65 n), (N.leb_spec n 90),
    (N.leb_spec 48 n), (N.leb_spec n 57); cbn; repeat split; try reflexivity; lia.
Qed.

Lemma has_in_range_text lo hi cs :
  has_in_range lo hi (Text.text cs) = existsb (in_range lo hi) cs.
Proof. unfold has_in_range. rewrite chars_text. reflexivity. Qed.

Lemma existsb_picks (P : ascii -> bool) random :
  existsb P (map (pick_char random) (seq 0 16)) = true <->
  exists i, (i < 16)%nat /\ P (pick_char random i) = true.
Proof.
  rewrite existsb_exists. split.
  - intros (c & Hin & HP). apply in_map_iff in Hin. destruct Hin as (i & <- & Hi).
    apply in_seq in Hi. exists i. split; [lia | exact HP].
  - intros (i & Hi & HP). exists (pick_char random i). split; [| exact HP].
    apply in_map_iff. exists i. split; [reflexivity | apply in_seq; lia].
Qed.

Lemma pick_class random i : char_class (pick_char random i) = class_of (picked random i).
Proof. apply charset_classes, pick_char_lookup. Qed.

(** X14: [validatePassword] accepts exactly the passwords of at least 8
    code units that hold an upper case letter, a lower case letter and a
    digit; a shorter password gets the message about 8 characters whatever
    it holds, a longer one that is rejected gets the message about the
    three classes, and an accepted one gets no message. *)
Theorem validatePassword_spec (password : string) :
  (valid (validatePassword password) = true <->
     (8 <= String.length password)%nat /\
     (exists c, c ∈ Text.chars password /\ in_range "A" "Z" c = true) /\
     (exists c, c ∈ Text.chars password /\ in_range "a" "z" c = true) /\
     (exists c, c ∈ Text.chars password /\ in_range "0" "9" c = true)) /\
  ((String.length password < 8)%nat ->
     validatePassword password
     = {| valid := false; message := Some "Password must be at least 8 characters" |}) /\
  ((8 <= String.length password)%nat -> valid (validatePassword password) = false ->
     message (validatePassword password)
     = Some "Password must contain uppercase, lowercase, and numbers") /\
  (valid (validatePassword password) = true -> message (validatePassword password) = None).
Proof.
  assert (Hex : forall lo hi,
            has_in_range lo hi password = true <->
            exists c, c ∈ Text.chars password /\ in_range lo hi c = true).
  { intros lo hi. unfold has_in_range. rewrite existsb_exists. fold (in_range lo hi).
    split; intros (c & Hin & Hc); exists c; (split; [| exact Hc]);
      [apply list_elem_of_In | apply list_elem_of_In in Hin]; exact Hin. }
  unfold validatePassword.
  destruct (Nat.ltb_spec (String.length password) 8) as [Hshort | Hlong].
  - cbn. split; [split; [discriminate | intros (H & _); lia] |].
    split; [reflexivity |]. split; [lia | discriminate].
  - destruct (has_in_range "A" "Z" password) eqn:HU,
             (has_in_range "a" "z" password) eqn:HL,
             (has_in_range "0" "9" password) eqn:HN; cbn;
      (split; [split; [try discriminate; intros _; repeat split; try assumption;
                       apply Hex; assumption
                      | intros (_ & HU' & HL' & HN');
                        apply Hex in HU'; apply Hex in HL'; apply Hex in HN'; congruence]
              | split; [lia | split; [intros; reflexivity || discriminate
                                     | intros; reflexivity || discriminate]]]).
Qed.

Lemma length_text cs : String.length (Text.text cs) = length cs.
Proof. induction cs as [|c cs IH]; cbn; [reflexivity | now rewrite <- IH]. Qed.

Lemma class_of_cases k :
  ((class_of k =? 0)%N = true <-> (k < 26)%N) /\
  ((class_of k =? 1)%N = true <-> (26 <= k < 52)%N) /\
  ((class_of k =? 2)%N = true <-> (52 <= k < 62)%N).
Proof.
  unfold class_of.
  destruct (N.ltb_spec k 26), (N.ltb_spec k 52), (N.ltb_spec k 62); cbn;
    repeat split; intros; try discriminate; try reflexivity; lia.
Qed.

(** X15: [generatePassword] returns 16 characters of the charset,
    whatever the random bytes, so the password always passes the length
    test of [validatePassword]; but it passes the whole validation exactly
    when some byte selects an upper case letter, some byte a lower case
    letter and some byte a digit, which the random bytes need not do: with
    16 zero bytes the password is rejected. *)
Theorem generatePassword_spec (random : list N) :
  String.length (generatePassword random) = 16%nat /\
  (forall c, c ∈ Text.chars (generatePassword random) -> c ∈ Text.chars charset) /\
  (valid (validatePassword (generatePassword random)) = true <->
     (exists i, (i < 16)%nat /\ (26 <= picked random i < 52)%N) /\
     (exists i, (i < 16)%nat /\ (picked random i < 26)%N) /\
     (exists i, (i < 16)%nat /\ (52 <= picked random i < 62)%N)) /\
  validatePassword (generatePassword (replicate 16 0%N))
  = {| valid := false;
       message := Some "Password must contain uppercase, lowercase, and numbers" |}.
Proof.
  assert (Hlen : String.length (generatePassword random) = 16%nat).
  { rewrite generatePassword_chars, length_text, length_map, length_seq. reflexivity. }
  assert (Hcls : forall lo hi k,
            (forall c, in_range lo hi c = (char_class c =? k)%N) ->
            has_in_range lo hi (generatePassword random) = true <->
            exists i, (i < 16)%nat /\ (class_of (picked random i) =? k)%N = true).
  { intros lo hi k Hr. rewrite generatePassword_chars, has_in_range_text, existsb_picks.
    split; intros (i & Hi & H); exists i; (split; [exact Hi |]);
      rewrite Hr, pick_class in *; exact H. }
  pose proof (Hcls "A"%char "Z"%char 1%N (fun c => proj1 (proj2 (char_class_ranges c)))) as HU.
  pose proof (Hcls "a"%char "z"%char 0%N (fun c => proj1 (char_class_ranges c))) as HL.
  pose proof (Hcls "0"%char "9"%char 2%N (fun c => proj2 (proj2 (char_class_ranges c)))) as HN.
  split; [exact Hlen |]. split; [| split; [| vm_compute; reflexivity]].
  - intros c Hin. rewrite generatePassword_chars, chars_text in Hin.
    apply list_elem_of_In, in_map_iff in Hin. destruct Hin as (i & <- & _).
    apply list_elem_of_lookup. eexists. apply pick_char_lookup.
  - unfold validatePassword. rewrite Hlen. cbn [Nat.ltb Nat.leb].
    destruct (has_in_range "A" "Z" (generatePassword random)) eqn:EU,
             (has_in_range "a" "z" (generatePassword random)) eqn:EL,
             (has_in_range "0" "9" (generatePassword random)) eqn:EN; cbn.
    all: split; [intros Hv | intros (HU' & HL' & HN')]; try discriminate.
    all: try (repeat split;
              [ destruct (proj1 HU eq_refl) as (i & Hi & H) | destruct (proj1 HL eq_refl) as (i & Hi & H)
              | destruct (proj1 HN eq_refl) as (i & Hi & H)];
              exists i; (split; [exact Hi |]); apply class_of_cases; exact H).
    all: try reflexivity.
    all: exfalso.
    all: destruct HU' as (iu & Hiu & Hu), HL' as (il & Hil & Hl), HN' as (inn & Hin & Hn).
    all: apply class_of_cases in Hu, Hl, Hn.
    all: try (assert (true = true) as _ by reflexivity;
              first [ assert (false = true) as Hc by (apply HU; eauto); discriminate Hc
                    | assert (false = true) as Hc by (apply HL; eauto); discriminate Hc
                    | assert (false = true) as Hc by (apply HN; eauto); discriminate Hc ]).
Qed.

End PasswordFacts.

(** ** Further properties: the life of a session key *)

Section KeyLifeFacts.
Import SessionKeyManager.

(** X16: the characters of a generated password are not equally likely.
    A character is selected by [byte % 70]; of the 256 values of a byte, 4
    select each of the first 46 characters of the charset and 3 select
    each of the other 24. *)
Theorem generatePassword_bias (k : nat) :
  (k < 70)%nat ->
  length (List.filter (fun b => selects (N.of_nat b) k) (seq 0 256))
  = if (k <? 46)%nat then 4%nat else 3%nat.
Proof.
  intros Hk.
  assert (Hall : forallb (fun k =>
                    Nat.eqb (length (List.filter (fun b => selects (N.of_nat b) k) (seq 0 256)))
                            (if (k <? 46)%nat then 4%nat else 3%nat)) (seq 0 70) = true)
    by (vm_compute; reflexivity).
  rewrite forallb_forall in Hall. apply Nat.eqb_eq, Hall, in_seq. lia.
Qed.

(** X17: the remaining time of a key is never negative; it is 0 exactly
    from the expiry instant on, although at that instant the key does not
    count as expired yet; an expired key is displayed as '0s'; otherwise
    the display is the whole minutes and the whole seconds left, the
    minutes left out when there are none, and fractions of a second
    dropped. *)
Theorem remaining_time_spec (key : SessionKey) (w : World) :
  0 <= getRemainingTime key w /\
  (getRemainingTime key w = 0 <-> expiresAt key <= clock w) /\
  (isExpired key w = true -> formatRemainingTime key w = "0s") /\
  (clock w = expiresAt key -> getRemainingTime key w = 0 /\ isExpired key w = false) /\
  (forall m s r,
     0 <= m -> 0 <= s < 60 -> 0 <= r < 1000 ->
     expiresAt key - clock w = 60000 * m + 1000 * s + r ->
     formatRemainingTime key w
     = if 0 <? m then Text.toString m ++ "m " ++ Text.toString s ++ "s"
       else Text.toString s ++ "s").
Proof.
  unfold getRemainingTime, isExpired, formatRemainingTime, getRemainingTime.
  split; [lia |]. split; [lia |]. split; [| split].
  - intros H. apply Z.ltb_lt in H. rewrite Z.max_l by lia. reflexivity.
  - intros ->. split; [lia | apply Z.ltb_irrefl].
  - intros m s r Hm Hs Hr Heq. rewrite Heq, Z.max_r by lia.
    assert (Hmin : (60000 * m + 1000 * s + r) / 60000 = m).
    { symmetry. apply (Z.div_unique _ _ _ (1000 * s + r)); lia. }
    assert (Hmod : (60000 * m + 1000 * s + r) mod 60000 = 1000 * s + r).
    { symmetry. apply (Z.mod_unique _ _ m); lia. }
    assert (Hsec : (1000 * s + r) / 1000 = s).
    { symmetry. apply (Z.div_unique _ _ _ r); lia. }
    rewrite Hmin, Hmod, Hsec. reflexivity.
Qed.

Section AnyVault.
Context `{vault : Vault}.

(** X18: saving and loading a key. With a cipher that decrypts what it
    encrypted under the same password and a [JSON.parse] that reads back
    what [JSON.stringify] printed, [loadFromStorage] after [saveToStorage]
    returns the saved key as long as the clock has not passed its expiry
    and leaves the storage alone; once the key is expired it returns
    [null] and removes both entries, so that the next load finds no key. *)
Theorem save_then_load (key : SessionKey) (password : string) (w : World) :
  AES_decrypt (AES_encrypt (JSON.stringify (Types.to_json key)) password) password
    = Return (JSON.stringify (Types.to_json key)) ->
  JSON_parse (JSON.stringify (Types.to_json key)) = Return key ->
  AES_encrypt (JSON.stringify (Types.to_json key)) password <> EmptyString ->
  let saved := saveToStorage key password w in
  (clock w <= expiresAt key -> loadFromStorage password saved = (Some key, saved)) /\
  (expiresAt key < clock w ->
     loadFromStorage password saved = (None, clearFromStorage saved) /\
     storage (clearFromStorage saved) !! "encryptedSessionKey" = None /\
     storage (clearFromStorage saved) !! "sessionKeyExpiry" = None /\
     loadFromStorage password (clearFromStorage saved) = (None, clearFromStorage saved)) /\
  (forall t, fst (loadFromStorage password (set_clock t saved))
             = if expiresAt key <? t then None else Some key).
Proof.
  intros Hdec Hparse Hne saved.
  assert (Hload : forall t,
            loadFromStorage password (set_clock t saved)
            = if expiresAt key <? t then (None, clearFromStorage (set_clock t saved))
              else (Some key, set_clock t saved)).
  { intros t. unfold loadFromStorage, saved, saveToStorage. cbn [storage set_storage set_clock].
    rewrite lookup_insert_ne by discriminate. rewrite lookup_insert_eq. cbn [default id truthy].
    destruct (String.eqb_spec (AES_encrypt (JSON.stringify (Types.to_json key)) password)
                EmptyString) as [E | _]; [contradiction |].
    cbn [negb decrypt_key]. rewrite Hdec. cbn [Js.bind]. rewrite Hparse.
    unfold isExpired. cbn [clock set_clock]. reflexivity. }
  assert (Hsame : set_clock (clock w) saved = saved) by (destruct w; reflexivity).
  split; [| split].
  - intros Hlive. specialize (Hload (clock w)). rewrite Hsame in Hload. rewrite Hload.
    destruct (Z.ltb_spec (expiresAt key) (clock w)); [lia | reflexivity].
  - intros Hexp. specialize (Hload (clock w)). rewrite Hsame in Hload. rewrite Hload.
    destruct (Z.ltb_spec (expiresAt key) (clock w)); [| lia].
    split; [reflexivity |].
    assert (H1 : storage (clearFromStorage saved) !! "encryptedSessionKey" = None).
    { unfold clearFromStorage. cbn. rewrite lookup_delete_ne by discriminate.
      apply lookup_delete_eq. }
    split; [exact H1 |]. split.
    + unfold clearFromStorage. cbn. apply lookup_delete_eq.
    + unfold loadFromStorage. rewrite H1. reflexivity.
  - intros t. rewrite Hload. destruct (_ <? _); reflexivity.
Qed.

(** X19: what [rotateIfNeeded] hands back. The key it returns is never
    expired, and it carries the allowances of the key it was given (the
    default allowance when it was given none). It therefore still needs
    rotation exactly when the amount spent reaches its allowance for the
    asset: a rotation caused by an exceeded allowance yields a key that
    needs rotation again at once. *)
Theorem rotateIfNeeded_fresh (sessionKey : option SessionKey)
    (spent asset_name password : string) (w : World) :
  let k := (rotateIfNeeded sessionKey spent asset_name password w).1 in
  let w' := (rotateIfNeeded sessionKey spent asset_name password w).2 in
  clock w' = clock w /\
  isExpired k w' = false /\
  allowances k = match sessionKey with
                 | Some key => allowances key
                 | None => default_allowances
                 end /\
  (needsRotation k spent asset_name w' = true <->
   exists a, find_allowance asset_name (allowances k) = Some a /\
             Float64.ge (Float64.parseFloat spent) (Float64.parseFloat (Types.amount a))
             = true) /\
  (forall key, sessionKey = Some key -> isExpired key w = false ->
     needsRotation key spent asset_name w = true ->
     needsRotation k spent asset_name w' = true).
Proof.
  intros k w'.
  assert (Hrot : forall al,
            let r := (let '(newSessionKey, w0) := generateSessionKey al w in
                      (newSessionKey, saveToStorage newSessionKey password w0)) in
            clock r.2 = clock w /\ expiresAt r.1 = clock w + 3600000 /\ allowances r.1 = al).
  { intros al. unfold generateSessionKey, generatePrivateKey.
    destruct (entropy w) as [|e rest]; cbn; repeat split. }
  assert (H : clock w' = clock w /\ isExpired k w' = false /\
              allowances k = match sessionKey with
                             | Some key => allowances key
                             | None => default_allowances
                             end).
  { subst k w'. unfold rotateIfNeeded.
    destruct sessionKey as [key|].
    - destruct (needsRotation key spent asset_name w) eqn:En.
      + destruct (Hrot (allowances key)) as (Hc & He & Ha).
        destruct (generateSessionKey (allowances key) w) as [nk w0]. cbn in *.
        split; [exact Hc |]. split; [| exact Ha].
        unfold isExpired, SESSION_KEY_DURATION in *. cbn. rewrite Hc, He. apply Z.ltb_ge. lia.
      + cbn. split; [reflexivity |]. split; [| reflexivity].
        unfold needsRotation in En. destruct (isExpired key w); [discriminate | reflexivity].
    - destruct (Hrot default_allowances) as (Hc & He & Ha).
      destruct (generateSessionKey default_allowances w) as [nk w0]. cbn in *.
      split; [exact Hc |]. split; [| exact Ha].
      unfold isExpired in *. cbn. rewrite Hc, He. apply Z.ltb_ge. lia. }
  destruct H as (Hc & He & Ha).
  assert (Hiff : needsRotation k spent asset_name w' = true <->
                 exists a, find_allowance asset_name (allowances k) = Some a /\
                           Float64.ge (Float64.parseFloat spent)
                                      (Float64.parseFloat (Types.amount a)) = true).
  { rewrite needsRotation_true. unfold isExpired in He. apply Z.ltb_ge in He.
    split; [intros [Hexp | Hex]; [lia | exact Hex] | auto]. }
  split; [exact Hc |]. split; [exact He |]. split; [exact Ha |]. split; [exact Hiff |].
  intros key -> Hlive Hneeds. apply Hiff. rewrite Ha.
  apply needsRotation_true in Hneeds. unfold isExpired in Hlive. apply Z.ltb_ge in Hlive.
  destruct Hneeds as [Hexp | Hex]; [lia | exact Hex].
Qed.

End AnyVault.
End KeyLifeFacts.

Lemma generatePassword_bias_witness :
  (0 < 70)%nat /\
  List.filter (fun b => selects (N.of_nat b) 0) (seq 0 256) = [0; 70; 140; 210]%nat.
Proof.
  split; [lia |].
  pose proof (generatePassword_bias 0 ltac:(lia)) as H.
  assert (E : List.filter (fun b => selects (N.of_nat b) 0) (seq 0 256) = [0; 70; 140; 210]%nat)
    by (vm_compute; reflexivity).
  rewrite E in H |- *. reflexivity.
Defined.

Lemma save_then_load_witness :
  SessionKeyManager.loadFromStorage (vault := sample_vault) "Passw0rd" stored_key_world
    = (Some sample_key, stored_key_world) /\
  fst (SessionKeyManager.loadFromStorage (vault := sample_vault) "Passw0rd"
         (set_clock 3600001 stored_key_world)) = None.
Proof.
  destruct (save_then_load (vault := sample_vault) sample_key "Passw0rd" (startup 0 [] [] ∅))
    as (Hlive & _ & Hlater).
  - reflexivity.
  - reflexivity.
  - discriminate.
  - split; [apply Hlive; vm_compute; discriminate | exact (Hlater 3600001)].
Defined.

Lemma rotateIfNeeded_fresh_witness :
  SessionKeyManager.needsRotation sample_key "150" "ytest.usd" (startup 0 [] [] ∅) = true /\
  SessionKeyManager.needsRotation
    (SessionKeyManager.rotateIfNeeded (vault := sample_vault) (Some sample_key)
       "150" "ytest.usd" "Passw0rd" (startup 0 [] [] ∅)).1
    "150" "ytest.usd"
    (SessionKeyManager.rotateIfNeeded (vault := sample_vault) (Some sample_key)
       "150" "ytest.usd" "Passw0rd" (startup 0 [] [] ∅)).2 = true.
Proof.
  assert (H : SessionKeyManager.needsRotation sample_key "150" "ytest.usd" (startup 0 [] [] ∅)
              = true) by (vm_compute; reflexivity).
  split; [exact H |].
  refine (proj2 (proj2 (proj2 (proj2
            (rotateIfNeeded_fresh (vault := sample_vault) (Some sample_key) "150" "ytest.usd"
               "Passw0rd" (startup 0 [] [] ∅))))) sample_key eq_refl _ H).
  vm_compute. reflexivity.
Defined.

(** ** Further properties: the transport stays in order *)

Section TransportInvariant.
Import WebSocketManager.

Lemma backoff_range n : 1 <= n -> 2000 <= backoff n <= 30000.
Proof.
  intros Hn. unfold backoff.
  assert (2 ^ 1 <= 2 ^ n) by (apply Z.pow_le_mono_r; lia).
  change (2 ^ 1) with 2 in *. lia.
Qed.

Lemma scheduleReconnect_ok w : transport_ok w -> transport_ok (scheduleReconnect w).
Proof.
  intros Hok.
  destruct (scheduleReconnect_untouched w) as (Hq' & _ & Hws' & Hs').
  destruct Hok as (Hra & Htm & Hws & Hq).
  assert (Hfirst :
    0 <= reconnectAttempts (scheduleReconnect w) <= maxReconnectAttempts /\
    (forall id delay, timers (scheduleReconnect w) !! id = Some delay ->
       reconnectTimeout (scheduleReconnect w) = Some id /\ 2000 <= delay <= 30000)).
  { clear Hq' Hws' Hs' Hws Hq. unfold scheduleReconnect.
    destruct (Z.leb_spec maxReconnectAttempts (reconnectAttempts w)) as [|Hlt];
      [split; assumption |].
    destruct w as [clk socks upc wr tms sto ent stl nid ws0 ra mq mh rt aip ap bc].
    unfold maxReconnectAttempts in *. cbn in *.
    assert (Hothers : forall id delay,
              match rt with Some old => delete old tms | None => tms end !! id = Some delay ->
              False).
    { intros id delay. destruct rt as [old|].
      - intros Hl. apply lookup_delete_Some in Hl. destruct Hl as [Hne Hl].
        destruct (Htm id delay Hl) as [[= ->] _]. congruence.
      - intros Hl. destruct (Htm id delay Hl) as [[=] _]. }
    split; [destruct rt; cbn; lia |].
    intros id delay Hl.
    assert (Hl' : <[nid := backoff (ra + 1)]>
                    (match rt with Some old => delete old tms | None => tms end) !! id
                  = Some delay) by (destruct rt; exact Hl).
    apply lookup_insert_Some in Hl'. destruct Hl' as [[<- <-] | [_ Hl']].
    + split; [destruct rt; reflexivity | apply backoff_range; lia].
    + exfalso. eapply Hothers. exact Hl'. }
  destruct Hfirst as [H1 H2].
  split; [exact H1 |]. split; [exact H2 |]. split.
  - rewrite Hws', Hs'. exact Hws.
  - unfold isConnected, readyState_is, socket. rewrite Hws', Hs', Hq'. exact Hq.
Qed.

Lemma connect_ok w : transport_ok w -> transport_ok (connect w).
Proof.
  intros Hok. unfold connect. destruct (isConnected w) eqn:Hc; [exact Hok |].
  assert (Hnew : forall sc up,
            transport_ok (set_ws (Some (length (sockets w)))
                            (set_sockets (sockets w ++ [{| readyState := CONNECTING; script := sc |}])
                               (set_upcoming up w)))).
  { intros sc up. destruct Hok as (Hra & Htm & Hws & Hq).
    split; [exact Hra |]. split; [exact Htm |]. split.
    - cbn. intros i [= <-]. rewrite length_app. cbn. lia.
    - unfold isConnected, readyState_is, socket. cbn.
      rewrite lookup_app_r, Nat.sub_diag by lia. cbn.
      intros H. apply bool_decide_eq_true in H. discriminate. }
  destruct (upcoming w) as [|[sc|] rest] eqn:Eup.
  - specialize (Hnew [] []). rewrite <- Eup in Hnew.
    replace (set_upcoming (upcoming w) w) with w in Hnew by (destruct w; reflexivity).
    exact Hnew.
  - apply Hnew.
  - apply scheduleReconnect_ok. exact Hok.
Qed.

Lemma ws_send_ok frame w :
  transport_ok w -> messageQueue w = [] -> transport_ok (ws_send frame w).
Proof.
  intros Hok Hempty. unfold ws_send, transmit.
  destruct (ws w) as [i|] eqn:Ews; [| exact Hok].
  destruct (sockets w !! i) as [s|] eqn:Es; [| exact Hok].
  destruct Hok as (Hra & Htm & Hws & Hq).
  split; [exact Hra |]. split; [exact Htm |]. split.
  - cbn. intros j Hj. rewrite length_insert. apply Hws. congruence.
  - intros _. exact Hempty.
Qed.

Lemma flush_loop_ok fuel : forall w,
  (length (messageQueue w) <= fuel)%nat ->
  0 <= reconnectAttempts w <= maxReconnectAttempts ->
  (forall id delay, timers w !! id = Some delay ->
     reconnectTimeout w = Some id /\ 2000 <= delay <= 30000) ->
  (forall i, ws w = Some i -> (i < length (sockets w))%nat) ->
  transport_ok (flush_loop fuel w).
Proof.
  induction fuel as [|fuel IH]; intros w Hlen Hra Htm Hws; cbn [flush_loop].
  - split; [exact Hra |]. split; [exact Htm |]. split; [exact Hws |].
    intros _. destruct (messageQueue w); [reflexivity | cbn in Hlen; lia].
  - destruct (messageQueue w) as [|message rest] eqn:Eq.
    + split; [exact Hra |]. split; [exact Htm |]. split; [exact Hws |]. intros _. exact Eq.
    + apply IH.
      * rewrite flush_turn_queue. cbn in Hlen. lia.
      * unfold flush_turn. destruct (isConnected _); [| exact Hra].
        unfold ws_send, transmit. cbn.
        destruct (ws w); [destruct (sockets w !! n) |]; exact Hra.
      * unfold flush_turn. destruct (isConnected _); [| exact Htm].
        unfold ws_send, transmit. cbn.
        destruct (ws w); [destruct (sockets w !! n) |]; exact Htm.
      * unfold flush_turn. destruct (isConnected _); [| exact Hws].
        unfold ws_send, transmit. cbn.
        destruct (ws w) as [j|] eqn:Ews; [destruct (sockets w !! j) |]; cbn;
          rewrite ?length_insert; intros i Hi; apply Hws; congruence.
Qed.

Lemma set_readyState_fields i st w :
  reconnectAttempts (set_readyState i st w) = reconnectAttempts w /\
  timers (set_readyState i st w) = timers w /\
  reconnectTimeout (set_readyState i st w) = reconnectTimeout w /\
  ws (set_readyState i st w) = ws w /\
  length (sockets (set_readyState i st w)) = length (sockets w) /\
  messageQueue (set_readyState i st w) = messageQueue w.
Proof.
  unfold set_readyState. destruct (sockets w !! i); cbn; rewrite ?length_insert; repeat split.
Qed.

Lemma handleOpen_ok i w : transport_ok w -> transport_ok (handleOpen (set_readyState i OPEN w)).
Proof.
  intros (Hra & Htm & Hws & Hq). unfold handleOpen, flushMessageQueue.
  destruct (set_readyState_fields i OPEN w) as (E1 & E2 & E3 & E4 & E5 & E6).
  apply flush_loop_ok; cbn.
  - lia.
  - unfold maxReconnectAttempts. lia.
  - rewrite E2, E3. exact Htm.
  - rewrite E4, E5. exact Hws.
Qed.

Lemma handleClose_ok i w : transport_ok w -> transport_ok (handleClose (set_readyState i CLOSED w)).
Proof.
  intros (Hra & Htm & Hws & Hq). unfold handleClose. apply scheduleReconnect_ok.
  destruct (set_readyState_fields i CLOSED w) as (E1 & E2 & E3 & E4 & E5 & E6).
  split; [cbn; rewrite E1; exact Hra |]. split; [cbn; rewrite E2, E3; exact Htm |].
  split; [cbn; discriminate |]. intros H. discriminate H.
Qed.

Lemma same_transport_ok w w' : same_transport w w' -> transport_ok w -> transport_ok w'.
Proof.
  intros (Hs & _ & _ & Ht & _ & _ & _ & Hws & Hra & Hq & Hrt & _) (H1 & H2 & H3 & H4).
  unfold transport_ok, isConnected, readyState_is, socket.
  rewrite Hs, Ht, Hws, Hra, Hq, Hrt.
  exact (conj H1 (conj H2 (conj H3 H4))).
Qed.

Lemma deliver_ok ev w : transport_ok w -> transport_ok (deliver ev w).
Proof.
  intros Hok. unfold deliver. set (w1 := set_clock _ w).
  assert (Hok1 : transport_ok w1) by exact Hok.
  destruct (what ev) as [i | i | i | i data | id].
  - destruct (state_of i w1) as [[]|]; try exact Hok1. now apply handleOpen_ok.
  - destruct (state_of i w1) as [[]|]; try exact Hok1; now apply handleClose_ok.
  - exact Hok1.
  - destruct (state_of i w1) as [[]|]; try exact Hok1.
    eapply same_transport_ok; [apply handleMessage_transport | exact Hok1].
  - destruct (timers w1 !! id) as [d|] eqn:E; [| exact Hok1].
    apply connect_ok. destruct Hok1 as (Hra & Htm & Hws & Hq).
    split; [exact Hra |]. split; [| split; [exact Hws | exact Hq]].
    intros id' delay Hl. cbn in Hl. apply lookup_delete_Some in Hl. destruct Hl as [_ Hl].
    apply Htm. exact Hl.
Qed.

Lemma send_ok message w : transport_ok w -> transport_ok (send message w).
Proof.
  intros Hok. unfold send. destruct (isConnected w) eqn:Hc.
  - apply ws_send_ok; [exact Hok |]. apply Hok. exact Hc.
  - set (w1 := set_messageQueue _ w).
    assert (Hok1 : transport_ok w1).
    { destruct Hok as (Hra & Htm & Hws & Hq). split; [exact Hra |]. split; [exact Htm |].
      split; [exact Hws |]. intros H. change (isConnected w1) with (isConnected w) in H. congruence. }
    destruct (_ || _); [now apply connect_ok | exact Hok1].
Qed.

Lemma disconnect_fields w :
  isConnected (disconnect w) = false /\ ws (disconnect w) = None /\
  messageQueue (disconnect w) = [] /\ reconnectAttempts (disconnect w) = 0 /\
  reconnectTimeout (disconnect w) = None /\
  (forall id delay, timers (disconnect w) !! id = Some delay ->
     timers w !! id = Some delay /\ reconnectTimeout w <> Some id).
Proof.
  destruct w as [clk socks upc wr tms sto ent stl nid ws0 ra mq mh rt aip ap bc].
  unfold disconnect, isConnected, readyState_is, socket; cbn.
  destruct rt as [id|]; destruct ws0 as [i|]; cbn;
    try (destruct (socks !! i) as [s|] eqn:Es; cbn);
    repeat split; try reflexivity; try discriminate;
    try (apply lookup_delete_Some in H; tauto);
    try (apply lookup_delete_Some in H; destruct H; congruence);
    try assumption.
Qed.

Lemma disconnect_ok w : transport_ok w -> transport_ok (disconnect w).
Proof.
  intros (Hra & Htm & Hws & Hq).
  destruct (disconnect_fields w) as (Hc & Hws' & Hq' & Hra' & Hrt' & Htm').
  split; [rewrite Hra'; unfold maxReconnectAttempts; lia |].
  split; [| split; [rewrite Hws'; discriminate | intros _; exact Hq']].
  intros id delay Hl. exfalso. apply Htm' in Hl. destruct Hl as (Hl & Hne).
  destruct (Htm id delay Hl) as [Hrt _]. apply (Hne Hrt).
Qed.

End TransportInvariant.

(** ** Further properties: invariants that every operation keeps *)

Section Stable.
Import WebSocketManager.

Variable P : World -> Prop.
Hypothesis P_deliver : forall ev w, P w -> P (deliver ev w).
Hypothesis P_send : forall m w, P w -> P (send m w).
Hypothesis P_connect : forall w, P w -> P (connect w).
Hypothesis P_listen : forall key h w,
  id_of h = nextId w -> P w -> P (on key h (set_nextId (S (nextId w)) w)).
Hypothesis P_off : forall key h w, P w -> P (off key h w).
Hypothesis P_clock : forall t w, P w -> P (set_clock t w).
Hypothesis P_take : forall w, P w -> P (AuthManager.take_guard w).
Hypothesis P_release : forall w, P w -> P (AuthManager.release_guard w).
Hypothesis P_cache : forall c w, P w -> P (set_balanceCache c w).

Lemma keeps_ret' {A} (a : A) : keeps P (ret a).
Proof. intros evs w Hw. exact Hw. Qed.

Lemma keeps_throw' {A} e : keeps P (throw (A := A) e).
Proof. intros evs w Hw. exact Hw. Qed.

Lemma keeps_lift' {A} (x : Outcome A) : keeps P (lift x).
Proof. intros evs w Hw. exact Hw. Qed.

Lemma keeps_read' {A} (f : World -> A) : keeps P (read f).
Proof. intros evs w Hw. exact Hw. Qed.

Lemma keeps_act' f : (forall w, P w -> P (f w)) -> keeps P (act f).
Proof. intros Hf evs w Hw. apply Hf, Hw. Qed.

Lemma keeps_bind' {A B} (m : Async A) (k : A -> Async B) :
  keeps P m -> (forall a, keeps P (k a)) -> keeps P (EventLoop.bind m k).
Proof.
  intros Hm Hk evs w Hw. unfold EventLoop.bind.
  specialize (Hm evs w Hw). destruct (m evs w) as [[[a|e] evs1] w1]; cbn in Hm.
  - apply Hk, Hm.
  - exact Hm.
Qed.

Lemma until_settled_keeps p deadline evs : forall w,
  P w -> P (until_settled p deadline evs w).2.
Proof.
  induction evs as [|ev rest IH]; intros w Hw; cbn [until_settled].
  - cbn. now apply P_clock.
  - destruct (deadline <=? at_ms ev); [cbn; now apply P_clock |].
    destruct (settled (deliver ev w) !! p); [cbn; now apply P_deliver |].
    apply IH. now apply P_deliver.
Qed.

Lemma deliver_until_keeps t evs : forall w, P w -> P (deliver_until t evs w).2.
Proof.
  induction evs as [|ev rest IH]; intros w Hw; cbn [deliver_until]; [exact Hw |].
  destruct (at_ms ev <? t); [| exact Hw]. apply IH. now apply P_deliver.
Qed.

Lemma waitForMessage_keeps' messageType timeout :
  keeps P (AuthManager.waitForMessage messageType timeout).
Proof.
  intros evs w Hw. unfold AuthManager.waitForMessage.
  pose proof (until_settled_keeps (nextId w) (clock w + timeout) evs
                (on messageType (OneShot messageType (nextId w)) (set_nextId (S (nextId w)) w))
                (P_listen messageType (OneShot messageType (nextId w)) w eq_refl Hw)) as H.
  change (clock (on messageType (OneShot messageType (nextId w)) (set_nextId (S (nextId w)) w)))
    with (clock w).
  destruct (until_settled _ _ _ _) as [[[v|] evs1] w1]; cbn in *; [exact H |].
  now apply P_off.
Qed.

Lemma waitForBalanceResponse_keeps' requestId timeout :
  keeps P (BalanceManager.waitForBalanceResponse requestId timeout).
Proof.
  intros evs w Hw. unfold BalanceManager.waitForBalanceResponse.
  pose proof (until_settled_keeps (nextId w) (clock w + timeout) evs
                (on "message" (BalanceResponse requestId (nextId w)) (set_nextId (S (nextId w)) w))
                (P_listen "message" (BalanceResponse requestId (nextId w)) w eq_refl Hw)) as H.
  change (clock (on "message" (BalanceResponse requestId (nextId w))
                   (set_nextId (S (nextId w)) w)))
    with (clock w).
  destruct (until_settled _ _ _ _) as [[[v|] evs1] w1]; cbn in *; [exact H |].
  now apply P_off.
Qed.

Lemma checkConnection_keeps polls startTime timeout :
  keeps P (AuthManager.checkConnection polls startTime timeout).
Proof.
  induction polls as [|polls IH]; intros evs w Hw; cbn [AuthManager.checkConnection].
  - destruct (isConnected w); [exact Hw |]. destruct (_ <? _); exact Hw.
  - destruct (isConnected w); [exact Hw |]. destruct (_ <? _); [exact Hw |].
    pose proof (deliver_until_keeps (clock w + 100) evs w Hw) as H.
    destruct (deliver_until (clock w + 100) evs w) as [evs1 w1]. cbn in H.
    apply IH. now apply P_clock.
Qed.

Lemma waitForConnection_keeps timeout : keeps P (AuthManager.waitForConnection timeout).
Proof. intros evs w Hw. unfold AuthManager.waitForConnection. now apply checkConnection_keeps. Qed.

Section WithSdk.
Context `{sdk : AuthManager.Nitrolite}.
Import AuthManager.

Lemma handshake_keeps sessionKey walletClient userAddress :
  keeps P (handshake sessionKey walletClient userAddress).
Proof.
  unfold handshake, sendAuthRequest, receiveChallenge, sendAuthVerify, receiveSuccess.
  repeat first
    [ apply keeps_bind' | apply keeps_read' | apply keeps_lift' | apply keeps_ret'
    | apply keeps_throw' | apply waitForMessage_keeps' | apply waitForConnection_keeps
    | apply keeps_act'; [now auto]
    | match goal with |- keeps P (if ?b then _ else _) => destruct b end
    | match goal with |- forall _, keeps P _ => intros ? end ].
Qed.

Lemma authenticate_keeps sessionKey walletClient userAddress evs w :
  P w -> P (authenticate sessionKey walletClient userAddress evs w).2.
Proof.
  intros Hw. unfold authenticate. destruct (authInProgress w); [exact Hw |].
  unfold runHandshake, _performAuthentication.
  pose proof (handshake_keeps sessionKey walletClient userAddress evs (take_guard w)
                (P_take w Hw)) as H.
  destruct (handshake _ _ _ _ _) as [[o evs1] w1]. cbn in *. now apply P_release.
Qed.

End WithSdk.

Lemma pull_keeps asset : keeps P (BalanceManager.pull asset).
Proof.
  unfold BalanceManager.pull.
  repeat first
    [ apply keeps_bind' | apply keeps_read' | apply keeps_lift' | apply keeps_ret'
    | apply keeps_throw' | apply waitForBalanceResponse_keeps'
    | apply keeps_act'; [now auto]
    | match goal with |- keeps P (if ?b then _ else _) => destruct b end
    | match goal with |- forall _, keeps P _ => intros ? end ].
Qed.

Lemma getUnifiedBalance_keeps asset forceRefresh evs w :
  P w -> P (BalanceManager.getUnifiedBalance asset forceRefresh evs w).2.
Proof.
  intros Hw. unfold BalanceManager.getUnifiedBalance.
  destruct (if forceRefresh then None else _); [exact Hw |].
  pose proof (pull_keeps asset evs w Hw) as H.
  destruct (BalanceManager.pull asset evs w) as [[[v|e] evs1] w1]; exact H.
Qed.

Lemma pull_channel_keeps channelId : keeps P (BalanceManager.pull_channel channelId).
Proof.
  unfold BalanceManager.pull_channel.
  repeat first
    [ apply keeps_bind' | apply keeps_read' | apply keeps_lift' | apply keeps_ret'
    | apply keeps_throw' | apply waitForBalanceResponse_keeps'
    | apply keeps_act'; [now auto]
    | match goal with |- keeps P (if ?b then _ else _) => destruct b end
    | match goal with |- forall _, keeps P _ => intros ? end ].
Qed.

Lemma getChannelBalance_keeps channelId evs w :
  P w -> P (BalanceManager.getChannelBalance channelId evs w).2.
Proof.
  intros Hw. unfold BalanceManager.getChannelBalance.
  pose proof (pull_channel_keeps channelId evs w Hw) as H.
  destruct (BalanceManager.pull_channel channelId evs w) as [[[v|e] evs1] w1]; exact H.
Qed.

End Stable.

(** ** Further properties: the worlds the extension reaches *)

Section InOrder.
Import WebSocketManager Closures.

Lemma invoke_no_duplicates h m w : no_duplicates w -> no_duplicates (invoke h m w).
Proof.
  intros Hnd.
  assert (Hres : forall p v w0, no_duplicates w0 -> no_duplicates (resolve p v w0)).
  { intros p v w0 H0. unfold resolve. destruct (settled w0 !! p); exact H0. }
  destruct h as [mt q | rid q | c]; cbn [invoke].
  - apply Hres, off_no_duplicates, Hnd.
  - destruct (answers rid m) as [[|]|]; try exact Hnd. apply Hres, off_no_duplicates, Hnd.
  - destruct (pushed_balance m) as [[[[] b]|]|]; exact Hnd.
Qed.

Lemma forEach_no_duplicates key m snapshot : forall w,
  no_duplicates w -> no_duplicates (forEach invoke key snapshot m w).
Proof.
  induction snapshot as [|h rest IH]; intros w Hnd; [exact Hnd |].
  cbn [forEach]. apply IH. case_bool_decide; [now apply invoke_no_duplicates | exact Hnd].
Qed.

Lemma same_registry_no_duplicates w w' :
  same_registry w w' -> no_duplicates w -> no_duplicates w'.
Proof. intros (Hh & _) Hnd. unfold no_duplicates. rewrite Hh. exact Hnd. Qed.

Lemma deliver_no_duplicates ev w : no_duplicates w -> no_duplicates (deliver ev w).
Proof.
  intros Hnd. unfold deliver. set (w1 := set_clock _ w).
  assert (Hnd1 : no_duplicates w1) by exact Hnd.
  destruct (what ev) as [i | i | i | i data | id].
  - destruct (state_of i w1) as [[]|]; try exact Hnd1.
    eapply same_registry_no_duplicates; [| exact Hnd1].
    eapply same_registry_trans; [apply set_readyState_registry | apply handleOpen_registry].
  - destruct (state_of i w1) as [[]|]; try exact Hnd1;
      (eapply same_registry_no_duplicates; [| exact Hnd1];
       eapply same_registry_trans; [apply set_readyState_registry | apply handleClose_registry]).
  - exact Hnd1.
  - destruct (state_of i w1) as [[]|]; try exact Hnd1.
    unfold handleMessage. destruct data as [m|]; [| exact Hnd1].
    destruct (getMessageType m); [| exact Hnd1].
    now apply forEach_no_duplicates, forEach_no_duplicates.
  - destruct (timers w1 !! id); [| exact Hnd1].
    eapply same_registry_no_duplicates; [| exact Hnd1].
    eapply same_registry_trans; [| apply connect_registry]. repeat split; cbn; lia.
Qed.

Lemma off_ok key h w : transport_ok w -> transport_ok (off key h w).
Proof. intros Hok. unfold off. destruct (messageHandlers w !! key); exact Hok. Qed.

Lemma in_order_deliver ev w : in_order w -> in_order (deliver ev w).
Proof.
  intros (H1 & H2 & H3).
  split; [now apply deliver_well_formed |].
  split; [now apply deliver_no_duplicates | now apply deliver_ok].
Qed.

Lemma in_order_send m w : in_order w -> in_order (send m w).
Proof.
  intros (H1 & H2 & H3). split; [now apply send_well_formed |].
  split; [| now apply send_ok].
  eapply same_registry_no_duplicates; [apply send_registry | exact H2].
Qed.

Lemma in_order_connect w : in_order w -> in_order (connect w).
Proof.
  intros (H1 & H2 & H3).
  split; [eapply well_formed_same_registry; [apply connect_registry | exact H1] |].
  split; [| now apply connect_ok].
  eapply same_registry_no_duplicates; [apply connect_registry | exact H2].
Qed.

Lemma in_order_listen key h w :
  id_of h = nextId w -> in_order w -> in_order (on key h (set_nextId (S (nextId w)) w)).
Proof.
  intros Hid (H1 & H2 & H3). split; [now apply on_fresh_well_formed |].
  split; [apply on_no_duplicates; exact H2 | exact H3].
Qed.

Lemma in_order_off key h w : in_order w -> in_order (off key h w).
Proof.
  intros (H1 & H2 & H3). split; [now apply off_well_formed |].
  split; [now apply off_no_duplicates | now apply off_ok].
Qed.

Lemma in_order_disconnect w : in_order w -> in_order (disconnect w).
Proof.
  intros (H1 & H2 & H3).
  assert (Hr : same_registry w (disconnect w)).
  { destruct w as [clk socks upc wr tms sto ent stl nid ws0 ra mq mh rt aip ap bc].
    unfold disconnect. cbn.
    destruct rt, ws0 as [i|]; cbn; try destruct (socks !! i); repeat split; cbn; lia. }
  split; [eapply well_formed_same_registry; eassumption |].
  split; [eapply same_registry_no_duplicates; eassumption | now apply disconnect_ok].
Qed.

Lemma in_order_take w : in_order w -> in_order (AuthManager.take_guard w).
Proof.
  intros (H1 & H2 & H3). split; [now apply take_guard_well_formed |]. split; assumption.
Qed.

Lemma in_order_take_release w :
  in_order w -> in_order (set_authPromise None (set_authInProgress false w)).
Proof. intros H. exact H. Qed.

Lemma startup_in_order now plan random stored : in_order (startup now plan random stored).
Proof.
  split; [apply startup_well_formed |]. split.
  - intros k hs Hk. unfold startup, BalanceManager.subscribeToBalanceUpdates, on in Hk.
    cbn in Hk. destruct (decide (k = "balance_update")) as [->|Hne].
    + rewrite lookup_insert_eq in Hk. injection Hk as <-. cbn.
      rewrite lookup_empty. cbn. apply NoDup_singleton.
    + rewrite lookup_insert_ne, lookup_empty in Hk by congruence. discriminate.
  - unfold startup, BalanceManager.subscribeToBalanceUpdates, on, transport_ok,
      maxReconnectAttempts. cbn.
    split; [lia |]. split; [intros id delay Hl; rewrite lookup_empty in Hl; discriminate |].
    split; [discriminate |]. reflexivity.
Qed.

Section WithManagers.
Context `{sdk : AuthManager.Nitrolite} `{vault : SessionKeyManager.Vault}.

Lemma step_in_order w w' : step w w' -> in_order w -> in_order w'.
Proof.
  intros Hstep Hw. destruct Hstep.
  - now apply in_order_deliver.
  - exact Hw.
  - now apply in_order_connect.
  - now apply in_order_send.
  - now apply in_order_disconnect.
  - apply (authenticate_keeps in_order); try assumption; intros;
      first [ now apply in_order_deliver | now apply in_order_send | now apply in_order_connect
            | now apply in_order_listen | now apply in_order_off | now apply in_order_take
            | assumption ].
  - apply in_order_take_release, in_order_disconnect, Hw.
  - apply (getUnifiedBalance_keeps in_order); try assumption; intros;
      first [ now apply in_order_deliver | now apply in_order_send
            | now apply in_order_listen | now apply in_order_off | assumption ].
  - apply (getChannelBalance_keeps in_order); try assumption; intros;
      first [ now apply in_order_deliver | now apply in_order_send
            | now apply in_order_listen | now apply in_order_off | assumption ].
  - now apply in_order_listen.
  - exact Hw.
  - unfold SessionKeyManager.generateSessionKey, SessionKeyManager.generatePrivateKey.
    destruct (entropy w); exact Hw.
  - exact Hw.
  - unfold SessionKeyManager.loadFromStorage.
    destruct (negb _); [exact Hw |].
    destruct (SessionKeyManager.decrypt_key _ _) as [k|]; [| exact Hw].
    destruct (SessionKeyManager.isExpired k w); exact Hw.
  - unfold SessionKeyManager.rotateIfNeeded, SessionKeyManager.generateSessionKey,
      SessionKeyManager.generatePrivateKey.
    destruct sessionKey as [key|];
      [destruct (SessionKeyManager.needsRotation key spentAmount asset w) |];
      destruct (entropy w); exact Hw.
  - exact Hw.
Qed.

(** X20: every world the extension reaches is in order. Starting from the
    singletons as constructed and taking any number of steps (tasks of the
    browser, the passing of time, calls of the public methods of the three
    managers, each run to its end): identities are handed out in
    increasing order, no set of handlers holds a handler twice, the
    attempt counter stays between 0 and 10, at most one reconnection timer
    is pending (the one [reconnectTimeout] names) and its delay is between
    2000 and 30000 ms, [this.ws] refers to a socket that exists, and
    nothing is queued while the socket is open. *)
Theorem reachable_in_order (w : World) : reachable w -> in_order w.
Proof.
  intros (now & plan & random & stored & Hsteps).
  revert w Hsteps. apply rtc_ind_r.
  - apply startup_in_order.
  - intros y z _ Hstep IH. eapply step_in_order; eassumption.
Qed.

End WithManagers.
End InOrder.

Lemma reachable_in_order_witness :
  reachable (sdk := signing_sdk) (vault := sample_vault)
    (AuthManager.logout connected_world) /\
  transport_ok (AuthManager.logout connected_world).
Proof.
  assert (Hr : reachable (sdk := signing_sdk) (vault := sample_vault)
                 (AuthManager.logout connected_world)).
  { exists 0, [], [], ∅. unfold connected_world.
    eapply rtc_l; [apply step_connect |].
    eapply rtc_l; [apply (step_task (opened 0)) |].
    eapply rtc_l; [apply step_logout |].
    apply rtc_refl. }
  split; [exact Hr |].
  exact (proj2 (proj2 (reachable_in_order (sdk := signing_sdk) (vault := sample_vault) _ Hr))).
Defined.

(** * The channel balance *)

Section ChannelFacts.
Import WebSocketManager Closures BalanceManager.

Lemma pull_channel_unfold channelId evs w :
  pull_channel channelId evs w =
  match waitForBalanceResponse (clock w) 10000 evs
          (send (channel_request channelId (clock w)) w) with
  | (Throw e, evs1, w1) => (Throw e, evs1, w1)
  | (Return response, evs1, w1) =>
      match AuthManager.lacks_payload response with
      | Throw e => (Throw e, evs1, w1)
      | Return true => (Throw (ErrorObj "Invalid channel balance response"), evs1, w1)
      | Return false =>
          match (let? res := get response "res" in
                 let? payload := at_index res 2 in get payload "balance") with
          | Throw e => (Throw e, evs1, w1)
          | Return reported =>
              (Return (if truthy reported then reported else JStr "0"), evs1, w1)
          end
      end
  end.
Proof.
  unfold pull_channel, EventLoop.bind, read, act, lift, throw, ret.
  destruct (waitForBalanceResponse _ _ _ _) as [[[response|e] evs1] w1]; [| reflexivity].
  destruct (AuthManager.lacks_payload response) as [[|]|]; try reflexivity.
Qed.

(** X21: [getChannelBalance] turns every failure into '0'. It
    returns '0' when no answer to its request arrives within 10 seconds; on an
    open socket, when the answer arrives in time with a payload, it returns the
    reported balance, or '0' when that is falsy, having put exactly one
    [get_channel_balance] request on the wire and nothing in the queue; and
    whatever arrives, it returns a value and leaves the state well formed. *)
Theorem getChannelBalance_spec (channelId : string) (w : World) :
  well_formed w ->
  (forall evs,
     none_answers (clock w) (clock w + 10000) evs ->
     exists evs' w', getChannelBalance channelId evs w = (JStr "0", evs', w')) /\
  (forall i s pre ev rest m res payload reported,
     ws w = Some i -> sockets w !! i = Some s -> readyState s = OPEN -> steady 1 s ->
     Forall (fun e => is_message e /\ at_ms e < clock w + 10000) pre ->
     none_answers (clock w) (clock w + 10000) pre ->
     what ev = SocketMessage i (Some m) -> at_ms ev < clock w + 10000 ->
     answers (clock w) m = Return true ->
     get m "res" = Return res -> at_index res 2 = Return payload -> truthy payload = true ->
     get payload "balance" = Return reported ->
     exists w',
       getChannelBalance channelId (pre ++ ev :: rest)%list w
         = (if truthy reported then reported else JStr "0", rest, w') /\
       wire w' = (wire w ++ [JSON.stringify (channel_request channelId (clock w))])%list /\
       messageQueue w' = messageQueue w) /\
  (forall evs, exists value evs' w', getChannelBalance channelId evs w = (value, evs', w')
                                     /\ well_formed w').
Proof.
  intros Hw. split; [| split].
  - intros evs Hnone.
    destruct (waitForBalanceResponse_timeout (clock w) 10000 evs
                (send (channel_request channelId (clock w)) w)) as (evs' & w' & Hwait).
    + now apply send_well_formed.
    + rewrite send_clock. exact Hnone.
    + exists evs', w'. unfold getChannelBalance. rewrite pull_channel_unfold, Hwait. reflexivity.
  - intros i s pre ev rest m res payload reported Hws Hs Hst Hsteady Hpre Hnone Hev Hlt Hans
      Hres Hpay Htp Hrep.
    destruct (send_steady (channel_request channelId (clock w)) i s w Hws Hs Hst Hsteady)
      as (Hwire & Hq & _ & Hopen & _ & Hclock & _).
    set (ws1 := send (channel_request channelId (clock w)) w) in *.
    destruct (waitForBalanceResponse_arrival (clock w) 10000 pre ev rest i m ws1)
      as (w1 & Hwait & Ht & _).
    { now apply send_well_formed. }
    { exact Hopen. }
    { rewrite Hclock. exact Hpre. }
    { rewrite Hclock. exact Hnone. }
    { exact Hev. }
    { rewrite Hclock. exact Hlt. }
    { exact Hans. }
    destruct (answered_has_res _ _ Hans) as [Htm (res' & Hres' & Htr)].
    rewrite Hres in Hres'. injection Hres' as <-.
    assert (Hlacks : AuthManager.lacks_payload m = Return false).
    { unfold AuthManager.lacks_payload. rewrite Htm, Hres. cbn. rewrite Htr, Hpay. cbn.
      rewrite Htp. reflexivity. }
    exists w1. split; [| split].
    + unfold getChannelBalance. rewrite pull_channel_unfold. fold ws1.
      rewrite Hwait, Hlacks, Hres. cbn [Js.bind]. rewrite Hpay. cbn [Js.bind]. rewrite Hrep.
      reflexivity.
    + destruct Ht as (_ & _ & Hw1 & _). rewrite Hw1. exact Hwire.
    + destruct Ht as (_ & _ & _ & _ & _ & _ & _ & _ & _ & Hq1 & _). rewrite Hq1. exact Hq.
  - intros evs. destruct (getChannelBalance channelId evs w) as [[value evs'] w'] eqn:E.
    exists value, evs', w'. split; [reflexivity |].
    pose proof (getChannelBalance_keeps well_formed) as Hk.
    specialize (Hk deliver_well_formed send_well_formed).
    specialize (Hk (fun key h w0 Hid H0 => on_fresh_well_formed key h w0 Hid H0) off_well_formed).
    specialize (Hk (fun t w0 H0 => H0) channelId evs w Hw). rewrite E in Hk. exact Hk.
Qed.

End ChannelFacts.

Lemma getChannelBalance_spec_witness :
  exists w',
    BalanceManager.getChannelBalance "ch-1" [message_at 100 balance_answer] connected_world
    = (JStr "42", [], w').
Proof.
  destruct (getChannelBalance_spec "ch-1" connected_world connected_world_well_formed)
    as (_ & Hok & _).
  destruct (Hok 0%nat {| readyState := OPEN; script := [] |} []
              (message_at 100 balance_answer) [] balance_answer
              (JArr [JNum 5; JStr "get_balance"; JObj [("balance", JStr "42")]])
              (JObj [("balance", JStr "42")]) (JStr "42") eq_refl eq_refl eq_refl)
    as (w' & Hcall & _).
  - constructor.
  - constructor.
  - intros ev i m Hin. apply elem_of_nil in Hin. contradiction.
  - reflexivity.
  - vm_compute. reflexivity.
  - reflexivity.
  - reflexivity.
  - reflexivity.
  - reflexivity.
  - reflexivity.
  - exists w'. exact Hcall.
Defined.

(** * Amounts outside the round trip *)

Section NumeralFacts.
Import Text BalanceManager.

(** The value of a run of digits, read with any accumulator. *)
Lemma parse_digits_value ds :
  Forall is_digit ds ->
  exists v, (forall a, parse_radix 10 a ds = Some (a * 10 ^ N.of_nat (length ds) + v)%N) /\
            (v < 10 ^ N.of_nat (length ds))%N.
Proof.
  induction 1 as [|c ds Hc Hds (v & Hv & Hlt)].
  - exists 0%N. split; [intros a; cbn; f_equal; lia | cbn; lia].
  - destruct Hc as (dc & Hdc & ->).
    exists (dc * 10 ^ N.of_nat (length ds) + v)%N. split.
    + intros a. cbn [parse_radix]. rewrite radix_val_digit by exact Hdc. rewrite Hv.
      f_equal. cbn [length]. rewrite Nat2N.inj_succ, N.pow_succ_r'. lia.
    + cbn [length]. rewrite Nat2N.inj_succ, N.pow_succ_r'. nia.
Qed.

Lemma parse_take ds k v :
  Forall is_digit ds -> parse_radix 10 0 ds = Some v -> (k <= length ds)%nat ->
  parse_radix 10 0 (take k ds) = Some (v / 10 ^ N.of_nat (length ds - k))%N.
Proof.
  intros Hall Hv Hk.
  destruct (parse_digits_value (take k ds)) as (v1 & Hv1 & _); [now apply Forall_take |].
  destruct (parse_digits_value (drop k ds)) as (v2 & Hv2 & Hlt2); [now apply Forall_drop |].
  rewrite <- (take_drop k ds) in Hv at 1. rewrite parse_radix_app, Hv1, Hv2 in Hv.
  injection Hv as <-. rewrite Hv1. f_equal.
  rewrite length_drop in *. rewrite N.mul_0_l, N.add_0_l.
  apply (N.div_unique _ _ _ v2); [exact Hlt2 | lia].
Qed.

Lemma BigInt_digits_any ds v :
  Forall is_digit ds -> parse_radix 10 0 ds = Some v -> BigInt (text ds) = Return (Z.of_N v).
Proof.
  intros Hall Hv. destruct ds as [|c ds].
  - cbn in Hv. injection Hv as <-. reflexivity.
  - apply BigInt_digits; [discriminate | exact Hall | exact Hv].
Qed.

(** X22: [parseBalance] cuts, it never rounds. For a text made of a run of
    digits, a dot and a run of digits, with 0 to 22 decimals, the result is the
    numeral of [whole * 10^decimals + floor(fraction * 10^decimals / 10^n)],
    where [n] is the number of fraction digits: digits beyond [decimals] are
    dropped, and an empty whole part or fraction counts as 0. *)
Theorem parseBalance_truncates (wd f : list ascii) (d : Z) (W F : N) :
  0 <= d <= 22 -> Forall is_digit wd -> Forall is_digit f ->
  parse_radix 10 0 wd = Some W -> parse_radix 10 0 f = Some F ->
  parseBalance (text (wd ++ "."%char :: f)) d
  = toString (Z.of_N W * 10 ^ d + Z.of_N F * 10 ^ d / 10 ^ Z.of_nat (length f)).
Proof.
  intros Hd Hwd Hf HW HF.
  unfold parseBalance, parse_body.
  rewrite chars_text, (split_digits_dot _ _ Hwd), (split_digits _ Hf).
  cbn [lookup list_lookup default from_option id].
  rewrite (BigInt_digits_any wd W Hwd HW). cbn [Js.bind].
  rewrite pow10_exact by lia. cbn [Js.bind].
  set (padded := slice0 d (padEnd d "0" f)).
  assert (Hpad : Forall is_digit padded /\
                 parse_radix 10 0 padded
                 = Some (Z.to_N (Z.of_N F * 10 ^ d / 10 ^ Z.of_nat (length f)))).
  { subst padded. unfold slice0, padEnd. change "0"%char with zero_char.
    destruct (Nat.le_gt_cases (length f) (Z.to_nat d)) as [Hle | Hgt].
    - rewrite firstn_all2 by (rewrite length_app, length_replicate; lia).
      split; [apply Forall_app; split; [exact Hf | apply Forall_replicate, zero_is_digit] |].
      rewrite parse_radix_app, HF, parse_zeros. f_equal.
      assert (Hq : Z.of_N F * 10 ^ d / 10 ^ Z.of_nat (length f)
                   = Z.of_N F * 10 ^ Z.of_nat (Z.to_nat d - length f)).
      { replace (10 ^ d) with (10 ^ Z.of_nat (Z.to_nat d - length f) * 10 ^ Z.of_nat (length f)).
        - rewrite Z.mul_assoc. apply Z.div_mul. apply Z.pow_nonzero; lia.
        - rewrite <- Z.pow_add_r by lia. f_equal. lia. }
      rewrite Hq. lia.
    - replace (Z.to_nat d - length f)%nat with 0%nat by lia. cbn [replicate].
      rewrite app_nil_r.
      split; [now apply Forall_take |].
      rewrite (parse_take f (Z.to_nat d) F Hf HF) by lia. f_equal.
      assert (Hq : Z.of_N F * 10 ^ d / 10 ^ Z.of_nat (length f)
                   = Z.of_N F / 10 ^ Z.of_nat (length f - Z.to_nat d)).
      { replace (10 ^ Z.of_nat (length f))
          with (10 ^ Z.of_nat (length f - Z.to_nat d) * 10 ^ d).
        - apply Z.div_mul_cancel_r; apply Z.pow_nonzero; lia.
        - rewrite <- Z.pow_add_r by lia. f_equal. lia. }
      rewrite Hq.
      rewrite Z2N.inj_div, N2Z.id, Z2N.inj_pow by (try apply Z.pow_nonneg; lia).
      f_equal. change (Z.to_N 10) with 10%N. f_equal. lia. }
  destruct Hpad as [Hpd Hpv].
  rewrite (BigInt_digits_any padded _ Hpd Hpv). cbn [Js.bind].
  rewrite Z2N.id; [reflexivity |].
  apply Z.div_pos; [| apply Z.pow_pos_nonneg; lia].
  apply Z.mul_nonneg_nonneg; [lia | apply Z.pow_nonneg; lia].
Qed.

End NumeralFacts.

Lemma digits_listed cs :
  forallb (fun c => (48 <=? N_of_ascii c)%N && (N_of_ascii c <=? 57)%N) cs = true ->
  Forall is_digit cs.
Proof.
  induction cs as [|c cs IH]; cbn [forallb]; [constructor |].
  intros H. apply andb_prop in H as [Hc Hcs]. constructor; [| now apply IH].
  apply andb_prop in Hc as [Hlo Hhi].
  apply N.leb_le in Hlo, Hhi.
  exists (N_of_ascii c - 48)%N. split; [lia |].
  unfold Text.digit_char.
  rewrite <- (ascii_N_embedding c) at 1. f_equal. lia.
Qed.

Lemma parseBalance_truncates_witness :
  BalanceManager.parseBalance "1.2345678" 6 = "1234567" /\
  BalanceManager.parseBalance ".5" 6 = "500000".
Proof.
  split.
  - exact (parseBalance_truncates (Text.chars "1") (Text.chars "2345678") 6 1 2345678
             ltac:(lia) (digits_listed (Text.chars "1") eq_refl)
             (digits_listed (Text.chars "2345678") eq_refl) eq_refl eq_refl).
  - exact (parseBalance_truncates [] (Text.chars "5") 6 0 5
             ltac:(lia) (digits_listed [] eq_refl)
             (digits_listed (Text.chars "5") eq_refl) eq_refl eq_refl).
Defined.

Section NegativeAmounts.
Import Text BalanceManager.

Lemma trimStart_digit_first c cs : is_digit c -> trimStart (c :: cs) = c :: cs.
Proof. intros Hc. cbn [trimStart]. now rewrite digit_not_space. Qed.

Lemma BigInt_toString_neg x : x < 0 -> BigInt (toString x) = Return x.
Proof.
  intros Hx. unfold toString.
  destruct (Z.ltb_spec x 0) as [_|]; [| lia].
  destruct (digits_spec (Z.abs_N x)) as (Hne & Hall & Hparse & _).
  unfold BigInt. rewrite chars_text.
  assert (Htrim : trim ("-"%char :: digits (Z.abs_N x)) = "-"%char :: digits (Z.abs_N x)).
  { unfold trim. cbn [trimStart is_space]. change (is_space "-") with false. cbv iota.
    cbn [rev].
    destruct (rev (digits (Z.abs_N x))) as [|c tl] eqn:Erev.
    - exfalso. apply Hne. rewrite <- (rev_involutive (digits _)), Erev. reflexivity.
    - assert (Hc : is_digit c).
      { apply Forall_rev in Hall. rewrite Erev in Hall. now inversion Hall. }
      cbn [app]. rewrite (trimStart_digit_first c _ Hc).
      change (c :: tl ++ ["-"%char])%list with ((c :: tl) ++ ["-"%char])%list.
      rewrite <- Erev, rev_app_distr, rev_involutive. reflexivity. }
  rewrite Htrim.
  destruct (digits (Z.abs_N x)) as [|c tl] eqn:Eds; [congruence |].
  cbn [parse_digits]. rewrite (Hparse 0%N). f_equal. lia.
Qed.

Lemma trimEndZeros_app_keep a b :
  trimEndZeros b <> [] -> trimEndZeros (a ++ b) = (a ++ trimEndZeros b)%list.
Proof.
  intros Hb. induction a as [|c a IH]; [reflexivity |].
  cbn [app trimEndZeros]. rewrite IH.
  destruct (a ++ trimEndZeros b)%list eqn:E; [| reflexivity].
  apply app_eq_nil in E. tauto.
Qed.

Lemma trimEndZeros_minus ds : trimEndZeros ("-"%char :: ds) = "-"%char :: trimEndZeros ds.
Proof. cbn [trimEndZeros]. destruct (trimEndZeros ds); reflexivity. Qed.

(** X23: [formatBalance] misprints negative amounts. For a negative
    integer whose remainder by [10^decimals] is not zero, the remainder keeps its
    sign, so the text after the decimal point is the zero padding, then a minus
    sign, then the digits of the remainder without their trailing zeros; the
    padding counts the minus sign as a character. *)
Theorem formatBalance_negative (x d : Z) :
  x < 0 -> 0 <= d <= 22 -> Z.rem x (10 ^ d) <> 0 ->
  let r := Z.abs_N (Z.rem x (10 ^ d)) in
  formatBalance (toString x) d
  = toString (Z.quot x (10 ^ d)) ++ "." ++
    text (replicate (Z.to_nat d - S (length (digits r))) "0"%char
          ++ "-"%char :: trimEndZeros (digits r)).
Proof.
  intros Hx Hd Hr r.
  assert (Hpow : 0 < 10 ^ d) by (apply Z.pow_pos_nonneg; lia).
  assert (Hneg : Z.rem x (10 ^ d) < 0).
  { pose proof (Z.rem_nonpos x (10 ^ d) ltac:(lia) ltac:(lia)). lia. }
  assert (Htr : trimEndZeros (padStart d "0" (chars (toString (Z.rem x (10 ^ d)))))
                = (replicate (Z.to_nat d - S (length (digits r))) "0"%char
                   ++ "-"%char :: trimEndZeros (digits r))%list).
  { unfold toString.
    destruct (Z.ltb_spec (Z.rem x (10 ^ d)) 0) as [_|]; [| lia].
    rewrite chars_text. fold r. unfold padStart. cbn [length].
    rewrite trimEndZeros_app_keep by (rewrite trimEndZeros_minus; discriminate).
    now rewrite trimEndZeros_minus. }
  unfold formatBalance, format_body.
  rewrite (BigInt_toString_neg x Hx). cbn [Js.bind].
  rewrite pow10_exact by lia. cbn [Js.bind].
  unfold bigint_div, bigint_rem.
  destruct (Z.eqb_spec (10 ^ d) 0) as [|_]; [lia |]. cbn [Js.bind].
  rewrite Htr.
  destruct (replicate _ _ ++ _ :: _)%list eqn:E; [| reflexivity].
  apply app_eq_nil in E. destruct E; discriminate.
Qed.

End NegativeAmounts.

Lemma formatBalance_negative_witness :
  BalanceManager.formatBalance "-1500000" 6 = "-1.-5" /\
  BalanceManager.formatBalance "-5" 6 = "0.0000-5".
Proof.
  split.
  - exact (formatBalance_negative (-1500000) 6 ltac:(lia) ltac:(lia)
             ltac:(vm_compute; discriminate)).
  - exact (formatBalance_negative (-5) 6 ltac:(lia) ltac:(lia)
             ltac:(vm_compute; discriminate)).
Defined.

(** * Popup, content script and client holder *)

Section PopupFacts.
Import Popup.

(** X24: what the popup prints for a time stamp. With [diff] the age in
    milliseconds, the text is 'Just now' below one minute, also for every time
    stamp in the future; then the whole minutes below one hour, the whole hours
    below one day, and the whole days from there on, each rounded down. *)
Theorem formatRelativeTime_spec (timestamp : Z) (w : World) :
  let diff := clock w - timestamp in
  (diff < 60000 -> formatRelativeTime timestamp w = "Just now") /\
  (60000 <= diff < 3600000 ->
     formatRelativeTime timestamp w = Text.toString (diff / 60000) ++ "m ago") /\
  (3600000 <= diff < 86400000 ->
     formatRelativeTime timestamp w = Text.toString (diff / 3600000) ++ "h ago") /\
  (86400000 <= diff ->
     formatRelativeTime timestamp w = Text.toString (diff / 86400000) ++ "d ago").
Proof.
  intros diff. unfold formatRelativeTime. fold diff.
  assert (Hm : diff / 1000 / 60 = diff / 60000) by (rewrite Z.div_div by lia; reflexivity).
  assert (Hh : diff / 1000 / 60 / 60 = diff / 3600000).
  { rewrite Hm, Z.div_div by lia. reflexivity. }
  assert (Hd : diff / 1000 / 60 / 60 / 24 = diff / 86400000).
  { rewrite Hh, Z.div_div by lia. reflexivity. }
  rewrite Hd, Hh, Hm.
  repeat split; intros Hrange;
    repeat match goal with
           | |- context [0 <? ?x] => destruct (Z.ltb_spec 0 x)
           end;
    try reflexivity; exfalso; Z.to_euclidean_division_equations; lia.
Qed.

End PopupFacts.

Section ContentFacts.
Import Content.

Lemma falsy_false a : falsy a = false -> exists s, a = Some s /\ s <> EmptyString.
Proof.
  destruct a as [s|]; [| discriminate]. cbn. intros H.
  exists s. split; [reflexivity |]. intros ->. discriminate.
Qed.

Lemma or_else_nonempty a fallback : fallback <> EmptyString -> or_else a fallback <> EmptyString.
Proof.
  intros Hf. destruct a as [s|]; cbn; [| exact Hf].
  destruct (String.eqb_spec s EmptyString); assumption.
Qed.

Lemma length_chars s : length (Text.chars s) = String.length s.
Proof. unfold Text.chars. induction s as [|c s IH]; cbn; congruence. Qed.

Lemma address_format_shape s :
  address_format s = true ->
  String.length s = 42%nat /\
  exists hs, Text.chars s = "0"%char :: "x"%char :: hs /\ forallb is_hex hs = true.
Proof.
  unfold address_format. intros H. rewrite <- length_chars.
  destruct (Text.chars s) as [|c0 tl]; [discriminate |].
  destruct c0 as [[] [] [] [] [] [] [] []]; try discriminate.
  destruct tl as [|c1 hs]; [discriminate |].
  destruct c1 as [[] [] [] [] [] [] [] []]; try discriminate.
  apply andb_prop in H as [Hlen Hhex]. apply Nat.eqb_eq in Hlen.
  split; [cbn [length]; lia | exists hs; auto].
Qed.

Lemma above_zero_intro x : isNaN x = false -> le_zero x = false -> above_zero x.
Proof.
  destruct x as [|neg|neg m e]; [discriminate | |]; intros _ H.
  - destruct neg; [discriminate | left; reflexivity].
  - right. unfold le_zero, Float64.ge in H.
    apply Z.leb_gt in H.
    assert (Hp : 0 < 2 ^ (e - Z.min 0 e)) by (apply Z.pow_pos_nonneg; lia).
    destruct neg; unfold Float64.signed in H; cbn [Float64.signed] in H.
    + exfalso. nia.
    + exists m, e. split; [reflexivity |]. nia.
Qed.

Lemma above_zero_elim x : above_zero x -> isNaN x = false /\ le_zero x = false.
Proof.
  intros [-> | (m & e & -> & Hm)]; [split; reflexivity |].
  split; [reflexivity |].
  unfold le_zero, Float64.ge, Float64.signed. apply Z.leb_gt.
  assert (Hp : 0 < 2 ^ (e - Z.min 0 e)) by (apply Z.pow_pos_nonneg; lia).
  nia.
Qed.

(** X25: what [extractMetadata] lets through. Metadata it returns
    carries the creator and content id attributes unchanged, a creator of 42
    characters, [0x] and 40 hexadecimal digits, a price above zero, and a
    content id, asset and title that are not empty. It returns metadata
    whenever the three attributes are there with a well-formed creator, a price
    text that parses above zero and a content id that is not empty. The price
    need not be finite, and text after the number is ignored: a price
    attribute starting with [Infinity] is accepted with an infinite price. *)
Theorem extractMetadata_sound (element : Element) (hostname : string) :
  (forall md,
     extractMetadata element hostname = Some md ->
     getAttribute element "data-yellowpay-creator" = Some (creatorAddress md) /\
     getAttribute element "data-yellowpay-content-id" = Some (contentId md) /\
     (exists p, getAttribute element "data-yellowpay-price" = Some p /\
                price md = Float64.parseFloat p) /\
     String.length (creatorAddress md) = 42%nat /\
     (exists hs, Text.chars (creatorAddress md) = "0"%char :: "x"%char :: hs /\
                 forallb is_hex hs = true) /\
     above_zero (price md) /\
     contentId md <> EmptyString /\ asset md <> EmptyString /\ title md <> EmptyString /\
     domain md = hostname) /\
  (forall creator p cid,
     getAttribute element "data-yellowpay-creator" = Some creator ->
     getAttribute element "data-yellowpay-price" = Some p ->
     getAttribute element "data-yellowpay-content-id" = Some cid ->
     address_format creator = true -> above_zero (Float64.parseFloat p) ->
     cid <> EmptyString ->
     extractMetadata element hostname <> None) /\
  (forall suffix, exists md,
     extractMetadata (priced ("Infinity" ++ suffix)) hostname = Some md /\
     price md = Float64.Inf false).
Proof.
  split; [| split].
  - unfold extractMetadata. intros md H.
    destruct (falsy (getAttribute element "data-yellowpay-creator")) eqn:Ec; [discriminate |].
    destruct (falsy (getAttribute element "data-yellowpay-price")) eqn:Ep; [discriminate |].
    destruct (falsy (getAttribute element "data-yellowpay-content-id")) eqn:Ei;
      [discriminate |].
    cbn [orb] in H.
    apply falsy_false in Ec as (creator & Hc & Hcne).
    apply falsy_false in Ep as (p & Hp & Hpne).
    apply falsy_false in Ei as (cid & Hi & Hine).
    rewrite Hc, Hp, Hi in H. cbn [default from_option id] in H.
    destruct (address_format creator) eqn:Eaddr; [| discriminate]. cbn [negb] in H.
    destruct (isNaN (Float64.parseFloat p)) eqn:Enan; [discriminate |].
    destruct (le_zero (Float64.parseFloat p)) eqn:Ele; [discriminate |].
    cbn [orb] in H. injection H as <-.
    cbn [creatorAddress contentId price asset title domain].
    destruct (address_format_shape creator Eaddr) as [Hlen Hshape].
    split; [exact Hc |]. split; [exact Hi |].
    split; [exists p; split; [exact Hp | reflexivity] |].
    split; [exact Hlen |]. split; [exact Hshape |].
    split; [now apply above_zero_intro |].
    split; [exact Hine |].
    split; [apply or_else_nonempty; discriminate |].
    split; [apply or_else_nonempty; discriminate |].
    reflexivity.
  - intros creator p cid Hc Hp Hi Haddr Hprice Hcid.
    destruct (above_zero_elim _ Hprice) as [Hnan Hle].
    assert (Hcne : creator <> EmptyString) by (intros ->; discriminate).
    assert (Hpne : p <> EmptyString) by (intros ->; discriminate).
    unfold extractMetadata. rewrite Hc, Hp, Hi. cbn [falsy].
    destruct (String.eqb_spec creator EmptyString) as [|_]; [contradiction |].
    destruct (String.eqb_spec p EmptyString) as [|_]; [contradiction |].
    destruct (String.eqb_spec cid EmptyString) as [|_]; [contradiction |].
    cbn [orb default from_option id]. rewrite Haddr, Hnan, Hle. discriminate.
  - intros suffix. eexists. split; [vm_compute; reflexivity | reflexivity].
Qed.

End ContentFacts.

Section YellowClientFacts.
Import YellowClient.
Context `{sdk : Sdk}.

Lemma initialize_cases key url st :
  (exists pc wc client,
     initialize key url st
     = (Return tt, {| nitroliteClient := Some client; publicClient := Some pc;
                      walletClient := Some wc |})) \/
  (exists e st',
     initialize key url st = (Throw e, st') /\
     nitroliteClient st' = nitroliteClient st /\
     (publicClient st <> None -> publicClient st' <> None) /\
     (walletClient st <> None -> walletClient st' <> None)).
Proof.
  unfold initialize.
  destruct (privateKeyToAccount key) as [account|e]; [| right; eauto 10].
  destruct (createPublicClient url) as [pc|e]; [| right; eauto 10].
  destruct (createWalletClient url account) as [wc|e];
    [| right; eexists _, _; cbn; eauto 10].
  destruct (newWalletStateSigner wc) as [signer|e];
    [| right; eexists _, _; cbn; eauto 10].
  destruct (newNitroliteClient pc wc signer) as [client|e];
    [left; eauto | right; eexists _, _; cbn; eauto 10].
Qed.

Lemma initialize_consistent key url st :
  consistent st -> consistent (initialize key url st).2.
Proof.
  intros Hst.
  destruct (initialize_cases key url st)
    as [(pc & wc & client & ->) | (e & st' & -> & Hn & Hp & Hw)]; cbn [snd].
  - intros _. cbn. split; discriminate.
  - intros Hc. rewrite Hn in Hc. destruct (Hst Hc) as [H1 H2]. auto.
Qed.

Lemma after_calls_consistent calls st : consistent st -> consistent (after_calls calls st).
Proof.
  revert st. induction calls as [|[key url] calls IH]; intros st Hst; [exact Hst |].
  cbn. apply IH. now apply initialize_consistent.
Qed.

(** X26: the client holder after any series of [initialize] calls. Once
    [isInitialized()] is true the three getters return; while it is false
    [getClient()] throws. A call that returns leaves the holder initialized; a
    call that throws leaves the Nitrolite client as it was, so it never
    un-initializes. When only the construction of the Nitrolite client fails,
    the public and wallet clients of that call are already stored and the
    getters return them, beside the Nitrolite client of an earlier call if
    there was one. *)
Theorem initialized_has_clients (calls : list (string * string)) :
  let st := after_calls calls fresh in
  (isInitialized st = true ->
     exists client pc wc,
       getClient st = Return client /\ getPublicClient st = Return pc /\
       getWalletClient st = Return wc) /\
  (isInitialized st = false -> getClient st = not_initialized) /\
  (forall key url,
     (initialize key url st).1 = Return tt ->
     isInitialized (initialize key url st).2 = true) /\
  (forall key url e,
     (initialize key url st).1 = Throw e ->
     nitroliteClient (initialize key url st).2 = nitroliteClient st) /\
  (forall key url account pc wc signer e,
     privateKeyToAccount key = Return account ->
     createPublicClient url = Return pc ->
     createWalletClient url account = Return wc ->
     newWalletStateSigner wc = Return signer ->
     newNitroliteClient pc wc signer = Throw e ->
     (initialize key url st).1 = Throw e /\
     getPublicClient (initialize key url st).2 = Return pc /\
     getWalletClient (initialize key url st).2 = Return wc /\
     getClient (initialize key url st).2 = getClient st).
Proof.
  intros st.
  assert (Hst : consistent st) by (apply after_calls_consistent; intros H; now cbn in H).
  split; [| split; [| split; [| split]]].
  - unfold isInitialized, getClient, getPublicClient, getWalletClient.
    intros Hinit. unfold consistent in Hst.
    destruct (nitroliteClient st) as [client|]; [| discriminate].
    destruct (Hst ltac:(discriminate)) as [Hp Hw].
    destruct (publicClient st) as [pc|]; [| congruence].
    destruct (walletClient st) as [wc|]; [| congruence].
    exists client, pc, wc. repeat split.
  - unfold isInitialized, getClient. destruct (nitroliteClient st); [discriminate | reflexivity].
  - intros key url Hok.
    destruct (initialize_cases key url st)
      as [(pc & wc & client & E) | (e & st' & E & _)]; rewrite E in *; cbn in *.
    + reflexivity.
    + discriminate.
  - intros key url e Hthrow.
    destruct (initialize_cases key url st)
      as [(pc & wc & client & E) | (e' & st' & E & Hn & _)]; rewrite E in *; cbn in *.
    + discriminate.
    + exact Hn.
  - intros key url account pc wc signer e Ha Hp Hw Hs Hc.
    unfold initialize. rewrite Ha, Hp, Hw, Hs, Hc. cbn. auto.
Qed.

End YellowClientFacts.

Lemma initialized_has_clients_witness :
  YellowClient.isInitialized (sdk := flaky_sdk) stale_holder = true /\
  YellowClient.getClient (sdk := flaky_sdk) stale_holder = Return ("http://rpc", "0xa1") /\
  YellowClient.getWalletClient (sdk := flaky_sdk) stale_holder
  = Return ("http://down", "0xb2").
Proof.
  destruct (initialized_has_clients (sdk := flaky_sdk) [("0xa1", "http://rpc")])
    as (_ & _ & _ & _ & Hpart).
  destruct (Hpart "0xb2" "http://down" "0xb2" "http://down" ("http://down", "0xb2") tt
              (ErrorObj "no transport") eq_refl eq_refl eq_refl eq_refl eq_refl)
    as (_ & _ & Hw & Hc).
  unfold stale_holder. split; [reflexivity |]. split; [rewrite Hc; reflexivity | exact Hw].
Defined.
